(** * NoryaBackend: the top-characters ranking of [server.js]

    A shallow embedding of the request handler [GET /api/top-characters]
    of [src/server.js] and of the ECMAScript built-ins it calls
    ([parseFloat], [isNaN], object spread and rest, [Array.prototype.map],
    [sort], [slice] and [includes]), followed by the properties of the
    ranking it computes.

    - Numbers are IEEE 754 binary64 values, taken from the Standard
      Library's [SpecFloat] at precision 53 and maximal exponent 1024;
      decimal literals are rounded to the nearest Number, ties to even.
    - Strings are modelled by their UTF-8 encoding, so that the field
      names of the source are written as they are.
    - A row of the sheet is an object whose properties hold Strings, as
      the CSV parser builds them with [header: true]; objects list their
      properties in the order of [OrdinaryOwnPropertyKeys].
    - [Array.prototype.sort] is the stable sort of ECMAScript 2019.
    - The handler is a small interaction: it answers, or awaits
      [fetchSheetRows()] and goes on with the rows or the error thrown. *)

From Stdlib Require Import ZArith List Bool Lia String Ascii.
From Stdlib Require Import Sorting.Permutation Sorting.Sorted.
From Stdlib Require Import Floats.SpecFloat.
From Stdlib Require DecimalString DecimalN DecimalPos.
Import ListNotations.

Local Open Scope string_scope.
Local Open Scope list_scope.
Local Open Scope Z_scope.

(** ** Numbers *)

Module Num.

Definition prec : Z := 53.
Definition emax : Z := 1024.

Definition number := spec_float.

Definition NaN : number := S754_nan.
Definition zero : number := S754_zero false.
Definition Infinity (s : bool) : number := S754_infinity s.

(** [isNaN x] on a Number. *)
Definition isNaN (x : number) : bool :=
  match x with S754_nan => true | _ => false end.

(** [x - y], [x === y], [x !== y], [x < y], [x >= y] on Numbers. *)
Definition sub (x y : number) : number := SFsub prec emax x y.
Definition eqb (x y : number) : bool := SFeqb x y.
Definition neqb (x y : number) : bool := negb (SFeqb x y).
Definition ltb (x y : number) : bool := SFltb x y.
Definition geb (x y : number) : bool := SFleb y x.

(** The Number nearest to [m * 10^e] (ties to even), with the sign [s]:
    the rounding of the mathematical value of a decimal literal, done
    once and on all the digits, as the engine does.  A nonnegative
    exponent gives an integer, rounded by [binary_round]; a negative one
    gives a quotient of integers, rounded from the quotient and the
    location of the remainder as in [SFdiv]. *)
Definition of_decimal (s : bool) (m : Z) (e : Z) : number :=
  match m with
  | Zpos p =>
      match e with
      | Zneg k =>
          let '(q, e', l) :=
            SFdiv_core_binary prec emax (Zpos p) 0 (Z.pow_pos 10 k) 0 in
          binary_round_aux prec emax s q e' l
      | _ => binary_round prec emax s (p * Z.to_pos (10 ^ e))%positive 0
      end
  | _ => S754_zero s
  end.

(** A Number as the program can hold it: a canonical binary64 value. *)
Definition valid (x : number) : bool := valid_binary prec emax x.

End Num.

(** ** Strings *)

Module Str.

Definition code (c : ascii) : Z := Z.of_N (N_of_ascii c).

Definition is_digit (c : ascii) : bool := (48 <=? code c) && (code c <=? 57).

(** The longest run of decimal digits at the start of a string, and what
    follows it. *)
Fixpoint span_digits (s : string) : string * string :=
  match s with
  | String c s' =>
      if is_digit c
      then let '(ds, r) := span_digits s' in (String c ds, r)
      else (EmptyString, s)
  | EmptyString => (EmptyString, EmptyString)
  end.

(** A string of digits only, and a string that starts with a digit. *)
Fixpoint all_digits (s : string) : bool :=
  match s with
  | String c s' => is_digit c && all_digits s'
  | EmptyString => true
  end.

Definition starts_with_digit (s : string) : bool :=
  match s with
  | String c _ => is_digit c
  | EmptyString => false
  end.

(** The mathematical value of a run of decimal digits, after [acc]. *)
Fixpoint digits_value (acc : Z) (s : string) : Z :=
  match s with
  | String c s' => digits_value (10 * acc + (code c - 48)) s'
  | EmptyString => acc
  end.

(** White space and line terminators ([StrWhiteSpaceChar]) by the length of
    their UTF-8 encoding: TAB, LF, VT, FF, CR, SP; U+00A0; U+1680,
    U+2000..U+200A, U+2028, U+2029, U+202F, U+205F, U+3000, U+FEFF. *)
Definition is_ws1 (c : ascii) : bool :=
  ((9 <=? code c) && (code c <=? 13)) || (code c =? 32).

Definition is_ws2 (c1 c2 : ascii) : bool :=
  (code c1 =? 194) && (code c2 =? 160).

Definition is_ws3 (c1 c2 c3 : ascii) : bool :=
  ((code c1 =? 225) && (code c2 =? 154) && (code c3 =? 128))
  || ((code c1 =? 226) && (code c2 =? 128)
      && (((128 <=? code c3) && (code c3 <=? 138))
          || (code c3 =? 168) || (code c3 =? 169) || (code c3 =? 175)))
  || ((code c1 =? 226) && (code c2 =? 129) && (code c3 =? 159))
  || ((code c1 =? 227) && (code c2 =? 128) && (code c3 =? 128))
  || ((code c1 =? 239) && (code c2 =? 187) && (code c3 =? 191)).

(** [TrimString(s, start)]. *)
Fixpoint TrimStart (s : string) : string :=
  match s with
  | String c1 s1 =>
      if is_ws1 c1 then TrimStart s1
      else
        match s1 with
        | String c2 s2 =>
            if is_ws2 c1 c2 then TrimStart s2
            else
              match s2 with
              | String c3 s3 => if is_ws3 c1 c2 c3 then TrimStart s3 else s
              | EmptyString => s
              end
        | EmptyString => s
        end
  | EmptyString => s
  end.

(** [TrimString(s, end)]: the string is cut where only white space
    remains. *)
Fixpoint TrimEnd (s : string) : string :=
  match s with
  | String c s' =>
      match TrimStart s with
      | EmptyString => EmptyString
      | _ => String c (TrimEnd s')
      end
  | EmptyString => EmptyString
  end.

(** What follows the prefix [p] of [s], when [s] starts with [p]. *)
Fixpoint strip_prefix (p s : string) : option string :=
  match p with
  | String a p' =>
      match s with
      | String b s' => if Ascii.eqb a b then strip_prefix p' s' else None
      | EmptyString => None
      end
  | EmptyString => Some s
  end.

(** The value read from a numeric prefix. *)
Inductive scanned : Type :=
| ScInfinity
| ScDecimal (m : Z) (e : Z).

(** An optional sign at the start of [s]: whether it is [-], and what
    follows it. *)
Definition split_sign (s : string) : bool * string :=
  match s with
  | String c t =>
      if code c =? 43 then (false, t)
      else if code c =? 45 then (true, t)
      else (false, s)
  | EmptyString => (false, s)
  end.

(** [ExponentPart ::: ExponentIndicator SignedInteger], at the start of
    [s]: its value and what follows it. *)
Definition scan_exponent (s : string) : option (Z * string) :=
  match s with
  | String c s1 =>
      if (code c =? 101) || (code c =? 69) then
        let '(neg, s2) := split_sign s1 in
        match span_digits s2 with
        | (EmptyString, _) => None
        | (ds, r) =>
            Some (if neg then - digits_value 0 ds else digits_value 0 ds, r)
        end
      else None
  | EmptyString => None
  end.

(** After the integer digits [ip]: a dot and the digits of the fraction,
    where they continue a literal ([.] alone does not after no digit). *)
Definition scan_fraction (ip s1 : string) : string * string :=
  match s1 with
  | String c t =>
      if code c =? 46 then
        match ip, span_digits t with
        | EmptyString, (EmptyString, _) => (EmptyString, s1)
        | _, (fp, r) => (fp, r)
        end
      else (EmptyString, s1)
  | EmptyString => (EmptyString, s1)
  end.

(** The digits before and after the dot of the longest prefix
    [DecimalDigits . DecimalDigits?], [. DecimalDigits] or
    [DecimalDigits], and what follows it. *)
Definition scan_mantissa (s : string) : option (string * string * string) :=
  let '(ip, s1) := span_digits s in
  let '(fp, s2) := scan_fraction ip s1 in
  match ip, fp with
  | EmptyString, EmptyString => None
  | _, _ => Some (ip, fp, s2)
  end.

(** The longest prefix of [s] that is a [StrUnsignedDecimalLiteral]:
    [Infinity], or a mantissa and an optional [ExponentPart]. *)
Definition scan_unsigned (s : string) : option (scanned * string) :=
  match strip_prefix "Infinity" s with
  | Some r => Some (ScInfinity, r)
  | None =>
      match scan_mantissa s with
      | Some (ip, fp, s2) =>
          let m := digits_value 0 (String.append ip fp) in
          let f := Z.of_nat (String.length fp) in
          match scan_exponent s2 with
          | Some (e, r) => Some (ScDecimal m (e - f), r)
          | None => Some (ScDecimal m (- f), s2)
          end
      | None => None
      end
  end.

(** The longest prefix that is a [StrDecimalLiteral]: an optional sign and
    a [StrUnsignedDecimalLiteral]; its Number value ([StringNumericValue],
    the decimal value rounded to the nearest Number) and the rest. *)
Definition scan_literal (s : string) : option (Num.number * string) :=
  let '(neg, s1) := split_sign s in
  match scan_unsigned s1 with
  | Some (ScInfinity, r) => Some (Num.Infinity neg, r)
  | Some (ScDecimal m e, r) => Some (Num.of_decimal neg m e, r)
  | None => None
  end.

(** [parseFloat(string)] on a String: leading white space is dropped, the
    longest prefix that is a decimal literal gives the result, and [NaN]
    is returned when no prefix is one. *)
Definition parseFloat (s : string) : Num.number :=
  match scan_literal (TrimStart s) with
  | Some (x, _) => x
  | None => Num.NaN
  end.

(** The digits of a [NonDecimalIntegerLiteral] in the given radix. *)
Definition radix_digit (c : ascii) : option Z :=
  if is_digit c then Some (code c - 48)
  else if (97 <=? code c) && (code c <=? 102) then Some (code c - 87)
  else if (65 <=? code c) && (code c <=? 70) then Some (code c - 55)
  else None.

Fixpoint radix_value (radix : Z) (acc : Z) (s : string) : option Z :=
  match s with
  | String c s' =>
      match radix_digit c with
      | Some d =>
          if d <? radix then radix_value radix (radix * acc + d) s' else None
      | None => None
      end
  | EmptyString => Some acc
  end.

Definition scan_non_decimal (s : string) : option Z :=
  match s with
  | String c0 (String c1 (String c2 s2 as ds)) =>
      if code c0 =? 48 then
        if (code c1 =? 120) || (code c1 =? 88) then radix_value 16 0 ds
        else if (code c1 =? 111) || (code c1 =? 79) then radix_value 8 0 ds
        else if (code c1 =? 98) || (code c1 =? 66) then radix_value 2 0 ds
        else None
      else None
  | _ => None
  end.

(** [StringToNumber(s)]: the whole string, white space apart, is empty, a
    decimal literal or a binary, octal or hexadecimal integer literal. *)
Definition StringToNumber (s : string) : Num.number :=
  match TrimEnd (TrimStart s) with
  | EmptyString => Num.zero
  | t =>
      match scan_literal t with
      | Some (x, EmptyString) => x
      | _ =>
          match scan_non_decimal t with
          | Some n => Num.of_decimal false n 0
          | None => Num.NaN
          end
      end
  end.

End Str.

(** ** Objects *)

Module Obj.

(** The values the rows and their decorated copies hold. *)
Inductive value : Type :=
| VString (s : string)
| VNumber (x : Num.number).

(** An ordinary object: its own enumerable data properties, listed in the
    order of [OrdinaryOwnPropertyKeys] (array indices in ascending order,
    then the other keys in the order of their creation). *)
Definition obj : Type := list (string * value).

(** A property read [o[k]]; [None] stands for [undefined]. *)
Fixpoint get (o : obj) (k : string) : option value :=
  match o with
  | (k', v) :: o' => if String.eqb k' k then Some v else get o' k
  | [] => None
  end.

Definition has (o : obj) (k : string) : bool :=
  match get o k with Some _ => true | None => false end.

(** The value of a key that is an array index: a canonical numeric string
    below [2^32 - 1]. *)
Definition array_index (k : string) : option Z :=
  match k with
  | String c rest =>
      match Str.span_digits k with
      | (_, EmptyString) =>
          if (Str.code c =? 48) && negb (String.eqb rest EmptyString) then None
          else
            let n := Str.digits_value 0 k in
            if n <? 4294967295 then Some n else None
      | _ => None
      end
  | EmptyString => None
  end.

Fixpoint replace (o : obj) (k : string) (v : value) : obj :=
  match o with
  | (k', v') :: o' =>
      if String.eqb k' k then (k', v) :: o' else (k', v') :: replace o' k v
  | [] => []
  end.

Fixpoint insert_index (o : obj) (i : Z) (k : string) (v : value) : obj :=
  match o with
  | (k', v') :: o' =>
      match array_index k' with
      | Some j =>
          if j <? i then (k', v') :: insert_index o' i k v else (k, v) :: o
      | None => (k, v) :: o
      end
  | [] => [(k, v)]
  end.

(** [CreateDataProperty(o, k, v)]: an existing property keeps its place
    and takes the new value; a new one is created, an array index among
    the array indices and any other key last. *)
Definition define (o : obj) (k : string) (v : value) : obj :=
  if has o k then replace o k v
  else
    match array_index k with
    | Some i => insert_index o i k v
    | None => o ++ [(k, v)]
    end.

(** [CopyDataProperties(target, source, excluded)]. *)
Definition copy_props (target source : obj) (excluded : list string) : obj :=
  fold_left
    (fun t kv =>
       if existsb (String.eqb (fst kv)) excluded then t
       else define t (fst kv) (snd kv))
    source target.

(** A row of the sheet as the CSV parser builds it: an ordinary object
    whose properties are the header's fields, each holding a String. *)
Definition row : Type := list (string * string).

Definition to_obj (r : row) : obj :=
  map (fun kv => (fst kv, VString (snd kv))) r.

(** A property read [r[k]] on a row; [None] stands for [undefined]. *)
Fixpoint field (r : row) (k : string) : option string :=
  match r with
  | (k', s) :: r' => if String.eqb k' k then Some s else field r' k
  | [] => None
  end.

(** The keys of an object are pairwise distinct and come in the order of
    [OrdinaryOwnPropertyKeys]. *)
Definition key_before (k1 k2 : string) : bool :=
  match array_index k1, array_index k2 with
  | Some i, Some j => i <? j
  | Some _, None => true
  | None, Some _ => false
  | None, None => true
  end.

Fixpoint wf_keys (ks : list string) : bool :=
  match ks with
  | k :: ks' =>
      negb (existsb (String.eqb k) ks')
      && forallb (key_before k) ks'
      && wf_keys ks'
  | [] => true
  end.

Definition wf_row (r : row) : bool := wf_keys (map fst r).

Definition keys {V : Type} (o : list (string * V)) : list string :=
  map fst o.

(** The test of [CopyDataProperties] on a key. *)
Definition excluded_by (excluded : list string) (k : string) : bool :=
  existsb (String.eqb k) excluded.

(** [ToString(o[k])] for a property that holds a String when present. *)
Definition ToString (v : option string) : string :=
  match v with
  | Some s => s
  | None => "undefined"
  end.

(** [ToNumber(v)]. *)
Definition ToNumber (v : option value) : Num.number :=
  match v with
  | Some (VNumber x) => x
  | Some (VString s) => Str.StringToNumber s
  | None => Num.NaN
  end.

(** [x !== y] ([IsStrictlyEqual], negated). *)
Definition strict_neq (x y : option value) : bool :=
  match x, y with
  | Some (VNumber a), Some (VNumber b) => Num.neqb a b
  | Some (VString a), Some (VString b) => negb (String.eqb a b)
  | None, None => false
  | _, _ => true
  end.

(** [x - y]. *)
Definition minus (x y : option value) : Num.number :=
  Num.sub (ToNumber x) (ToNumber y).

End Obj.

(** ** Arrays *)

Module Arr.

Section Sort.

Context {A : Type}.
Variable comparefn : A -> A -> Num.number.

(** [SortCompare(x, y)] for defined elements: the comparator's result,
    with [NaN] read as [+0]. *)
Definition SortCompare (x y : A) : Num.number :=
  let v := comparefn x y in
  if Num.isNaN v then Num.zero else v.

(** [Array.prototype.sort(comparefn)].  The order of the calls to
    [SortCompare] is left to the engine, the result is not: the sort is
    stable, so for a comparator that is a consistent ordering the result
    is the one list that is sorted and keeps elements that compare equal
    in their original order ([SortFacts.sort_unique] below).  It is
    computed here by inserting each element, from the last to the first,
    before the first element that does not have to come before it. *)
Fixpoint insert (x : A) (l : list A) : list A :=
  match l with
  | y :: l' =>
      if Num.ltb Num.zero (SortCompare x y) then y :: insert x l'
      else x :: l
  | [] => [x]
  end.

Definition sort (l : list A) : list A := fold_right insert [] l.

End Sort.

(** [l.slice(start, end)] for nonnegative integers. *)
Definition slice {A : Type} (l : list A) (start stop : nat) : list A :=
  firstn (stop - start) (skipn start l).

End Arr.

(** ** The server *)

Module Server.

Import Obj.

Definition MAGIC_KEY : string := "魔法攻擊".
Definition PHYSICAL_KEY : string := "物理攻擊".
Definition VALUE_KEY : string := "價值".

(** [req.query.type]: absent, a String, or an array or object built by the
    query parser. *)
Inductive query : Type :=
| QUndefined
| QString (s : string)
| QNested.

(** [type === s] for a String [s]. *)
Definition type_is (type : query) (s : string) : bool :=
  match type with
  | QString t => String.eqb t s
  | _ => false
  end.

(** [l.includes(type)] for an array of Strings. *)
Definition includes (l : list string) (type : query) : bool :=
  existsb (type_is type) l.

Definition valid_type (type : query) : bool :=
  includes ["magic"; "physical"; "value"] type.

(** The choice of [primaryKey] and [secondaryKey]. *)
Definition sort_fields (type : query) : string * string :=
  if type_is type "magic" then (MAGIC_KEY, VALUE_KEY)
  else if type_is type "physical" then (PHYSICAL_KEY, VALUE_KEY)
  else (VALUE_KEY, MAGIC_KEY).

(** The callback of [rows.map]: the two fields are parsed, [NaN] is
    replaced by [0], and the row is copied with the two annotations. *)
Definition decorate (primaryKey secondaryKey : string) (r : row) : obj :=
  let primaryRaw := Str.parseFloat (ToString (field r primaryKey)) in
  let secondaryRaw := Str.parseFloat (ToString (field r secondaryKey)) in
  let primaryVal := if Num.isNaN primaryRaw then Num.zero else primaryRaw in
  let secondaryVal :=
    if Num.isNaN secondaryRaw then Num.zero else secondaryRaw in
  define
    (define (copy_props [] (to_obj r) []) "__primary" (VNumber primaryVal))
    "__secondary" (VNumber secondaryVal).

(** The sort value of a row for a key: what [primaryVal] is for
    [primaryKey], and [secondaryVal] for [secondaryKey]. *)
Definition sort_val (key : string) (r : row) : Num.number :=
  let raw := Str.parseFloat (ToString (field r key)) in
  if Num.isNaN raw then Num.zero else raw.

(** The comparator of [mapped.sort]. *)
Definition comparator (a b : obj) : Num.number :=
  if strict_neq (get b "__primary") (get a "__primary")
  then minus (get b "__primary") (get a "__primary")
  else minus (get b "__secondary") (get a "__secondary").

(** The callback [({ __primary, __secondary, ...rest }) => rest]. *)
Definition strip (o : obj) : obj :=
  copy_props [] o ["__primary"; "__secondary"].

(** [top5], from the rows that were fetched. *)
Definition top5 (primaryKey secondaryKey : string) (rows : list row)
  : list obj :=
  let mapped := map (decorate primaryKey secondaryKey) rows in
  let sorted := Arr.sort comparator mapped in
  map strip (Arr.slice sorted 0 5).

(** The ranking of the rows for a type. *)
Definition rank (type : query) (rows : list row) : list obj :=
  let '(primaryKey, secondaryKey) := sort_fields type in
  top5 primaryKey secondaryKey rows.

(** The names of the two annotations, and a row without the fields of
    these names. *)
Definition reserved : list string := ["__primary"; "__secondary"].

Definition without_annotations (r : row) : row :=
  filter (fun kv => negb (excluded_by reserved (fst kv))) r.

(** What [await fetchSheetRows()] gives: the rows, or an error thrown. *)
Inductive fetched : Type :=
| Rows (rows : list row)
| Thrown (message : string).

(** The JSON bodies of the responses. *)
Inductive body : Type :=
| BadRequest (message : string)
| Top (rows : list obj) (type : query)
      (sortFieldPrimary sortFieldSecondary : string)
| Failure (message error : string).

Record response : Type := { status : Z; json : body }.

(** A handler returns its response, or first awaits the rows of the
    sheet. *)
Inductive handler : Type :=
| Respond (r : response)
| FetchSheetRows (k : fetched -> handler).

(** [app.get('/api/top-characters', ...)]. *)
Definition top_characters (type : query) : handler :=
  if negb (includes ["magic"; "physical"; "value"] type) then
    Respond
      {| status := 400;
         json := BadRequest
           "查詢參數錯誤：type 必須是 'magic'、'physical' 或 'value'" |}
  else
    let '(primaryKey, secondaryKey) := sort_fields type in
    FetchSheetRows (fun result =>
      match result with
      | Rows rows =>
          Respond
            {| status := 200;
               json := Top (top5 primaryKey secondaryKey rows) type
                           primaryKey secondaryKey |}
      | Thrown message =>
          Respond {| status := 500; json := Failure "伺服器錯誤" message |}
      end).

(** The response of a handler when the fetch has the given outcome, and
    the number of fetches it performed. *)
Fixpoint run (h : handler) (world : fetched) : response * nat :=
  match h with
  | Respond r => (r, O)
  | FetchSheetRows k => let '(r, n) := run (k world) world in (r, S n)
  end.

End Server.

(** ** The grammar of the decimal literals

    The productions of [StrDecimalLiteral], for the statements on
    [parseFloat]. *)

Module Grammar.

Local Open Scope string_scope.

Inductive DecimalDigits : string -> Prop :=
| DD_digit (c : ascii) :
    Str.is_digit c = true -> DecimalDigits (String c "")
| DD_digits (c : ascii) (s : string) :
    Str.is_digit c = true -> DecimalDigits s -> DecimalDigits (String c s).

Inductive SignedInteger : string -> Prop :=
| SI_digits (ds : string) : DecimalDigits ds -> SignedInteger ds
| SI_plus (ds : string) : DecimalDigits ds -> SignedInteger ("+" ++ ds)
| SI_minus (ds : string) : DecimalDigits ds -> SignedInteger ("-" ++ ds).

Inductive ExponentPart : string -> Prop :=
| EP_e (s : string) : SignedInteger s -> ExponentPart ("e" ++ s)
| EP_E (s : string) : SignedInteger s -> ExponentPart ("E" ++ s).

(** An optional part. *)
Definition opt (G : string -> Prop) (s : string) : Prop := s = "" \/ G s.

Inductive StrUnsignedDecimalLiteral : string -> Prop :=
| SUDL_Infinity : StrUnsignedDecimalLiteral "Infinity"
| SUDL_int_dot (i f e : string) :
    DecimalDigits i -> opt DecimalDigits f -> opt ExponentPart e ->
    StrUnsignedDecimalLiteral (i ++ "." ++ f ++ e)
| SUDL_dot (f e : string) :
    DecimalDigits f -> opt ExponentPart e ->
    StrUnsignedDecimalLiteral ("." ++ f ++ e)
| SUDL_int (i e : string) :
    DecimalDigits i -> opt ExponentPart e ->
    StrUnsignedDecimalLiteral (i ++ e).

(** The three forms of the mantissa, with the digits before and after
    the dot. *)
Inductive Mantissa : string -> string -> string -> Prop :=
| M_int_dot (i f : string) :
    DecimalDigits i -> opt DecimalDigits f -> Mantissa (i ++ "." ++ f) i f
| M_dot (f : string) : DecimalDigits f -> Mantissa ("." ++ f) "" f
| M_int (i : string) : DecimalDigits i -> Mantissa i i "".

(** [y] does not continue a mantissa: it does not start with a digit or
    a dot. *)
Definition ends_mantissa (y : string) : bool :=
  match y with
  | String c _ => negb (Str.is_digit c || (Str.code c =? 46)%Z)
  | EmptyString => true
  end.

(** [y] does not continue a literal: it does not start with a digit, a
    dot or an exponent indicator. *)
Definition ends_literal (y : string) : bool :=
  match y with
  | String c _ =>
      negb (Str.is_digit c || (Str.code c =? 46)%Z
            || (Str.code c =? 101)%Z || (Str.code c =? 69)%Z)
  | EmptyString => true
  end.

Inductive StrDecimalLiteral : string -> Prop :=
| SDL_unsigned (s : string) :
    StrUnsignedDecimalLiteral s -> StrDecimalLiteral s
| SDL_plus (s : string) :
    StrUnsignedDecimalLiteral s -> StrDecimalLiteral ("+" ++ s)
| SDL_minus (s : string) :
    StrUnsignedDecimalLiteral s -> StrDecimalLiteral ("-" ++ s).

(** White space and line terminators, any number of them. *)
Inductive StrWhiteSpace : string -> Prop :=
| WS_none : StrWhiteSpace ""
| WS_1 (c : ascii) (s : string) :
    Str.is_ws1 c = true -> StrWhiteSpace s -> StrWhiteSpace (String c s)
| WS_2 (c1 c2 : ascii) (s : string) :
    Str.is_ws2 c1 c2 = true -> StrWhiteSpace s ->
    StrWhiteSpace (String c1 (String c2 s))
| WS_3 (c1 c2 c3 : ascii) (s : string) :
    Str.is_ws3 c1 c2 c3 = true -> StrWhiteSpace s ->
    StrWhiteSpace (String c1 (String c2 (String c3 s))).

(** The value of a literal ([StringNumericValue]): the sign, and the
    decimal [m * 10^e] its digits and its exponent denote ([None] for
    [Infinity]); the Number is the decimal rounded once. *)
Inductive SignedIntegerValue : string -> Z -> Prop :=
| SIV_digits (ds : string) :
    DecimalDigits ds -> SignedIntegerValue ds (Str.digits_value 0 ds)
| SIV_plus (ds : string) :
    DecimalDigits ds ->
    SignedIntegerValue ("+" ++ ds) (Str.digits_value 0 ds)
| SIV_minus (ds : string) :
    DecimalDigits ds ->
    SignedIntegerValue ("-" ++ ds) (- Str.digits_value 0 ds).

Inductive ExponentValue : string -> Z -> Prop :=
| EV_none : ExponentValue "" 0
| EV_e (s : string) (n : Z) :
    SignedIntegerValue s n -> ExponentValue ("e" ++ s) n
| EV_E (s : string) (n : Z) :
    SignedIntegerValue s n -> ExponentValue ("E" ++ s) n.

Inductive UnsignedValue : string -> option (Z * Z) -> Prop :=
| UV_Infinity : UnsignedValue "Infinity" None
| UV_decimal (pm i f pe : string) (n : Z) :
    Mantissa pm i f -> ExponentValue pe n ->
    UnsignedValue (pm ++ pe)
      (Some (Str.digits_value 0 (i ++ f), n - Z.of_nat (String.length f))).

Inductive LiteralValue : string -> bool -> option (Z * Z) -> Prop :=
| LV_unsigned (s : string) (v : option (Z * Z)) :
    UnsignedValue s v -> LiteralValue s false v
| LV_plus (s : string) (v : option (Z * Z)) :
    UnsignedValue s v -> LiteralValue ("+" ++ s) false v
| LV_minus (s : string) (v : option (Z * Z)) :
    UnsignedValue s v -> LiteralValue ("-" ++ s) true v.

Definition StringNumericValue (neg : bool) (v : option (Z * Z))
  : Num.number :=
  match v with
  | Some (m, e) => Num.of_decimal neg m e
  | None => Num.Infinity neg
  end.

(** A String that [parseFloat] does not read: [undefined] (a missing
    field), the empty String, or a String of which no prefix, after the
    leading white space, is a decimal literal. *)
Definition unparsable (v : option string) : Prop :=
  v = None
  \/ v = Some ""
  \/ exists s, v = Some s
               /\ forall p q, Str.TrimStart s = p ++ q ->
                              ~ StrDecimalLiteral p.

End Grammar.

(** ** The order of the Numbers and of the sort

    Definitions for the statements and the proofs: every Number but [NaN]
    is given an integer, its value scaled by [2^1074], with the infinities
    beyond every finite value, so that the comparisons of Numbers become
    comparisons of integers. *)

Module Ordering.

Import Num Obj Server.

(** A mantissa and an exponent in canonical form, the zero mantissa
    included. *)
Definition good (m e : Z) : Prop :=
  0 <= m < 2 ^ 53 /\ -1074 <= e /\ (2 ^ 52 <= m \/ e = -1074).

Definition huge : Z := 2 ^ 2100.

Definition scaled (m : positive) (e : Z) : Z := Zpos m * 2 ^ (e + 1074).

Definition ord_key (x : number) : Z :=
  match x with
  | S754_zero _ => 0
  | S754_nan => 0
  | S754_infinity s => cond_Zopp s huge
  | S754_finite s m e => cond_Zopp s (scaled m e)
  end.

(** The sign of a Number, with [NaN] and the zeros in the middle: what a
    sort reads from the result of its comparator. *)
Definition sign_of (x : number) : comparison :=
  match x with
  | S754_nan | S754_zero _ => Eq
  | S754_infinity s | S754_finite s _ _ => if s then Lt else Gt
  end.

(** Pairs of integers in lexicographic order. *)
Definition lex_compare (k1 k2 : Z * Z) : comparison :=
  match fst k1 ?= fst k2 with
  | Eq => snd k1 ?= snd k2
  | c => c
  end.

Definition lex_gt (k1 k2 : Z * Z) : Prop :=
  fst k1 > fst k2 \/ (fst k1 = fst k2 /\ snd k1 > snd k2).

(** Elements with their position in the array that is sorted: [x] is
    before [y] when its pair is greater, or the same with [x] at the
    smaller position. *)
Definition precedes {A : Type} (key : A -> Z * Z) (x y : nat * A) : Prop :=
  lex_gt (key (snd x)) (key (snd y))
  \/ (key (snd x) = key (snd y) /\ (fst x < fst y)%nat).

Definition tagged_cmp {A : Type} (comparefn : A -> A -> number)
  (x y : nat * A) : number :=
  comparefn (snd x) (snd y).

(** The array with the positions of its elements, from [n] on. *)
Definition tag_from {A : Type} (n : nat) (l : list A) : list (nat * A) :=
  combine (seq n (List.length l)) l.

(** The pair of integers of an object with the two annotations, and of a
    row. *)
Definition obj_key (o : obj) : Z * Z :=
  (ord_key (ToNumber (get o "__primary")),
   ord_key (ToNumber (get o "__secondary"))).

Definition row_key (primaryKey secondaryKey : string) (r : row) : Z * Z :=
  (ord_key (sort_val primaryKey r), ord_key (sort_val secondaryKey r)).

(** An object that holds its two annotations, Numbers that are not
    [NaN]. *)
Definition annotated (o : obj) : Prop :=
  (exists p, get o "__primary" = Some (VNumber p)
             /\ valid p = true /\ isNaN p = false)
  /\ (exists s, get o "__secondary" = Some (VNumber s)
                /\ valid s = true /\ isNaN s = false).

(** Rows by their position: the row at [i] is ranked before the row at
    [j]. *)
Definition ranked_before (pk sk : string) (rows : list row) (i j : nat)
  : Prop :=
  lex_gt (row_key pk sk (nth i rows [])) (row_key pk sk (nth j rows []))
  \/ (row_key pk sk (nth i rows []) = row_key pk sk (nth j rows [])
      /\ (i < j)%nat).

(** The decimal [m * 10^e] and the binary [mf * 2^ef] are the same
    value, for exponents of any sign. *)
Definition same_value (m e mf ef : Z) : Prop :=
  m * 10 ^ Z.max e 0 * 2 ^ Z.max (- ef) 0
  = mf * 2 ^ Z.max ef 0 * 10 ^ Z.max (- e) 0.

End Ordering.

(** ** The order of the ranking

    The order of the rows of an array that the ranking follows, on the
    sort values themselves: the row at [i] goes before the row at [j]
    when its primary sort value is greater, or the primary sort values
    are equal and its secondary sort value is greater, or both are equal
    and [i] is the smaller position. *)

Module RankOrder.

Import Num Obj Server.

Definition goes_before (primaryKey secondaryKey : string)
  (rows : list row) (i j : nat) : Prop :=
  let a := nth i rows [] in
  let b := nth j rows [] in
  ltb (sort_val primaryKey b) (sort_val primaryKey a) = true
  \/ (eqb (sort_val primaryKey a) (sort_val primaryKey b) = true
      /\ (ltb (sort_val secondaryKey b) (sort_val secondaryKey a) = true
          \/ (eqb (sort_val secondaryKey a) (sort_val secondaryKey b) = true
              /\ (i < j)%nat))).

(** Two rows tie: their primary sort values are equal and so are their
    secondary sort values. *)
Definition tie (primaryKey secondaryKey : string) (a b : row) : bool :=
  eqb (sort_val primaryKey a) (sort_val primaryKey b)
  && eqb (sort_val secondaryKey a) (sort_val secondaryKey b).

End RankOrder.

(** ** The sheet

    [fetchSheetRows] and the handler [GET /api/sheet-data].  The network
    and the CSV parser are outside the program: the outcome of
    [fetch(CSV_URL)] and of [response.text()] is given, and [Papa.parse]
    is a parameter. *)

Module Sheet.

Import Obj Server.

(** An error of the parser: its [message], when it has one, and what
    [JSON.stringify] gives for it. *)
Record parse_error : Type :=
  { error_message : option string; error_json : string }.

(** The result of [Papa.parse]: [data] and [errors]. *)
Record parse_result : Type :=
  { data : list row; errors : list parse_error }.

(** [await response.text()]: the text, or a rejection. *)
Inductive text_outcome : Type :=
| Text (csvText : string)
| TextRejected (message : string).

(** [await fetch(CSV_URL)]: a rejection, or a response with its [ok],
    its [status] and its text. *)
Inductive fetch_outcome : Type :=
| FetchRejected (message : string)
| Response (ok : bool) (status : N) (text : text_outcome).

(** [`${response.status}`] for an integer status. *)
Definition status_string (status : N) : string :=
  DecimalString.NilZero.string_of_uint (N.to_uint status).

(** [firstErr.message || JSON.stringify(firstErr)]. *)
Definition error_text (firstErr : parse_error) : string :=
  match error_message firstErr with
  | Some (String c m) => String c m
  | _ => error_json firstErr
  end.

(** [fetchSheetRows()]: what it returns or throws. *)
Definition fetchSheetRows (Papa_parse : string -> parse_result)
  (response : fetch_outcome) : fetched :=
  match response with
  | FetchRejected message => Thrown message
  | Response ok status text =>
      if negb ok then
        Thrown (String.append "下載 CSV 失敗：HTTP " (status_string status))
      else
        match text with
        | TextRejected message => Thrown message
        | Text csvText =>
            let parsed := Papa_parse csvText in
            match errors parsed with
            | firstErr :: _ =>
                Thrown (String.append "CSV 解析錯誤：" (error_text firstErr))
            | [] => Rows (data parsed)
            end
        end
  end.

(** The JSON bodies of the responses of [GET /api/sheet-data]. *)
Inductive sheet_body : Type :=
| SheetRows (rows : list row)
| SheetFailure (message error : string).

Record sheet_response : Type :=
  { sheet_status : Z; sheet_json : sheet_body }.

Inductive sheet_handler : Type :=
| SheetRespond (r : sheet_response)
| SheetFetchSheetRows (k : fetched -> sheet_handler).

(** [app.get('/api/sheet-data', ...)]. *)
Definition sheet_data : sheet_handler :=
  SheetFetchSheetRows (fun result =>
    match result with
    | Rows rows =>
        SheetRespond {| sheet_status := 200; sheet_json := SheetRows rows |}
    | Thrown message =>
        SheetRespond
          {| sheet_status := 500;
             sheet_json := SheetFailure "伺服器錯誤" message |}
    end).

Fixpoint run_sheet (h : sheet_handler) (world : fetched)
  : sheet_response * nat :=
  match h with
  | SheetRespond r => (r, O)
  | SheetFetchSheetRows k =>
      let '(r, n) := run_sheet (k world) world in (r, S n)
  end.

End Sheet.

(** ** Facts on Numbers *)

Module NumFacts.

Import Num Ordering.

Lemma digits2_size (p : positive) : digits2_pos p = Pos.size p.
Proof. induction p; simpl; congruence. Qed.

Lemma digits_bounds (p : positive) :
  2 ^ (Zpos (digits2_pos p) - 1) <= Zpos p < 2 ^ Zpos (digits2_pos p).
Proof.
  rewrite digits2_size. split.
  - pose proof (Pos.size_le p) as H.
    assert (H' : 2 ^ Zpos (Pos.size p) <= 2 * Zpos p).
    { change 2 with (Zpos 2) at 1. rewrite <- Pos2Z.inj_pow.
      change (2 * Zpos p) with (Zpos p~0). apply Pos2Z.pos_le_pos; exact H. }
    replace (Zpos (Pos.size p)) with (Z.succ (Zpos (Pos.size p) - 1)) in H'
      by lia.
    rewrite Z.pow_succ_r in H' by lia. lia.
  - pose proof (Pos.size_gt p) as H.
    change 2 with (Zpos 2). rewrite <- Pos2Z.inj_pow.
    apply Pos2Z.pos_lt_pos; exact H.
Qed.

Lemma Zdigits2_nonneg (m : Z) : 0 <= Zdigits2 m.
Proof. destruct m; simpl; lia. Qed.

Lemma Zdigits2_bounds (m : Z) :
  0 < m -> 2 ^ (Zdigits2 m - 1) <= m < 2 ^ Zdigits2 m.
Proof. destruct m; try lia. intros _. apply digits_bounds. Qed.

Lemma pow2_pos (k : Z) : 0 <= k -> 0 < 2 ^ k.
Proof. intros. apply Z.pow_pos_nonneg; lia. Qed.

Lemma pow2_split (a b : Z) : 0 <= a -> 0 <= b -> 2 ^ (a + b) = 2 ^ a * 2 ^ b.
Proof. intros. apply Z.pow_add_r; assumption. Qed.

(** The mantissa after [n] right shifts. *)
Lemma shr_1_m (r : shr_record) :
  0 <= shr_m r -> shr_m (shr_1 r) = shr_m r / 2 /\ 0 <= shr_m (shr_1 r).
Proof.
  destruct r as [m b c]. cbn [shr_m]. intros H.
  assert (E : shr_m (shr_1 (Build_shr_record m b c)) = Z.div2 m).
  { destruct m as [|[p|p|]|p]; simpl; try reflexivity; lia. }
  rewrite E, Z.div2_div. split; [reflexivity|].
  apply Z.div_pos; lia.
Qed.

Lemma iter_shr_m (p : positive) : forall r,
  0 <= shr_m r ->
  shr_m (iter_pos shr_1 p r) = shr_m r / 2 ^ Zpos p
  /\ 0 <= shr_m (iter_pos shr_1 p r).
Proof.
  induction p as [p IH|p IH|]; intros r Hr; simpl iter_pos.
  - destruct (shr_1_m r Hr) as [E1 P1].
    destruct (IH _ P1) as [E2 P2]. destruct (IH _ P2) as [E3 P3].
    split; [|exact P3]. rewrite E3, E2, E1.
    replace (Zpos p~1) with (1 + Zpos p + Zpos p) by lia.
    rewrite !pow2_split by lia. change (2 ^ 1) with 2.
    rewrite !Z.div_div by (try apply pow2_pos; lia).
    f_equal; ring.
  - destruct (IH _ Hr) as [E2 P2]. destruct (IH _ P2) as [E3 P3].
    split; [|exact P3]. rewrite E3, E2.
    replace (Zpos p~0) with (Zpos p + Zpos p) by lia.
    rewrite !pow2_split by lia.
    rewrite !Z.div_div by (try apply pow2_pos; lia). reflexivity.
  - destruct (shr_1_m r Hr) as [E1 P1]. split; [|exact P1].
    rewrite E1. reflexivity.
Qed.

Lemma shr_spec (r : shr_record) (e n : Z) :
  0 <= shr_m r -> 0 <= n ->
  shr_m (fst (shr r e n)) = shr_m r / 2 ^ n /\ snd (shr r e n) = e + n.
Proof.
  intros Hr Hn. destruct n as [|p|p]; simpl; try lia.
  - rewrite Z.div_1_r. lia.
  - destruct (iter_shr_m p r Hr) as [E _]. split; [exact E|reflexivity].
Qed.

Lemma shr_neg (r : shr_record) (e n : Z) : n <= 0 -> shr r e n = (r, e).
Proof. destruct n; simpl; try reflexivity. lia. Qed.

Lemma shr_record_of_loc_m (m : Z) (l : location) :
  shr_m (shr_record_of_loc m l) = m.
Proof. destruct l as [|[]]; reflexivity. Qed.

Lemma round_nearest_even_cases (m : Z) (l : location) :
  round_nearest_even m l = m \/ round_nearest_even m l = m + 1.
Proof.
  destruct l as [|[]]; simpl; auto. destruct (Z.even m); auto.
Qed.

Lemma fexp_eq (k : Z) : fexp prec emax k = Z.max (k - 53) (-1074).
Proof. reflexivity. Qed.

Lemma pow2_lt_inv (a b : Z) : 0 <= b -> 2 ^ a < 2 ^ b -> a < b.
Proof. intros Hb H. apply (Z.pow_lt_mono_r_iff 2); lia. Qed.

Lemma pow2_le (a b : Z) : 0 <= a <= b -> 2 ^ a <= 2 ^ b.
Proof. intros H. apply Z.pow_le_mono_r; lia. Qed.

Lemma shr_fexp_good (m e : Z) (l : location) :
  0 <= m -> e <= fexp prec emax (Zdigits2 m + e) ->
  good (shr_m (fst (shr_fexp prec emax m e l)))
       (snd (shr_fexp prec emax m e l)).
Proof.
  intros Hm He. unfold shr_fexp.
  set (n := fexp prec emax (Zdigits2 m + e) - e).
  assert (Hn : 0 <= n) by (unfold n; lia).
  destruct (shr_spec (shr_record_of_loc m l) e n) as [Em Ee];
    [rewrite shr_record_of_loc_m; exact Hm|exact Hn|].
  rewrite Em, Ee, shr_record_of_loc_m. clear Em Ee.
  assert (P : 0 < 2 ^ n) by (apply pow2_pos; exact Hn).
  unfold n in *. rewrite fexp_eq in *. clear n.
  set (d := Zdigits2 m) in *.
  destruct (Z.eq_dec m 0) as [->|Hm0].
  - rewrite Z.div_0_l by lia. subst d. simpl Zdigits2 in *.
    unfold good. lia.
  - pose proof (Zdigits2_bounds m ltac:(lia)) as [Hlo Hhi]. fold d in Hlo, Hhi.
    assert (Hd : 1 <= d).
    { destruct (Z_lt_le_dec d 1) as [Hlt|]; [|assumption].
      destruct m; simpl in d; lia. }
    unfold good. split; [split|split].
    + apply Z.div_pos; lia.
    + apply Z.div_lt_upper_bound; [exact P|].
      rewrite <- pow2_split by lia.
      apply Z.lt_le_trans with (1 := Hhi). apply pow2_le. lia.
    + lia.
    + destruct (Z_le_gt_dec (d + e - 53) (-1074)) as [Hc|Hc]; [right; lia|].
      left. apply Z.div_le_lower_bound; [exact P|].
      rewrite <- pow2_split by lia.
      apply Z.le_trans with (2 := Hlo). apply pow2_le. lia.
Qed.

Lemma shr_fexp_regood (m m' e : Z) :
  good m e -> m' = m \/ m' = m + 1 ->
  good (shr_m (fst (shr_fexp prec emax m' e loc_Exact)))
       (snd (shr_fexp prec emax m' e loc_Exact)).
Proof.
  intros [[Hm0 Hm] [He Hc]] Hm'. unfold shr_fexp. rewrite fexp_eq.
  change (shr_record_of_loc m' loc_Exact)
    with (Build_shr_record m' false false).
  destruct (Z.eq_dec m' 0) as [->|Hz].
  - rewrite shr_neg by (simpl Zdigits2; lia). simpl. unfold good. lia.
  - pose proof (Zdigits2_bounds m' ltac:(lia)) as [Hlo Hhi].
    set (d := Zdigits2 m') in *.
    assert (Hd : 1 <= d).
    { destruct (Z_lt_le_dec d 1) as [Hlt|]; [|assumption].
      destruct m'; simpl in d; lia. }
    destruct (Z_lt_le_dec m' (2 ^ 53)) as [Hs|Hs].
    + assert (d - 1 < 53).
      { apply pow2_lt_inv; [lia|]. lia. }
      rewrite shr_neg by lia. simpl. unfold good. lia.
    + assert (E : m' = 2 ^ 53) by lia.
      assert (d = 54).
      { assert (53 < d) by (apply pow2_lt_inv; lia).
        assert (d - 1 < 54) by (apply pow2_lt_inv; [lia|];
          apply Z.le_lt_trans with (1 := Hlo); rewrite E; reflexivity).
        lia. }
      replace (Z.max (d + e - 53) (-1074) - e) with 1 by lia.
      rewrite E. simpl. unfold good. lia.
Qed.

Lemma good_valid (s : bool) (p : positive) (e : Z) :
  good (Zpos p) e -> e <= 971 -> valid (S754_finite s p e) = true.
Proof.
  intros [[_ Hm] [He Hc]] Hmax. unfold valid, valid_binary, bounded.
  apply andb_true_intro. split; [|apply Z.leb_le; exact Hmax].
  unfold canonical_mantissa. apply Z.eqb_eq. rewrite fexp_eq.
  pose proof (digits_bounds p) as [Hlo Hhi].
  set (d := Zpos (digits2_pos p)) in *.
  assert (d - 1 < 53) by (apply pow2_lt_inv; lia).
  destruct Hc as [Hc|Hc]; [|lia].
  assert (52 < d) by (apply pow2_lt_inv; lia). lia.
Qed.

Lemma binary_round_aux_valid (s : bool) (m e : Z) (l : location) :
  0 <= m -> e <= fexp prec emax (Zdigits2 m + e) ->
  valid (binary_round_aux prec emax s m e l) = true
  /\ isNaN (binary_round_aux prec emax s m e l) = false.
Proof.
  intros Hm He. unfold binary_round_aux.
  pose proof (shr_fexp_good m e l Hm He) as G1.
  destruct (shr_fexp prec emax m e l) as [r1 e1].
  simpl fst in G1; simpl snd in G1.
  pose proof (shr_fexp_regood _ _ _ G1
    (round_nearest_even_cases (shr_m r1) (loc_of_shr_record r1))) as G2.
  destruct (shr_fexp prec emax _ e1 loc_Exact) as [r2 e2].
  simpl fst in G2; simpl snd in G2.
  destruct (shr_m r2) as [|p|p].
  - split; reflexivity.
  - destruct (Z.leb_spec e2 (emax - prec)); [|split; reflexivity].
    split; [|reflexivity].
    apply good_valid; [exact G2|]. unfold emax, prec in *; lia.
  - destruct G2 as [[G2 _] _]. lia.
Qed.

Lemma Zdigits2_unique (m d : Z) :
  0 < m -> 2 ^ (d - 1) <= m < 2 ^ d -> Zdigits2 m = d.
Proof.
  intros Hm [Hlo Hhi].
  pose proof (Zdigits2_bounds m Hm) as [Hlo' Hhi'].
  pose proof (Zdigits2_nonneg m) as Hd'.
  assert (Hd : 0 <= d).
  { destruct (Z_lt_le_dec d 0) as [Hn|]; [|assumption].
    rewrite Z.pow_neg_r in Hhi by exact Hn. lia. }
  assert (Zdigits2 m - 1 < d) by (apply pow2_lt_inv; lia).
  assert (d - 1 < Zdigits2 m) by (apply pow2_lt_inv; lia).
  lia.
Qed.

Lemma shl_align_spec (m : positive) (e e' : Z) :
  Zpos (fst (shl_align m e e')) = Zpos m * 2 ^ (e - snd (shl_align m e e'))
  /\ snd (shl_align m e e') = Z.min e e'.
Proof.
  unfold shl_align. destruct (e' - e) as [|d|d] eqn:E; simpl fst; simpl snd.
  - rewrite Z.sub_diag. simpl. lia.
  - rewrite Z.sub_diag. simpl. lia.
  - replace (e - e') with (Zpos d) by lia.
    change (Pos.iter xO m d) with (shift_pos d m).
    rewrite shift_pos_correct. change (Z.pow_pos 2 d) with (2 ^ Zpos d). lia.
Qed.

Lemma binary_round_valid (s : bool) (m : positive) (e : Z) :
  valid (binary_round prec emax s m e) = true
  /\ isNaN (binary_round prec emax s m e) = false.
Proof.
  unfold binary_round.
  pose proof (shl_align_spec m e (fexp prec emax (Zpos (digits2_pos m) + e)))
    as [Hm He].
  destruct (shl_align m e _) as [mz ez]. simpl fst in *; simpl snd in *.
  apply binary_round_aux_valid; [lia|].
  rewrite fexp_eq in *.
  pose proof (digits_bounds m) as [Hlo Hhi].
  set (d := Zpos (digits2_pos m)) in *.
  assert (Hk : 0 <= e - ez) by lia.
  assert (Zdigits2 (Zpos mz) = d + (e - ez)).
  { apply Zdigits2_unique; [lia|]. rewrite Hm.
    assert (1 <= d) by (unfold d; lia).
    replace (d + (e - ez) - 1) with (d - 1 + (e - ez)) by lia.
    rewrite !pow2_split by lia.
    pose proof (pow2_pos (e - ez) Hk). nia. }
  lia.
Qed.

Lemma div_core_pre (m1 m2 e1 e2 : Z) :
  0 < m1 -> 0 < m2 ->
  let '(q, e', _) := SFdiv_core_binary prec emax m1 e1 m2 e2 in
  0 <= q /\ e' <= fexp prec emax (Zdigits2 q + e').
Proof.
  intros H1 H2. unfold SFdiv_core_binary. rewrite fexp_eq.
  set (d1 := Zdigits2 m1). set (d2 := Zdigits2 m2).
  set (e' := Z.min (Z.max (d1 + e1 - (d2 + e2) - 53) (-1074)) (e1 - e2)).
  set (s := e1 - e2 - e').
  assert (Hs : 0 <= s) by (unfold s, e'; lia).
  set (m' := match s with Zpos _ => Z.shiftl m1 s | Z0 => m1 | Zneg _ => 0 end).
  assert (Em : m' = m1 * 2 ^ s).
  { unfold m'. destruct s; [simpl; lia| |lia].
    rewrite Z.shiftl_mul_pow2 by lia. reflexivity. }
  pose proof (Z_div_mod m' m2 ltac:(lia)) as D.
  destruct (Z.div_eucl m' m2) as [q r] eqn:Eq.
  assert (Eq' : q = m' / m2) by (unfold Z.div; rewrite Eq; reflexivity).
  assert (Hq : 0 <= q).
  { rewrite Eq'. apply Z.div_pos; [|lia]. rewrite Em.
    pose proof (pow2_pos s Hs). nia. }
  split; [exact Hq|]. rewrite fexp_eq.
  destruct (Z_le_gt_dec e' (-1074)) as [Hc|Hc]; [lia|].
  assert (Hb : 2 ^ 52 <= q).
  { rewrite Eq'. apply Z.div_le_lower_bound; [lia|]. rewrite Em.
    pose proof (Zdigits2_bounds m1 H1) as [Hlo1 _].
    pose proof (Zdigits2_bounds m2 H2) as [_ Hhi2].
    fold d1 in Hlo1. fold d2 in Hhi2.
    assert (0 <= d2) by apply Zdigits2_nonneg.
    assert (1 <= d1).
    { destruct m1; simpl in d1; unfold d1; lia. }
    assert (Hle : 2 ^ (d2 + 52) <= 2 ^ (d1 - 1 + s)).
    { apply pow2_le. unfold s, e' in *. lia. }
    rewrite !pow2_split in Hle by lia.
    pose proof (pow2_pos s Hs). pose proof (pow2_pos d2 ltac:(lia)).
    nia. }
  assert (52 < Zdigits2 q).
  { pose proof (Zdigits2_bounds q ltac:(lia)) as [_ Hhi].
    apply pow2_lt_inv; [apply Zdigits2_nonneg|]. lia. }
  lia.
Qed.

Lemma of_decimal_valid (s : bool) (m e : Z) :
  valid (of_decimal s m e) = true /\ isNaN (of_decimal s m e) = false.
Proof.
  unfold of_decimal. destruct m as [|p|p]; try (split; reflexivity).
  destruct e as [|k|k]; try apply binary_round_valid.
  pose proof (div_core_pre (Zpos p) (Z.pow_pos 10 k) 0 0 ltac:(lia)) as H.
  destruct (SFdiv_core_binary prec emax (Zpos p) 0 (Z.pow_pos 10 k) 0)
    as [[q e'] l].
  destruct H as [Hq He].
  - change (Z.pow_pos 10 k) with (10 ^ Zpos k). apply Z.pow_pos_nonneg; lia.
  - apply binary_round_aux_valid; assumption.
Qed.

Lemma valid_finite (s : bool) (m : positive) (e : Z) :
  valid (S754_finite s m e) = true -> good (Zpos m) e /\ e <= 971.
Proof.
  unfold valid, valid_binary, bounded, canonical_mantissa.
  intros H. apply andb_prop in H. destruct H as [Hc Hm].
  apply Z.eqb_eq in Hc. apply Z.leb_le in Hm. rewrite fexp_eq in Hc.
  change (emax - prec) with 971 in Hm. split; [|exact Hm].
  pose proof (digits_bounds m) as [Hlo Hhi].
  set (d := Zpos (digits2_pos m)) in *.
  assert (1 <= d) by (unfold d; lia).
  unfold good. split; [split; [lia|]|split; [lia|]].
  - apply Z.lt_le_trans with (1 := Hhi). apply pow2_le. lia.
  - destruct (Z.eq_dec e (-1074)) as [|Hne]; [right; assumption|left].
    apply Z.le_trans with (2 := Hlo). apply pow2_le. lia.
Qed.

Lemma scaled_bounds (s : bool) (m : positive) (e : Z) :
  valid (S754_finite s m e) = true -> 0 < scaled m e < huge.
Proof.
  intros H. destruct (valid_finite _ _ _ H) as [[[_ Hm] [He _]] Hmax].
  unfold scaled.
  assert (P : 0 < 2 ^ (e + 1074)) by (apply pow2_pos; lia).
  split; [nia|].
  assert (Hle : 2 ^ (e + 1074) <= 2 ^ 2045) by (apply pow2_le; lia).
  apply Z.lt_le_trans with (2 ^ 53 * 2 ^ 2045); [nia|].
  unfold huge. rewrite <- pow2_split by lia. apply pow2_le. lia.
Qed.

Lemma scaled_lt (m1 m2 : positive) (e1 e2 : Z) :
  good (Zpos m1) e1 -> good (Zpos m2) e2 -> e1 < e2 ->
  scaled m1 e1 < scaled m2 e2.
Proof.
  intros [[_ H1] [He1 _]] [_ [_ H2]] Hlt. unfold scaled.
  replace (e2 + 1074) with (e1 + 1074 + (e2 - e1)) by lia.
  rewrite (pow2_split (e1 + 1074) (e2 - e1)) by lia.
  assert (P : 0 < 2 ^ (e1 + 1074)) by (apply pow2_pos; lia).
  assert (Q : 2 ^ 1 <= 2 ^ (e2 - e1)) by (apply pow2_le; lia).
  change (2 ^ 1) with 2 in Q.
  destruct H2 as [H2|H2]; [|lia].
  assert (Zpos m1 < Zpos m2 * 2 ^ (e2 - e1)) by nia.
  nia.
Qed.

Lemma compare_scaled (m1 m2 : positive) (e1 e2 : Z) :
  good (Zpos m1) e1 -> good (Zpos m2) e2 ->
  match e1 ?= e2 with
  | Lt => Lt
  | Gt => Gt
  | Eq => Pos.compare_cont Eq m1 m2
  end = (scaled m1 e1 ?= scaled m2 e2).
Proof.
  intros G1 G2. destruct (Z.compare_spec e1 e2) as [E|L|L].
  - subst e2. unfold scaled.
    rewrite <- Zmult_compare_compat_r; [reflexivity|].
    apply Z.lt_gt, pow2_pos. destruct G1 as [_ [? _]]. lia.
  - symmetry. apply Z.compare_lt_iff. apply scaled_lt; assumption.
  - symmetry. apply Z.compare_gt_iff. apply scaled_lt; assumption.
Qed.

Lemma huge_pos : 0 < huge.
Proof. unfold huge. apply pow2_pos. lia. Qed.

(** [SFcompare] is the comparison of the integers. *)
Lemma compare_ord_key (x y : number) :
  valid x = true -> valid y = true -> isNaN x = false -> isNaN y = false ->
  SFcompare x y = Some (ord_key x ?= ord_key y).
Proof.
  intros Vx Vy Nx Ny. pose proof huge_pos as HP.
  destruct x as [sx|sx| |sx mx ex]; try discriminate Nx;
  destruct y as [sy|sy| |sy my ey]; try discriminate Ny;
  try (pose proof (scaled_bounds _ _ _ Vx) as Bx);
  try (pose proof (scaled_bounds _ _ _ Vy) as By);
  cbn [SFcompare ord_key]; f_equal; symmetry;
  try (destruct sx); try (destruct sy); cbn [cond_Zopp];
  try reflexivity;
  try (apply Z.compare_lt_iff; lia);
  try (apply Z.compare_gt_iff; lia);
  try (apply Z.compare_eq_iff; lia).
  - destruct (valid_finite _ _ _ Vx) as [Gx _].
    destruct (valid_finite _ _ _ Vy) as [Gy _].
    rewrite Z.compare_opp.
    pose proof (compare_scaled mx my ex ey Gx Gy) as C.
    rewrite (Z.compare_antisym (scaled mx ex) (scaled my ey)), <- C.
    destruct (ex ?= ey); reflexivity.
  - destruct (valid_finite _ _ _ Vx) as [Gx _].
    destruct (valid_finite _ _ _ Vy) as [Gy _].
    symmetry. apply compare_scaled; assumption.
Qed.

Lemma shr_fexp_pos (m e : Z) (l : location) :
  0 < m -> -1074 <= e ->
  0 < shr_m (fst (shr_fexp prec emax m e l))
  /\ -1074 <= snd (shr_fexp prec emax m e l).
Proof.
  intros Hm He. unfold shr_fexp. rewrite fexp_eq.
  pose proof (Zdigits2_bounds m Hm) as [Hlo Hhi].
  set (d := Zdigits2 m) in *.
  destruct (Z_le_gt_dec (Z.max (d + e - 53) (-1074) - e) 0) as [Hn|Hn].
  - rewrite shr_neg by exact Hn. simpl. rewrite shr_record_of_loc_m. lia.
  - destruct (shr_spec (shr_record_of_loc m l) e
                (Z.max (d + e - 53) (-1074) - e)) as [Em Ee];
      [rewrite shr_record_of_loc_m; lia|lia|].
    rewrite Em, Ee, shr_record_of_loc_m. split; [|lia].
    replace (Z.max (d + e - 53) (-1074) - e) with (d - 53) by lia.
    assert (P : 0 < 2 ^ (d - 53)) by (apply pow2_pos; lia).
    assert (2 ^ (d - 53) <= 2 ^ (d - 1)) by (apply pow2_le; lia).
    assert (1 <= m / 2 ^ (d - 53)); [|lia].
    apply Z.div_le_lower_bound; lia.
Qed.

Lemma binary_round_aux_sign (s : bool) (m e : Z) (l : location) :
  0 < m -> -1074 <= e ->
  sign_of (binary_round_aux prec emax s m e l) = if s then Lt else Gt.
Proof.
  intros Hm He. unfold binary_round_aux.
  pose proof (shr_fexp_pos m e l Hm He) as [P1 E1].
  destruct (shr_fexp prec emax m e l) as [r1 e1].
  simpl fst in *; simpl snd in *.
  set (m1 := round_nearest_even (shr_m r1) (loc_of_shr_record r1)).
  assert (H1 : 0 < m1).
  { unfold m1.
    destruct (round_nearest_even_cases (shr_m r1) (loc_of_shr_record r1));
      lia. }
  pose proof (shr_fexp_pos m1 e1 loc_Exact H1 E1) as [P2 _].
  destruct (shr_fexp prec emax m1 e1 loc_Exact) as [r2 e2]. simpl fst in *.
  destruct (shr_m r2) as [|p|p]; try lia.
  destruct (e2 <=? emax - prec); reflexivity.
Qed.

Lemma binary_round_sign (s : bool) (m : positive) (e : Z) :
  -1074 <= e ->
  sign_of (binary_round prec emax s m e) = if s then Lt else Gt.
Proof.
  intros He. unfold binary_round.
  pose proof (shl_align_spec m e (fexp prec emax (Zpos (digits2_pos m) + e)))
    as [_ Hs].
  destruct (shl_align m e _) as [mz ez]. simpl snd in Hs.
  apply binary_round_aux_sign; [lia|]. rewrite fexp_eq in Hs. lia.
Qed.

Lemma binary_normalize_sign (m e : Z) :
  -1074 <= e ->
  sign_of (binary_normalize prec emax m e false) = (m ?= 0).
Proof.
  intros He. destruct m as [|p|p]; simpl binary_normalize.
  - reflexivity.
  - apply binary_round_sign; exact He.
  - apply binary_round_sign; exact He.
Qed.

(** The sign of [x - y] is the comparison of [x] and [y]: a difference
    of two Numbers that differ does not round to zero. *)
Lemma sub_sign (x y : number) :
  valid x = true -> valid y = true -> isNaN x = false -> isNaN y = false ->
  sign_of (sub x y) = (ord_key x ?= ord_key y).
Proof.
  intros Vx Vy Nx Ny. pose proof huge_pos as HP. unfold sub.
  destruct x as [sx|sx| |sx mx ex]; try discriminate Nx;
  destruct y as [sy|sy| |sy my ey]; try discriminate Ny;
  try (pose proof (scaled_bounds _ _ _ Vx) as Bx);
  try (pose proof (scaled_bounds _ _ _ Vy) as By);
  cbn [SFsub ord_key];
  try (destruct sx; destruct sy; cbn [cond_Zopp sign_of negb]; symmetry;
       solve [ reflexivity
             | apply Z.compare_lt_iff; lia
             | apply Z.compare_gt_iff; lia
             | apply Z.compare_eq_iff; lia ]);
  try (destruct sx; cbn [cond_Zopp sign_of negb]; symmetry;
       solve [ reflexivity
             | apply Z.compare_lt_iff; lia
             | apply Z.compare_gt_iff; lia
             | apply Z.compare_eq_iff; lia ]);
  try (destruct sy; cbn [cond_Zopp sign_of negb]; symmetry;
       solve [ reflexivity
             | apply Z.compare_lt_iff; lia
             | apply Z.compare_gt_iff; lia
             | apply Z.compare_eq_iff; lia ]).
  destruct (valid_finite _ _ _ Vx) as [[_ [Hex _]] _].
  destruct (valid_finite _ _ _ Vy) as [[_ [Hey _]] _].
  set (ez := Z.min ex ey).
  pose proof (shl_align_spec mx ex ez) as [Ax Sx].
  pose proof (shl_align_spec my ey ez) as [Ay Sy].
  rewrite Sx in Ax. rewrite Sy in Ay.
  replace (Z.min ex ez) with ez in Ax by (unfold ez; lia).
  replace (Z.min ey ez) with ez in Ay by (unfold ez; lia).
  rewrite binary_normalize_sign by (unfold ez; lia).
  rewrite Ax, Ay.
  assert (P : 0 < 2 ^ (ez + 1074)) by (apply pow2_pos; unfold ez; lia).
  assert (Kx : scaled mx ex = Zpos mx * 2 ^ (ex - ez) * 2 ^ (ez + 1074)).
  { unfold scaled. rewrite <- Z.mul_assoc, <- pow2_split by (unfold ez; lia).
    f_equal. f_equal. lia. }
  assert (Ky : scaled my ey = Zpos my * 2 ^ (ey - ez) * 2 ^ (ez + 1074)).
  { unfold scaled. rewrite <- Z.mul_assoc, <- pow2_split by (unfold ez; lia).
    f_equal. f_equal. lia. }
  rewrite Kx, Ky.
  set (a := Zpos mx * 2 ^ (ex - ez)). set (b := Zpos my * 2 ^ (ey - ez)).
  set (p := 2 ^ (ez + 1074)) in *.
  destruct sx, sy; cbn [cond_Zopp];
  destruct (Z.compare_spec (a * p) (b * p));
  destruct (Z.compare_spec (- (a * p)) (- (b * p)));
  destruct (Z.compare_spec (- (a * p)) (b * p));
  destruct (Z.compare_spec (a * p) (- (b * p)));
  try (apply Z.compare_lt_iff; nia);
  try (apply Z.compare_gt_iff; nia);
  try (apply Z.compare_eq_iff; nia).
Qed.

(** A right shift that drops only zeros is exact. *)
Lemma shr_1_exact (m : Z) :
  0 <= m ->
  shr_1 (Build_shr_record (2 * m) false false)
  = Build_shr_record m false false.
Proof. destruct m as [|p|p]; [reflexivity|reflexivity|lia]. Qed.

Lemma iter_shr_exact (p : positive) : forall m,
  0 <= m ->
  iter_pos shr_1 p (Build_shr_record (m * 2 ^ Zpos p) false false)
  = Build_shr_record m false false.
Proof.
  induction p as [p IH|p IH|]; intros m Hm; cbn [iter_pos].
  - replace (m * 2 ^ Zpos p~1) with (2 * (m * 2 ^ Zpos p * 2 ^ Zpos p)).
    + pose proof (pow2_pos (Zpos p) ltac:(lia)) as P.
      rewrite shr_1_exact by nia. rewrite IH by nia. apply IH; exact Hm.
    + replace (Zpos p~1) with (1 + Zpos p + Zpos p) by lia.
      rewrite !pow2_split by lia. change (2 ^ 1) with 2. ring.
  - replace (m * 2 ^ Zpos p~0) with (m * 2 ^ Zpos p * 2 ^ Zpos p).
    + pose proof (pow2_pos (Zpos p) ltac:(lia)) as P.
      rewrite IH by nia. apply IH; exact Hm.
    + replace (Zpos p~0) with (Zpos p + Zpos p) by lia.
      rewrite !pow2_split by lia. ring.
  - change (2 ^ 1) with 2. rewrite Z.mul_comm. apply shr_1_exact; exact Hm.
Qed.

Lemma shr_exact (m e n : Z) :
  0 <= m -> 0 <= n ->
  shr (Build_shr_record (m * 2 ^ n) false false) e n
  = (Build_shr_record m false false, e + n).
Proof.
  intros Hm Hn. destruct n as [|p|p]; [| |lia].
  - simpl. rewrite Z.mul_1_r, Z.add_0_r. reflexivity.
  - unfold shr. rewrite (iter_shr_exact p m Hm). reflexivity.
Qed.

Lemma Zdigits2_shift (m k : Z) :
  0 < m -> 0 <= k -> Zdigits2 (m * 2 ^ k) = Zdigits2 m + k.
Proof.
  intros Hm Hk. pose proof (Zdigits2_bounds m Hm) as [Hlo Hhi].
  pose proof (pow2_pos k Hk) as P.
  assert (Hd : 1 <= Zdigits2 m) by (destruct m; simpl; lia).
  apply Zdigits2_unique; [nia|].
  replace (Zdigits2 m + k - 1) with (Zdigits2 m - 1 + k) by lia.
  rewrite !pow2_split by lia. nia.
Qed.

(** A canonical mantissa and exponent have the exponent of their
    digits. *)
Lemma good_fexp (mf ef : Z) :
  0 < mf -> good mf ef -> fexp prec emax (Zdigits2 mf + ef) = ef.
Proof.
  intros Hm [[_ Hhi] [He Hc]]. rewrite fexp_eq.
  pose proof (Zdigits2_bounds mf Hm) as [Dlo Dhi].
  assert (Hd : 1 <= Zdigits2 mf) by (destruct mf; simpl; lia).
  assert (Zdigits2 mf - 1 < 53) by (apply pow2_lt_inv; lia).
  destruct Hc as [Hc|Hc]; [|lia].
  assert (52 < Zdigits2 mf) by (apply pow2_lt_inv; lia). lia.
Qed.

(** Rounding a value that is a Number gives this Number. *)
Lemma binary_round_aux_exact (s : bool) (q e mf ef : Z) :
  0 < mf -> good mf ef -> ef <= 971 -> e <= ef ->
  q = mf * 2 ^ (ef - e) ->
  binary_round_aux prec emax s q e loc_Exact
  = S754_finite s (Z.to_pos mf) ef.
Proof.
  intros Hm G Hmax He ->. unfold binary_round_aux, shr_fexp.
  rewrite (Zdigits2_shift mf (ef - e) Hm) by lia.
  replace (Zdigits2 mf + (ef - e) + e) with (Zdigits2 mf + ef) by lia.
  rewrite (good_fexp mf ef Hm G).
  change (shr_record_of_loc (mf * 2 ^ (ef - e)) loc_Exact)
    with (Build_shr_record (mf * 2 ^ (ef - e)) false false).
  rewrite (shr_exact mf e (ef - e)) by lia.
  replace (e + (ef - e)) with ef by lia.
  cbn [shr_m loc_of_shr_record round_nearest_even].
  rewrite (good_fexp mf ef Hm G), Z.sub_diag.
  change (shr_record_of_loc mf loc_Exact)
    with (Build_shr_record mf false false).
  cbn [shr shr_m].
  destruct mf as [|p|p]; try lia.
  destruct (Z.leb_spec ef (emax - prec)) as [_|H];
    [reflexivity|unfold emax, prec in H; lia].
Qed.

Lemma new_location_exact (nb_steps : Z) :
  new_location nb_steps 0 = loc_Exact.
Proof.
  unfold new_location, new_location_even, new_location_odd.
  destruct (Z.even nb_steps); reflexivity.
Qed.

Lemma pow10_pos (k : Z) : 0 <= k -> 0 < 10 ^ k.
Proof. intros. apply Z.pow_pos_nonneg; lia. Qed.

Lemma binary_round_exact (s : bool) (n : positive) (mf ef : Z) :
  0 < mf -> good mf ef -> ef <= 971 ->
  Zpos n * 2 ^ Z.max (- ef) 0 = mf * 2 ^ Z.max ef 0 ->
  binary_round prec emax s n 0 = S754_finite s (Z.to_pos mf) ef.
Proof.
  intros Hmf G Hmax V. pose proof G as [[_ Hhi] [Hef _]].
  unfold binary_round.
  pose proof (shl_align_spec n 0 (fexp prec emax (Zpos (digits2_pos n) + 0)))
    as [Hm He].
  destruct (shl_align n 0 _) as [mz ez]. simpl fst in *; simpl snd in *.
  rewrite fexp_eq in He.
  pose proof (digits_bounds n) as [Hlo Hhi'].
  set (d := Zpos (digits2_pos n)) in *.
  assert (Hd : 1 <= d) by (unfold d; lia).
  assert (Hez : ez <= ef).
  { destruct (Z_lt_le_dec ef 0) as [Hn|Hp]; [|lia].
    replace (Z.max (- ef) 0) with (- ef) in V by lia.
    replace (Z.max ef 0) with 0 in V by lia.
    rewrite Z.pow_0_r, Z.mul_1_r in V.
    assert (d - 1 + - ef < 53); [|lia].
    apply pow2_lt_inv; [lia|]. rewrite pow2_split by lia.
    pose proof (pow2_pos (- ef) ltac:(lia)). nia. }
  apply binary_round_aux_exact; try assumption.
  rewrite Hm. destruct (Z_lt_le_dec ef 0) as [Hn|Hp].
  - replace (Z.max (- ef) 0) with (- ef) in V by lia.
    replace (Z.max ef 0) with 0 in V by lia.
    rewrite Z.pow_0_r, Z.mul_1_r in V.
    replace (0 - ez) with (- ef + (ef - ez)) by lia.
    rewrite pow2_split by lia. rewrite Z.mul_assoc, V. reflexivity.
  - replace (Z.max (- ef) 0) with 0 in V by lia.
    replace (Z.max ef 0) with ef in V by lia.
    rewrite Z.pow_0_r, Z.mul_1_r in V.
    replace (ef - ez) with (ef + (0 - ez)) by lia.
    rewrite pow2_split by lia. rewrite V. ring.
Qed.

(** The Number of a decimal whose value is a Number is this Number. *)
Lemma of_decimal_exact (s : bool) (m e mf ef : Z) :
  0 < m -> 0 < mf -> good mf ef -> ef <= 971 ->
  same_value m e mf ef ->
  of_decimal s m e = S754_finite s (Z.to_pos mf) ef.
Proof.
  intros Hm Hmf G Hmax V. unfold same_value in V.
  pose proof G as [[_ Hhi] [Hef _]].
  destruct m as [|p|p]; try lia. unfold of_decimal.
  assert (Hneg : forall k, e = Zneg k ->
            (let '(q, e', l) :=
               SFdiv_core_binary prec emax (Zpos p) 0 (Z.pow_pos 10 k) 0 in
             binary_round_aux prec emax s q e' l)
            = S754_finite s (Z.to_pos mf) ef).
  { intros k ->. change (Z.pow_pos 10 k) with (10 ^ Zpos k).
    replace (Z.max (Zneg k) 0) with 0 in V by lia.
    replace (Z.max (- Zneg k) 0) with (Zpos k) in V by lia.
    rewrite Z.pow_0_r, Z.mul_1_r in V.
    set (m2 := 10 ^ Zpos k) in *.
    assert (H2 : 0 < m2) by (apply pow10_pos; lia).
    unfold SFdiv_core_binary. rewrite fexp_eq.
    set (d1 := Zdigits2 (Zpos p)). set (d2 := Zdigits2 m2).
    pose proof (Zdigits2_bounds (Zpos p) ltac:(lia)) as [Hlo1 Hhi1].
    pose proof (Zdigits2_bounds m2 H2) as [Hlo2 Hhi2].
    fold d1 in Hlo1, Hhi1. fold d2 in Hlo2, Hhi2.
    assert (Hd1 : 1 <= d1) by (unfold d1; simpl; lia).
    assert (Hd2 : 1 <= d2) by (unfold d2; destruct m2; simpl; lia).
    replace (d1 + 0 - (d2 + 0) - 53) with (d1 - d2 - 53) by lia.
    set (e' := Z.min (Z.max (d1 - d2 - 53) (-1074)) (0 - 0)).
    assert (He0 : e' <= 0) by (unfold e'; lia).
    assert (He' : e' <= ef).
    { destruct (Z_lt_le_dec ef 0) as [Hn|Hp]; [|lia].
      replace (Z.max (- ef) 0) with (- ef) in V by lia.
      replace (Z.max ef 0) with 0 in V by lia.
      rewrite Z.pow_0_r, Z.mul_1_r in V.
      assert (d1 - 1 + - ef < 53 + d2); [|unfold e'; lia].
      apply pow2_lt_inv; [lia|]. rewrite !pow2_split by lia.
      pose proof (pow2_pos (- ef) ltac:(lia)).
      pose proof (pow2_pos d2 ltac:(lia)). nia. }
    replace (0 - 0 - e') with (- e') by lia.
    set (m' := match - e' with
               | Zpos _ => Z.shiftl (Zpos p) (- e')
               | Z0 => Zpos p
               | Zneg _ => 0
               end).
    assert (Em : m' = Zpos p * 2 ^ (- e')).
    { unfold m'. destruct (- e') eqn:E; [simpl; lia| |lia].
      rewrite Z.shiftl_mul_pow2 by lia. reflexivity. }
    assert (EQ : m' = mf * 2 ^ (ef - e') * m2).
    { rewrite Em. destruct (Z_lt_le_dec ef 0) as [Hn|Hp].
      - replace (Z.max (- ef) 0) with (- ef) in V by lia.
        replace (Z.max ef 0) with 0 in V by lia.
        rewrite Z.pow_0_r, Z.mul_1_r in V.
        replace (- e') with (- ef + (ef - e')) by lia.
        rewrite pow2_split by lia. rewrite Z.mul_assoc, V. ring.
      - replace (Z.max (- ef) 0) with 0 in V by lia.
        replace (Z.max ef 0) with ef in V by lia.
        rewrite Z.pow_0_r, Z.mul_1_r in V.
        replace (ef - e') with (ef + - e') by lia.
        rewrite pow2_split by lia. rewrite V. ring. }
    assert (Ediv : Z.div_eucl m' m2 = (mf * 2 ^ (ef - e'), 0)).
    { pose proof (Z_div_mod m' m2 ltac:(lia)) as D.
      destruct (Z.div_eucl m' m2) as [q r]. destruct D as [D1 D2].
      assert (q = mf * 2 ^ (ef - e')) by nia. subst q.
      f_equal. lia. }
    rewrite Ediv, new_location_exact.
    apply binary_round_aux_exact; try assumption. reflexivity. }
  destruct e as [|k|k]; [| |apply (Hneg k); reflexivity].
  - apply binary_round_exact; try assumption.
    change (Z.max 0 0) with 0 in V. change (Z.max (- 0) 0) with 0 in V.
    rewrite Z.pow_0_r, !Z.mul_1_r in V.
    change (Z.to_pos (10 ^ 0)) with 1%positive. rewrite Pos.mul_1_r.
    exact V.
  - apply binary_round_exact; try assumption.
    replace (Z.max (Zpos k) 0) with (Zpos k) in V by lia.
    replace (Z.max (- Zpos k) 0) with 0 in V by lia.
    rewrite Z.pow_0_r, Z.mul_1_r in V.
    rewrite Pos2Z.inj_mul, Z2Pos.id by (apply pow10_pos; lia). exact V.
Qed.

(** The Number of a decimal that is at least [2^-1074] is not zero. *)
Lemma of_decimal_sign (s : bool) (m e : Z) :
  0 < m -> 10 ^ Z.max (- e) 0 <= m * 2 ^ 1074 ->
  sign_of (of_decimal s m e) = if s then Lt else Gt.
Proof.
  intros Hm V. destruct m as [|p|p]; try lia. unfold of_decimal.
  destruct e as [|k|k]; try (apply binary_round_sign; lia).
  change (Z.pow_pos 10 k) with (10 ^ Zpos k).
  replace (Z.max (- Zneg k) 0) with (Zpos k) in V by lia.
  set (m2 := 10 ^ Zpos k) in *.
  assert (H2 : 0 < m2) by (apply pow10_pos; lia).
  unfold SFdiv_core_binary. rewrite fexp_eq.
  set (d1 := Zdigits2 (Zpos p)). set (d2 := Zdigits2 m2).
  pose proof (Zdigits2_bounds (Zpos p) ltac:(lia)) as [Hlo1 Hhi1].
  pose proof (Zdigits2_bounds m2 H2) as [Hlo2 Hhi2].
  fold d1 in Hlo1, Hhi1. fold d2 in Hlo2, Hhi2.
  assert (Hd1 : 1 <= d1) by (unfold d1; simpl; lia).
  assert (Hd2 : 1 <= d2) by (unfold d2; destruct m2; simpl; lia).
  replace (d1 + 0 - (d2 + 0) - 53) with (d1 - d2 - 53) by lia.
  set (e' := Z.min (Z.max (d1 - d2 - 53) (-1074)) (0 - 0)).
  assert (He0 : -1074 <= e' <= 0) by (unfold e'; lia).
  replace (0 - 0 - e') with (- e') by lia.
  set (m' := match - e' with
             | Zpos _ => Z.shiftl (Zpos p) (- e')
             | Z0 => Zpos p
             | Zneg _ => 0
             end).
  assert (Em : m' = Zpos p * 2 ^ (- e')).
  { unfold m'. destruct (- e') eqn:E; [simpl; lia| |lia].
    rewrite Z.shiftl_mul_pow2 by lia. reflexivity. }
  assert (Hge : m2 <= m').
  { rewrite Em. destruct (Z.eq_dec e' (-1074)) as [E|Hne].
    - rewrite E. exact V.
    - assert (Hle : 2 ^ d2 <= 2 ^ (d1 - 1 + - e')).
      { apply pow2_le. unfold e' in *. lia. }
      rewrite pow2_split in Hle by lia.
      pose proof (pow2_pos (- e') ltac:(lia)). nia. }
  pose proof (Z_div_mod m' m2 ltac:(lia)) as D.
  destruct (Z.div_eucl m' m2) as [q r]. destruct D as [D1 D2].
  apply binary_round_aux_sign; [nia|lia].
Qed.

End NumFacts.

(** ** Facts on [parseFloat] *)

Module StrFacts.

Import Str Grammar.

Local Open Scope string_scope.

Lemma code_inj (c c' : ascii) : code c = code c' -> c = c'.
Proof.
  unfold code. intros H. apply N2Z.inj in H.
  rewrite <- (ascii_N_embedding c), <- (ascii_N_embedding c'), H.
  reflexivity.
Qed.

Lemma code_eqb (c : ascii) (n : Z) :
  (code c =? n)%Z = true -> c = ascii_of_N (Z.to_N n).
Proof.
  intros H. apply Z.eqb_eq in H. subst n. unfold code.
  rewrite N2Z.id, ascii_N_embedding. reflexivity.
Qed.

Lemma append_nil_r (s : string) : s ++ "" = s.
Proof. induction s; simpl; congruence. Qed.

Lemma append_assoc (a b c : string) : (a ++ b) ++ c = a ++ b ++ c.
Proof. induction a; simpl; congruence. Qed.

Lemma length_append (a b : string) :
  String.length (a ++ b) = (String.length a + String.length b)%nat.
Proof. induction a; simpl; congruence. Qed.

Lemma append_same_length (a b c d : string) :
  a ++ b = c ++ d -> String.length a = String.length c -> a = c /\ b = d.
Proof.
  revert c. induction a as [|x a IH]; intros [|y c]; simpl; intros H L;
    try discriminate.
  - split; [reflexivity|exact H].
  - inversion H; subst. destruct (IH c) as [-> ->]; [assumption|lia|].
    split; reflexivity.
Qed.

Lemma strip_prefix_spec (p s r : string) :
  strip_prefix p s = Some r <-> s = p ++ r.
Proof.
  revert s. induction p as [|a p IH]; intros s; simpl.
  - split; [intros H; inversion H; reflexivity|intros ->; reflexivity].
  - destruct s as [|b s]; [split; discriminate|].
    destruct (Ascii.eqb_spec a b) as [->|Hne].
    + rewrite IH. split; [intros ->; reflexivity|].
      intros H; inversion H; reflexivity.
    + split; [discriminate|]. intros H; inversion H; congruence.
Qed.

Lemma span_digits_spec (s d r : string) :
  span_digits s = (d, r) ->
  s = d ++ r /\ all_digits d = true /\ starts_with_digit r = false.
Proof.
  revert d r. induction s as [|c s IH]; simpl; intros d r H.
  - inversion H; subst. auto.
  - destruct (is_digit c) eqn:E.
    + destruct (span_digits s) as [d' r'] eqn:Es. inversion H; subst.
      destruct (IH _ _ eq_refl) as [-> [Hd Hr]]. simpl. rewrite E, Hd. auto.
    + inversion H; subst. simpl. auto.
Qed.

Lemma span_digits_no_digit (x : string) :
  starts_with_digit x = false -> span_digits x = ("", x).
Proof. destruct x as [|c x]; simpl; [reflexivity|]. intros ->. reflexivity. Qed.

Lemma span_digits_app (d x : string) :
  all_digits d = true ->
  span_digits (d ++ x) = (d ++ fst (span_digits x), snd (span_digits x)).
Proof.
  induction d as [|c d IH]; simpl; intros H.
  - destruct (span_digits x); reflexivity.
  - apply andb_prop in H. destruct H as [Hc Hd]. rewrite Hc, (IH Hd).
    reflexivity.
Qed.

Lemma span_digits_exact (d x : string) :
  all_digits d = true -> starts_with_digit x = false ->
  span_digits (d ++ x) = (d, x).
Proof.
  intros Hd Hx. rewrite (span_digits_app _ _ Hd), (span_digits_no_digit _ Hx).
  simpl. rewrite append_nil_r. reflexivity.
Qed.

Lemma span_digits_length (x : string) :
  (String.length (snd (span_digits x)) <= String.length x)%nat.
Proof.
  induction x as [|c x IH]; simpl; [lia|].
  destruct (is_digit c); [|simpl; lia].
  destruct (span_digits x); simpl in *. lia.
Qed.

Lemma DecimalDigits_all (d : string) :
  DecimalDigits d <-> all_digits d = true /\ d <> "".
Proof.
  split.
  - induction 1 as [c Hc|c s Hc Hs [IH _]]; simpl.
    + rewrite Hc. split; [reflexivity|discriminate].
    + rewrite Hc, IH. split; [reflexivity|discriminate].
  - induction d as [|c d IH]; simpl; intros [H Hne]; [congruence|].
    apply andb_prop in H. destruct H as [Hc Hd].
    destruct d as [|c' d]; [apply DD_digit; exact Hc|].
    apply DD_digits; [exact Hc|]. apply IH. split; [exact Hd|discriminate].
Qed.

Lemma split_sign_spec (s : string) :
  (s = "+" ++ snd (split_sign s) /\ fst (split_sign s) = false)
  \/ (s = "-" ++ snd (split_sign s) /\ fst (split_sign s) = true)
  \/ (split_sign s = (false, s)).
Proof.
  destruct s as [|c t]; simpl; [auto|].
  destruct (code c =? 43)%Z eqn:E1.
  - left. apply code_eqb in E1. subst c. auto.
  - destruct (code c =? 45)%Z eqn:E2; [|auto].
    right; left. apply code_eqb in E2. subst c. auto.
Qed.

Lemma split_sign_digits (d x : string) :
  DecimalDigits d -> split_sign (d ++ x) = (false, d ++ x).
Proof.
  intros H. apply DecimalDigits_all in H. destruct H as [H Hne].
  destruct d as [|c d]; [congruence|]. simpl in *.
  apply andb_prop in H. destruct H as [Hc _]. unfold is_digit in Hc.
  apply andb_prop in Hc. destruct Hc as [H1 H2].
  apply Z.leb_le in H1, H2.
  destruct (Z.eqb_spec (code c) 43); [lia|].
  destruct (Z.eqb_spec (code c) 45); [lia|]. reflexivity.
Qed.

Lemma split_sign_digits_only (d : string) :
  DecimalDigits d -> split_sign d = (false, d).
Proof.
  intros H. pose proof (split_sign_digits d "" H) as E.
  rewrite append_nil_r in E. exact E.
Qed.

Lemma scan_exponent_length (s r : string) (e : Z) :
  scan_exponent s = Some (e, r) ->
  (String.length r < String.length s)%nat.
Proof.
  destruct s as [|c s1]; simpl; [discriminate|].
  destruct ((code c =? 101)%Z || (code c =? 69)%Z); [|discriminate].
  pose proof (span_digits_length (snd (split_sign s1))) as L.
  assert (L' : (String.length (snd (split_sign s1)) <= String.length s1)%nat).
  { destruct (split_sign_spec s1) as [[E _]|[[E _]|E]].
    - rewrite E at 2. simpl. lia.
    - rewrite E at 2. simpl. lia.
    - rewrite E. simpl. lia. }
  destruct (split_sign s1) as [neg s2]. simpl in *.
  destruct (span_digits s2) as [[|c' ds] r']; [discriminate|].
  intros H; inversion H; subst. simpl in L. lia.
Qed.

Lemma SignedInteger_scan (p x : string) :
  SignedInteger p ->
  exists neg ds, split_sign (p ++ x) = (neg, ds ++ x)
                 /\ DecimalDigits ds
                 /\ split_sign p = (neg, ds).
Proof.
  intros [ds H|ds H|ds H].
  - exists false, ds. split; [apply split_sign_digits; exact H|].
    split; [exact H|]. apply split_sign_digits_only; exact H.
  - exists false, ds. simpl. auto.
  - exists true, ds. simpl. auto.
Qed.

Lemma scan_exponent_complete (p rest : string) :
  ExponentPart p ->
  exists e r, scan_exponent (p ++ rest) = Some (e, r)
              /\ (String.length r <= String.length rest)%nat.
Proof.
  intros H.
  assert (G : exists s, SignedInteger s
               /\ scan_exponent (p ++ rest)
                  = (let '(neg, s2) := split_sign (s ++ rest) in
                     match span_digits s2 with
                     | (EmptyString, _) => None
                     | (ds, r) =>
                         Some (if neg then (- digits_value 0 ds)%Z
                               else digits_value 0 ds, r)
                     end)).
  { destruct H as [s Hs|s Hs]; exists s; (split; [exact Hs|reflexivity]). }
  destruct G as [s [Hs ->]].
  destruct (SignedInteger_scan s rest Hs) as [neg [ds [E [Hd _]]]].
  rewrite E. apply DecimalDigits_all in Hd. destruct Hd as [Hd Hne].
  rewrite (span_digits_app _ _ Hd).
  pose proof (span_digits_length rest) as L.
  destruct (span_digits rest) as [d' r']. simpl in *.
  destruct ds as [|c ds]; [congruence|]. simpl.
  eexists _, r'. split; [reflexivity|exact L].
Qed.

Lemma scan_exponent_sound (s r : string) (e : Z) :
  scan_exponent s = Some (e, r) ->
  exists p, s = p ++ r /\ ExponentPart p /\ scan_exponent p = Some (e, "").
Proof.
  destruct s as [|c s1]; simpl; [discriminate|].
  destruct ((code c =? 101)%Z || (code c =? 69)%Z) eqn:Ec; [|discriminate].
  destruct (split_sign s1) as [neg s2] eqn:Es.
  destruct (span_digits s2) as [ds r'] eqn:Ed.
  destruct (span_digits_spec _ _ _ Ed) as [-> [Hd Hr]].
  destruct ds as [|c' ds]; [discriminate|]. intros H; inversion H; subst.
  assert (HD : DecimalDigits (String c' ds)).
  { apply DecimalDigits_all. split; [exact Hd|discriminate]. }
  set (d := String c' ds) in *.
  assert (G : exists sg, s1 = sg ++ d ++ r /\ SignedInteger (sg ++ d)
                         /\ split_sign (sg ++ d) = (neg, d)).
  { pose proof (split_sign_spec s1) as S. rewrite Es in S. simpl in S.
    destruct S as [[E ->]|[[E ->]|E]].
    - exists "+". split; [exact E|]. split; [apply SI_plus; exact HD|].
      reflexivity.
    - exists "-". split; [exact E|]. split; [apply SI_minus; exact HD|].
      reflexivity.
    - inversion E; subst. exists "". split; [reflexivity|].
      split; [apply SI_digits; exact HD|].
      apply split_sign_digits_only; exact HD. }
  destruct G as [sg [-> [HS Esg]]].
  exists (String c (sg ++ d)). split; [|split].
  - simpl. rewrite append_assoc. reflexivity.
  - apply orb_prop in Ec. destruct Ec as [Ec|Ec]; apply code_eqb in Ec;
      subst c; [apply EP_e|apply EP_E]; exact HS.
  - simpl. rewrite Ec, Esg.
    rewrite <- (append_nil_r d) at 1.
    rewrite (span_digits_exact d "" Hd eq_refl). reflexivity.
Qed.

Lemma opt_digits_all (f : string) : opt DecimalDigits f -> all_digits f = true.
Proof.
  intros [->|H]; [reflexivity|]. apply DecimalDigits_all in H. tauto.
Qed.

Lemma all_digits_opt (f : string) : all_digits f = true -> opt DecimalDigits f.
Proof.
  intros H. destruct f as [|c f]; [left; reflexivity|right].
  apply DecimalDigits_all. split; [exact H|discriminate].
Qed.

Lemma ends_mantissa_no_digit (y : string) :
  ends_mantissa y = true -> starts_with_digit y = false.
Proof.
  destruct y as [|c y]; simpl; [reflexivity|].
  destruct (is_digit c); [discriminate|reflexivity].
Qed.

Lemma scan_fraction_none (ip y : string) :
  ends_mantissa y = true -> scan_fraction ip y = ("", y).
Proof.
  destruct y as [|c y]; simpl; [reflexivity|].
  destruct (code c =? 46)%Z; [|reflexivity].
  rewrite orb_true_r. discriminate.
Qed.

Lemma scan_fraction_dot (ip t : string) :
  ip <> "" -> scan_fraction ip ("." ++ t) = span_digits t.
Proof.
  intros H. destruct ip as [|c ip]; [congruence|]. simpl.
  destruct (span_digits t); reflexivity.
Qed.

Lemma scan_fraction_dot_only (f t : string) :
  f <> "" -> span_digits t = (f, snd (span_digits t)) ->
  scan_fraction "" ("." ++ t) = span_digits t.
Proof.
  intros H E. simpl. rewrite E. destruct f; [congruence|reflexivity].
Qed.

(** The mantissa that was read is a mantissa, and is read the same when
    what follows it does not continue it. *)
Lemma scan_mantissa_exact (pm i f y : string) :
  Mantissa pm i f -> ends_mantissa y = true ->
  scan_mantissa (pm ++ y) = Some (i, f, y).
Proof.
  intros H Hy. pose proof (ends_mantissa_no_digit y Hy) as Hy'.
  unfold scan_mantissa. destruct H as [i f Hi Hf|f Hf|i Hi].
  - apply DecimalDigits_all in Hi. destruct Hi as [Hi Hne].
    apply opt_digits_all in Hf.
    rewrite !append_assoc, (span_digits_exact i ("." ++ f ++ y) Hi eq_refl).
    rewrite (scan_fraction_dot i _ Hne), (span_digits_exact f y Hf Hy').
    destruct i; [congruence|reflexivity].
  - apply DecimalDigits_all in Hf. destruct Hf as [Hf Hne].
    rewrite append_assoc.
    rewrite (span_digits_no_digit ("." ++ f ++ y) eq_refl).
    rewrite (scan_fraction_dot_only f);
      [|exact Hne|rewrite (span_digits_exact f y Hf Hy'); reflexivity].
    rewrite (span_digits_exact f y Hf Hy').
    destruct f; [congruence|reflexivity].
  - apply DecimalDigits_all in Hi. destruct Hi as [Hi Hne].
    rewrite (span_digits_exact i y Hi Hy'), (scan_fraction_none i y Hy).
    destruct i; [congruence|reflexivity].
Qed.

Lemma scan_mantissa_sound (s ip fp s2 : string) :
  scan_mantissa s = Some (ip, fp, s2) ->
  exists pm, s = pm ++ s2 /\ Mantissa pm ip fp.
Proof.
  unfold scan_mantissa. destruct (span_digits s) as [i s1] eqn:Es.
  destruct (span_digits_spec _ _ _ Es) as [-> [Hi Hs1]].
  assert (Hint : i <> "" -> Mantissa i i "").
  { intros Hne. apply M_int. apply DecimalDigits_all. tauto. }
  destruct s1 as [|c t]; simpl scan_fraction.
  - destruct i as [|ci i]; [discriminate|]. intros H; inversion H; subst.
    exists (String ci i). split; [reflexivity|]. apply Hint. discriminate.
  - destruct (code c =? 46)%Z eqn:Ec.
    + apply code_eqb in Ec. subst c.
      destruct (span_digits t) as [f r] eqn:Et.
      destruct (span_digits_spec _ _ _ Et) as [-> [Hf Hr]].
      destruct i as [|ci i].
      * destruct f as [|cf f]; [discriminate|].
        intros H; inversion H; subst.
        exists ("." ++ String cf f). split; [reflexivity|].
        apply M_dot. apply DecimalDigits_all. split; [exact Hf|discriminate].
      * intros H; inversion H; subst.
        eexists. split; [|apply M_int_dot; [|apply all_digits_opt; exact Hf]].
        -- rewrite !append_assoc. reflexivity.
        -- apply DecimalDigits_all. split; [exact Hi|discriminate].
    + destruct i as [|ci i]; [discriminate|]. intros H; inversion H; subst.
      exists (String ci i). split; [reflexivity|]. apply Hint. discriminate.
Qed.

Lemma scan_fraction_length (ip y : string) :
  (String.length (snd (scan_fraction ip y)) <= String.length y)%nat.
Proof.
  destruct y as [|c t]; simpl; [lia|].
  destruct (code c =? 46)%Z; [|simpl; lia].
  pose proof (span_digits_length t) as L.
  destruct (span_digits t) as [f r]. simpl in L.
  destruct ip; [destruct f|]; simpl; lia.
Qed.

Lemma scan_mantissa_complete (pm i f y : string) :
  Mantissa pm i f ->
  exists i' f' s2, scan_mantissa (pm ++ y) = Some (i', f', s2)
                   /\ (String.length s2 <= String.length y)%nat.
Proof.
  intros H. unfold scan_mantissa. destruct H as [i f Hi Hf|f Hf|i Hi].
  - apply DecimalDigits_all in Hi. destruct Hi as [Hi Hne].
    apply opt_digits_all in Hf.
    rewrite !append_assoc, (span_digits_exact i ("." ++ f ++ y) Hi eq_refl).
    rewrite (scan_fraction_dot i _ Hne), (span_digits_app f y Hf).
    pose proof (span_digits_length y) as L.
    destruct i; [congruence|]. eexists _, _, _. split; [reflexivity|exact L].
  - apply DecimalDigits_all in Hf. destruct Hf as [Hf Hne].
    rewrite append_assoc.
    rewrite (span_digits_no_digit ("." ++ f ++ y) eq_refl).
    rewrite (scan_fraction_dot_only (f ++ fst (span_digits y)));
      [|destruct f; [congruence|discriminate]
       |rewrite (span_digits_app f y Hf); reflexivity].
    rewrite (span_digits_app f y Hf).
    pose proof (span_digits_length y) as L.
    destruct f as [|cf f]; [congruence|].
    eexists _, _, _. split; [reflexivity|exact L].
  - apply DecimalDigits_all in Hi. destruct Hi as [Hi Hne].
    rewrite (span_digits_app i y Hi).
    pose proof (span_digits_length y) as L.
    pose proof (scan_fraction_length (i ++ fst (span_digits y))
                  (snd (span_digits y))) as L'.
    destruct (scan_fraction (i ++ fst (span_digits y)) (snd (span_digits y)))
      as [f' s2].
    destruct i as [|ci i]; [congruence|].
    eexists _, _, _. split; [reflexivity|]. simpl in L'. lia.
Qed.

Lemma ExponentPart_ends_mantissa (e y : string) :
  ExponentPart e -> ends_mantissa (e ++ y) = true.
Proof. intros [s _|s _]; reflexivity. Qed.

Lemma opt_exponent_ends_mantissa (e : string) :
  opt ExponentPart e -> ends_mantissa e = true.
Proof.
  intros [->|H]; [reflexivity|].
  rewrite <- (append_nil_r e). apply ExponentPart_ends_mantissa; exact H.
Qed.

Lemma digit_first (d : string) :
  DecimalDigits d -> exists c t, d = String c t /\ is_digit c = true.
Proof. intros [c Hc|c s Hc _]; eauto. Qed.

(** A mantissa starts with a digit or a dot. *)
Lemma Mantissa_first (pm i f : string) :
  Mantissa pm i f ->
  exists c t, pm = String c t /\ (is_digit c = true \/ c = "."%char).
Proof.
  intros [i' f' Hi _|f' Hf|i' Hi].
  - destruct (digit_first _ Hi) as [c [t [-> Hc]]]. simpl. eauto.
  - simpl. eauto.
  - destruct (digit_first _ Hi) as [c [t [-> Hc]]]. eauto.
Qed.

Lemma Mantissa_no_Infinity (pm i f y : string) :
  Mantissa pm i f -> strip_prefix "Infinity" (pm ++ y) = None.
Proof.
  intros H. destruct (Mantissa_first _ _ _ H) as [c [t [-> Hc]]].
  cbn [String.append strip_prefix].
  destruct (Ascii.eqb_spec "I"%char c) as [<-|]; [|reflexivity].
  destruct Hc as [Hc|Hc]; discriminate.
Qed.

Lemma Mantissa_split_sign (pm i f y : string) :
  Mantissa pm i f -> split_sign (pm ++ y) = (false, pm ++ y).
Proof.
  intros H. destruct (Mantissa_first _ _ _ H) as [c [t [-> Hc]]]. simpl.
  destruct (code c =? 43)%Z eqn:E1;
    [apply code_eqb in E1; subst c; destruct Hc; discriminate|].
  destruct (code c =? 45)%Z eqn:E2;
    [apply code_eqb in E2; subst c; destruct Hc; discriminate|].
  reflexivity.
Qed.

Lemma Mantissa_literal (pm i f e : string) :
  Mantissa pm i f -> opt ExponentPart e ->
  StrUnsignedDecimalLiteral (pm ++ e).
Proof.
  intros [i' f' Hi Hf|f' Hf|i' Hi] He.
  - rewrite !append_assoc. apply SUDL_int_dot; assumption.
  - rewrite append_assoc. apply SUDL_dot; assumption.
  - apply SUDL_int; assumption.
Qed.

Lemma literal_Mantissa (p : string) :
  StrUnsignedDecimalLiteral p ->
  p = "Infinity"
  \/ exists pm i f e, p = pm ++ e /\ Mantissa pm i f /\ opt ExponentPart e.
Proof.
  intros [|i f e Hi Hf He|f e Hf He|i e Hi He]; [left; reflexivity| | |];
    right.
  - exists (i ++ "." ++ f), i, f, e. rewrite !append_assoc.
    split; [reflexivity|]. split; [apply M_int_dot; assumption|exact He].
  - exists ("." ++ f), "", f, e. rewrite append_assoc.
    split; [reflexivity|]. split; [apply M_dot; assumption|exact He].
  - exists i, i, "", e.
    split; [reflexivity|]. split; [apply M_int; assumption|exact He].
Qed.

Lemma strip_prefix_cut (q p r : string) :
  strip_prefix q (p ++ r) = None -> strip_prefix q p = None.
Proof.
  intros H. destruct (strip_prefix q p) as [t|] eqn:E; [|reflexivity].
  apply strip_prefix_spec in E. subst p.
  rewrite append_assoc in H.
  assert (E : strip_prefix q (q ++ t ++ r) = Some (t ++ r))
    by (apply strip_prefix_spec; reflexivity).
  congruence.
Qed.

(** What [scan_unsigned] reads is a literal, and is read the same without
    what follows it. *)
Lemma scan_unsigned_sound (s r : string) (v : scanned) :
  scan_unsigned s = Some (v, r) ->
  exists p, s = p ++ r /\ StrUnsignedDecimalLiteral p
            /\ scan_unsigned p = Some (v, "").
Proof.
  unfold scan_unsigned.
  destruct (strip_prefix "Infinity" s) as [r0|] eqn:Ei.
  - intros H; inversion H; subst. apply strip_prefix_spec in Ei.
    exists "Infinity". split; [exact Ei|]. split; [constructor|reflexivity].
  - destruct (scan_mantissa s) as [[[ip fp] s2]|] eqn:Em; [|discriminate].
    destruct (scan_mantissa_sound _ _ _ _ Em) as [pm [Es HM]].
    destruct (scan_exponent s2) as [[e r']|] eqn:Ee; intros H;
      inversion H; subst; clear H.
    + destruct (scan_exponent_sound _ _ _ Ee) as [pe [-> [HE Ec]]].
      exists (pm ++ pe). split; [rewrite append_assoc; reflexivity|].
      split; [apply (Mantissa_literal _ _ _ _ HM); right; exact HE|].
      rewrite (Mantissa_no_Infinity _ _ _ pe HM).
      rewrite (scan_mantissa_exact _ _ _ pe HM)
        by (apply opt_exponent_ends_mantissa; right; exact HE).
      rewrite Ec. reflexivity.
    + exists pm. split; [reflexivity|].
      split; [rewrite <- (append_nil_r pm);
              apply (Mantissa_literal _ _ _ _ HM); left; reflexivity|].
      pose proof (Mantissa_no_Infinity _ _ _ "" HM) as Hn.
      pose proof (scan_mantissa_exact _ _ _ "" HM eq_refl) as Hm.
      rewrite append_nil_r in Hn, Hm. rewrite Hn, Hm. reflexivity.
Qed.

(** A string that starts with a literal is read at least as far as the
    literal goes. *)
Lemma scan_unsigned_complete (p rest : string) :
  StrUnsignedDecimalLiteral p ->
  exists v r, scan_unsigned (p ++ rest) = Some (v, r)
              /\ (String.length r <= String.length rest)%nat.
Proof.
  intros H. unfold scan_unsigned.
  destruct (literal_Mantissa _ H) as [->|[pm [i [f [e [-> [HM He]]]]]]].
  - exists ScInfinity, rest. split; [reflexivity|lia].
  - rewrite append_assoc, (Mantissa_no_Infinity _ _ _ _ HM).
    destruct He as [->|He].
    + change ("" ++ rest) with rest.
      destruct (scan_mantissa_complete _ _ _ rest HM)
        as [i' [f' [s2 [-> L]]]].
      destruct (scan_exponent s2) as [[x r]|] eqn:Ee.
      * apply scan_exponent_length in Ee.
        eexists _, r. split; [reflexivity|lia].
      * eexists _, s2. split; [reflexivity|exact L].
    + rewrite (scan_mantissa_exact _ _ _ (e ++ rest) HM)
        by (apply ExponentPart_ends_mantissa; exact He).
      destruct (scan_exponent_complete e rest He) as [x [r [-> L]]].
      eexists _, r. split; [reflexivity|exact L].
Qed.

Lemma literal_split_sign (p y : string) :
  StrUnsignedDecimalLiteral p -> split_sign (p ++ y) = (false, p ++ y).
Proof.
  intros H.
  destruct (literal_Mantissa _ H) as [->|[pm [i [f [e [-> [HM He]]]]]]].
  - reflexivity.
  - rewrite append_assoc. apply (Mantissa_split_sign _ _ _ _ HM).
Qed.

(** The same for the signed literals. *)
Lemma scan_literal_sound (s r : string) (x : Num.number) :
  scan_literal s = Some (x, r) ->
  exists p, s = p ++ r /\ StrDecimalLiteral p
            /\ scan_literal p = Some (x, "").
Proof.
  unfold scan_literal. pose proof (split_sign_spec s) as S.
  destruct (split_sign s) as [neg s1]. simpl in S.
  destruct (scan_unsigned s1) as [[v r']|] eqn:Eu; [|discriminate].
  destruct (scan_unsigned_sound _ _ _ Eu) as [p [-> [HL Ep]]].
  intros H.
  assert (Hr : r' = r) by (destruct v; inversion H; reflexivity). subst r'.
  destruct S as [[-> ->]|[[-> ->]|E]].
  - exists ("+" ++ p). split; [reflexivity|].
    split; [apply SDL_plus; exact HL|].
    simpl. rewrite Ep. destruct v; inversion H; reflexivity.
  - exists ("-" ++ p). split; [reflexivity|].
    split; [apply SDL_minus; exact HL|].
    simpl. rewrite Ep. destruct v; inversion H; reflexivity.
  - inversion E; subst. exists p. split; [reflexivity|].
    split; [apply SDL_unsigned; exact HL|].
    pose proof (literal_split_sign p "" HL) as Hs.
    rewrite append_nil_r in Hs. rewrite Hs, Ep.
    destruct v; inversion H; reflexivity.
Qed.

Lemma scan_literal_complete (p rest : string) :
  StrDecimalLiteral p ->
  exists x r, scan_literal (p ++ rest) = Some (x, r)
              /\ (String.length r <= String.length rest)%nat.
Proof.
  intros [u H|u H|u H]; unfold scan_literal.
  - rewrite (literal_split_sign u rest H).
    destruct (scan_unsigned_complete u rest H) as [v [r [-> L]]].
    destruct v; eexists _, r; (split; [reflexivity|exact L]).
  - change (split_sign (("+" ++ u) ++ rest)) with (false, u ++ rest).
    destruct (scan_unsigned_complete u rest H) as [v [r [-> L]]].
    destruct v; eexists _, r; (split; [reflexivity|exact L]).
  - change (split_sign (("-" ++ u) ++ rest)) with (true, u ++ rest).
    destruct (scan_unsigned_complete u rest H) as [v [r [-> L]]].
    destruct v; eexists _, r; (split; [reflexivity|exact L]).
Qed.

Lemma scan_literal_valid (s : string) (x : Num.number) (r : string) :
  scan_literal s = Some (x, r) -> Num.valid x = true /\ Num.isNaN x = false.
Proof.
  unfold scan_literal. destruct (split_sign s) as [neg s1].
  destruct (scan_unsigned s1) as [[[|m e] r']|]; intros H;
    inversion H; subst; [split; reflexivity|apply NumFacts.of_decimal_valid].
Qed.

Lemma parseFloat_valid (s : string) : Num.valid (parseFloat s) = true.
Proof.
  unfold parseFloat.
  destruct (scan_literal (TrimStart s)) as [[x r]|] eqn:E;
    [|reflexivity].
  eapply scan_literal_valid; exact E.
Qed.

(** A literal is read as far as it goes when what follows it does not
    continue a literal. *)
Lemma ends_literal_mantissa (y : string) :
  ends_literal y = true -> ends_mantissa y = true.
Proof.
  destruct y as [|c y]; simpl; [reflexivity|].
  destruct (is_digit c || (code c =? 46)%Z); [discriminate|reflexivity].
Qed.

Lemma scan_exponent_none (y : string) :
  ends_literal y = true -> scan_exponent y = None.
Proof.
  destruct y as [|c y]; simpl; [reflexivity|].
  destruct (code c =? 101)%Z; [rewrite !orb_true_r; discriminate|].
  destruct (code c =? 69)%Z; [rewrite !orb_true_r; discriminate|].
  reflexivity.
Qed.

Lemma scan_exponent_exact (pe y : string) :
  ExponentPart pe -> starts_with_digit y = false ->
  exists e, scan_exponent (pe ++ y) = Some (e, y).
Proof.
  intros H Hy.
  assert (G : exists s, SignedInteger s
               /\ scan_exponent (pe ++ y)
                  = (let '(neg, s2) := split_sign (s ++ y) in
                     match span_digits s2 with
                     | (EmptyString, _) => None
                     | (ds, r) =>
                         Some (if neg then (- digits_value 0 ds)%Z
                               else digits_value 0 ds, r)
                     end)).
  { destruct H as [s Hs|s Hs]; exists s; (split; [exact Hs|reflexivity]). }
  destruct G as [s [Hs ->]].
  destruct (SignedInteger_scan s y Hs) as [neg [ds [E [Hd _]]]].
  rewrite E. apply DecimalDigits_all in Hd. destruct Hd as [Hd Hne].
  rewrite (span_digits_exact _ _ Hd Hy).
  destruct ds as [|c ds]; [congruence|]. eexists. reflexivity.
Qed.

Lemma scan_unsigned_exact (p y : string) :
  StrUnsignedDecimalLiteral p -> ends_literal y = true ->
  exists v, scan_unsigned (p ++ y) = Some (v, y).
Proof.
  intros H Hy. unfold scan_unsigned.
  pose proof (ends_literal_mantissa y Hy) as Hm.
  destruct (literal_Mantissa _ H) as [->|[pm [i [f [e [-> [HM He]]]]]]].
  - exists ScInfinity. reflexivity.
  - rewrite append_assoc, (Mantissa_no_Infinity _ _ _ _ HM).
    destruct He as [->|He].
    + change ("" ++ y) with y.
      rewrite (scan_mantissa_exact _ _ _ y HM Hm), (scan_exponent_none y Hy).
      eexists. reflexivity.
    + rewrite (scan_mantissa_exact _ _ _ (e ++ y) HM)
        by (apply ExponentPart_ends_mantissa; exact He).
      destruct (scan_exponent_exact e y He
                  (ends_mantissa_no_digit y Hm)) as [x ->].
      eexists. reflexivity.
Qed.

Lemma scan_literal_exact (p y : string) :
  StrDecimalLiteral p -> ends_literal y = true ->
  exists x, scan_literal (p ++ y) = Some (x, y).
Proof.
  intros [u H|u H|u H] Hy; unfold scan_literal.
  - rewrite (literal_split_sign u y H).
    destruct (scan_unsigned_exact u y H Hy) as [v ->].
    destruct v; eexists; reflexivity.
  - change (split_sign (("+" ++ u) ++ y)) with (false, u ++ y).
    destruct (scan_unsigned_exact u y H Hy) as [v ->].
    destruct v; eexists; reflexivity.
  - change (split_sign (("-" ++ u) ++ y)) with (true, u ++ y).
    destruct (scan_unsigned_exact u y H Hy) as [v ->].
    destruct v; eexists; reflexivity.
Qed.

(** So the literal is the longest prefix that is one. *)
Lemma longest_before_other (lit rest : string) :
  StrDecimalLiteral lit -> ends_literal rest = true ->
  forall p q, lit ++ rest = p ++ q -> StrDecimalLiteral p ->
              (String.length p <= String.length lit)%nat.
Proof.
  intros Hl Hr p q E Hp.
  destruct (scan_literal_exact lit rest Hl Hr) as [x Ex].
  destruct (scan_literal_complete p q Hp) as [x' [r [Ep L]]].
  rewrite <- E, Ex in Ep. inversion Ep; subst r.
  apply (f_equal String.length) in E. rewrite !length_append in E. lia.
Qed.

(** Trimming drops the white space and stops at a literal. *)
Lemma ws2_first (c1 c2 : ascii) :
  is_ws2 c1 c2 = true -> is_ws1 c1 = false.
Proof.
  unfold is_ws2, is_ws1. intros H. apply andb_prop in H.
  destruct H as [H _]. apply Z.eqb_eq in H. rewrite H. reflexivity.
Qed.

Lemma ws3_first (c1 c2 c3 : ascii) :
  is_ws3 c1 c2 c3 = true ->
  is_ws1 c1 = false /\ forall c, is_ws2 c1 c = false.
Proof.
  unfold is_ws3, is_ws2, is_ws1. intros H.
  assert (G : code c1 = 225%Z \/ code c1 = 226%Z \/ code c1 = 227%Z
              \/ code c1 = 239%Z).
  { repeat (apply orb_prop in H; destruct H as [H|H]);
      repeat (apply andb_prop in H; destruct H as [H _]);
      apply Z.eqb_eq in H; lia. }
  destruct G as [G|[G|[G|G]]]; rewrite G; split; reflexivity.
Qed.

Lemma TrimStart_ws (ws s : string) :
  StrWhiteSpace ws -> TrimStart (ws ++ s) = TrimStart s.
Proof.
  induction 1 as [|c t Hc _ IH|c1 c2 t Hc _ IH|c1 c2 c3 t Hc _ IH].
  - reflexivity.
  - cbn [String.append TrimStart]. rewrite Hc. exact IH.
  - cbn [String.append TrimStart]. rewrite (ws2_first _ _ Hc), Hc. exact IH.
  - cbn [String.append TrimStart]. destruct (ws3_first _ _ _ Hc) as [H1 H2].
    rewrite H1, H2, Hc. exact IH.
Qed.

Lemma TrimStart_keep (c : ascii) (t : string) :
  is_ws1 c = false -> (code c < 194)%Z ->
  TrimStart (String c t) = String c t.
Proof.
  intros H1 H2. cbn [TrimStart]. rewrite H1.
  destruct t as [|c2 t]; [reflexivity|].
  assert (E2 : is_ws2 c c2 = false).
  { unfold is_ws2. destruct (Z.eqb_spec (code c) 194); [lia|reflexivity]. }
  rewrite E2. destruct t as [|c3 t]; [reflexivity|].
  assert (E3 : is_ws3 c c2 c3 = false).
  { unfold is_ws3.
    destruct (Z.eqb_spec (code c) 225); [lia|].
    destruct (Z.eqb_spec (code c) 226); [lia|].
    destruct (Z.eqb_spec (code c) 227); [lia|].
    destruct (Z.eqb_spec (code c) 239); [lia|]. reflexivity. }
  rewrite E3. reflexivity.
Qed.

Lemma literal_first (p : string) :
  StrUnsignedDecimalLiteral p ->
  exists c t, p = String c t /\ is_ws1 c = false /\ (code c < 194)%Z.
Proof.
  intros H.
  destruct (literal_Mantissa _ H) as [->|[pm [i [f [e [-> [HM He]]]]]]].
  - eexists _, _. split; [reflexivity|]. split; [reflexivity|reflexivity].
  - destruct (Mantissa_first _ _ _ HM) as [c [t [-> Hc]]].
    exists c, (t ++ e). split; [reflexivity|].
    destruct Hc as [Hc| ->]; [|split; reflexivity].
    unfold is_digit in Hc. apply andb_prop in Hc. destruct Hc as [A B].
    apply Z.leb_le in A, B. unfold is_ws1.
    destruct (Z.leb_spec (code c) 13); [lia|].
    destruct (Z.eqb_spec (code c) 32); [lia|].
    rewrite andb_false_r. split; [reflexivity|lia].
Qed.

Lemma TrimStart_literal (p y : string) :
  StrDecimalLiteral p -> TrimStart (p ++ y) = p ++ y.
Proof.
  intros [u H|u H|u H].
  - destruct (literal_first _ H) as [c [t [-> [H1 H2]]]].
    apply (TrimStart_keep c (t ++ y) H1 H2).
  - apply (TrimStart_keep "+"%char (u ++ y)); reflexivity.
  - apply (TrimStart_keep "-"%char (u ++ y)); reflexivity.
Qed.

(** [parseFloat] gives [NaN] when no prefix of the trimmed string is a
    decimal literal. *)
Lemma parseFloat_no_literal (s : string) :
  (forall p r, TrimStart s = p ++ r -> ~ StrDecimalLiteral p) ->
  parseFloat s = Num.NaN.
Proof.
  intros H. unfold parseFloat.
  destruct (scan_literal (TrimStart s)) as [[x r]|] eqn:E; [|reflexivity].
  destruct (scan_literal_sound _ _ _ E) as [p [Es [HL _]]].
  exfalso. exact (H p r Es HL).
Qed.

(** [parseFloat] gives the value of the longest prefix of the trimmed
    string that is a decimal literal. *)
Lemma parseFloat_longest (ws lit rest : string) :
  StrWhiteSpace ws -> StrDecimalLiteral lit ->
  (forall p q, lit ++ rest = p ++ q -> StrDecimalLiteral p ->
               (String.length p <= String.length lit)%nat) ->
  parseFloat (ws ++ lit ++ rest) = parseFloat lit
  /\ Num.isNaN (parseFloat lit) = false.
Proof.
  intros Hws HL Hmax. unfold parseFloat.
  rewrite (TrimStart_ws _ _ Hws), (TrimStart_literal _ rest HL).
  pose proof (TrimStart_literal lit "" HL) as Ht.
  rewrite append_nil_r in Ht. rewrite Ht.
  destruct (scan_literal_complete lit rest HL) as [x [r [E L]]].
  destruct (scan_literal_sound _ _ _ E) as [p [Es [Hp Ep]]].
  assert (Hlen : String.length p = String.length lit).
  { pose proof (Hmax p r Es Hp) as M.
    apply (f_equal String.length) in Es. rewrite !length_append in Es. lia. }
  symmetry in Es. destruct (append_same_length _ _ _ _ Es Hlen) as [-> ->].
  rewrite E, Ep. split; [reflexivity|].
  apply (scan_literal_valid _ _ _ Ep).
Qed.

(** The value that is read from a literal is its value. *)
Lemma SignedIntegerValue_scan (s : string) (n : Z) :
  SignedIntegerValue s n ->
  exists neg ds, split_sign s = (neg, ds) /\ DecimalDigits ds
                 /\ n = (if neg then - digits_value 0 ds
                         else digits_value 0 ds).
Proof.
  intros [ds H|ds H|ds H].
  - exists false, ds. split; [apply split_sign_digits_only; exact H|].
    split; [exact H|reflexivity].
  - exists false, ds. split; [reflexivity|]. split; [exact H|reflexivity].
  - exists true, ds. split; [reflexivity|]. split; [exact H|reflexivity].
Qed.

Lemma ExponentValue_part (pe : string) (n : Z) :
  ExponentValue pe n -> opt ExponentPart pe.
Proof.
  intros [|s n' H|s n' H]; [left; reflexivity| |]; right;
    [apply EP_e|apply EP_E];
    destruct H; [apply SI_digits|apply SI_plus|apply SI_minus
                |apply SI_digits|apply SI_plus|apply SI_minus]; assumption.
Qed.

Lemma scan_exponent_value (pe : string) (n : Z) :
  ExponentValue pe n -> pe <> "" -> scan_exponent pe = Some (n, "").
Proof.
  intros H Hne.
  assert (G : exists s, SignedIntegerValue s n
               /\ scan_exponent pe
                  = (let '(neg, s2) := split_sign s in
                     match span_digits s2 with
                     | (EmptyString, _) => None
                     | (ds, r) =>
                         Some (if neg then (- digits_value 0 ds)%Z
                               else digits_value 0 ds, r)
                     end)).
  { destruct H as [|s n' Hs|s n' Hs]; [congruence| |]; exists s;
      (split; [exact Hs|reflexivity]). }
  destruct G as [s [Hs ->]].
  destruct (SignedIntegerValue_scan s n Hs) as [neg [ds [-> [Hd ->]]]].
  apply DecimalDigits_all in Hd. destruct Hd as [Hd Hd'].
  pose proof (span_digits_exact ds "" Hd eq_refl) as E.
  rewrite append_nil_r in E. rewrite E.
  destruct ds; [congruence|reflexivity].
Qed.

Lemma scan_unsigned_value (u : string) (v : option (Z * Z)) :
  UnsignedValue u v ->
  StrUnsignedDecimalLiteral u
  /\ scan_unsigned u
     = Some (match v with
             | Some (m, e) => ScDecimal m e
             | None => ScInfinity
             end, "").
Proof.
  intros [|pm i f pe n HM HE].
  - split; [constructor|reflexivity].
  - pose proof (ExponentValue_part pe n HE) as Hopt.
    split; [apply (Mantissa_literal _ _ _ _ HM Hopt)|].
    unfold scan_unsigned. rewrite (Mantissa_no_Infinity _ _ _ pe HM).
    rewrite (scan_mantissa_exact _ _ _ pe HM)
      by (apply opt_exponent_ends_mantissa; exact Hopt).
    destruct pe as [|c pe].
    + inversion HE; subst. reflexivity.
    + rewrite (scan_exponent_value _ _ HE) by discriminate. reflexivity.
Qed.

Lemma LiteralValue_literal (lit : string) (neg : bool)
      (v : option (Z * Z)) :
  LiteralValue lit neg v -> StrDecimalLiteral lit.
Proof.
  intros [u v' H|u v' H|u v' H];
    destruct (scan_unsigned_value u v' H) as [L _];
    [apply SDL_unsigned|apply SDL_plus|apply SDL_minus]; exact L.
Qed.

Lemma parseFloat_value (lit : string) (neg : bool) (v : option (Z * Z)) :
  LiteralValue lit neg v -> parseFloat lit = StringNumericValue neg v.
Proof.
  intros H. pose proof (LiteralValue_literal lit neg v H) as HL.
  unfold parseFloat.
  pose proof (TrimStart_literal lit "" HL) as Ht.
  rewrite append_nil_r in Ht. rewrite Ht. unfold scan_literal.
  destruct H as [u v H|u v H|u v H];
    destruct (scan_unsigned_value u v H) as [L E].
  - pose proof (literal_split_sign u "" L) as Hs.
    rewrite append_nil_r in Hs. rewrite Hs, E.
    destruct v as [[m e]|]; reflexivity.
  - change (split_sign ("+" ++ u)) with (false, u). cbv beta iota.
    rewrite E. destruct v as [[m e]|]; reflexivity.
  - change (split_sign ("-" ++ u)) with (true, u). cbv beta iota.
    rewrite E. destruct v as [[m e]|]; reflexivity.
Qed.

End StrFacts.

(** ** Facts on [Array.prototype.sort] *)

Module SortFacts.

Import Num Ordering NumFacts.

Lemma lex_compare_spec (k1 k2 : Z * Z) :
  match lex_compare k1 k2 with
  | Gt => lex_gt k1 k2
  | Eq => k1 = k2
  | Lt => lex_gt k2 k1
  end.
Proof.
  unfold lex_compare, lex_gt. destruct k1 as [a1 b1], k2 as [a2 b2]. simpl.
  destruct (Z.compare_spec a1 a2); [|lia|lia].
  destruct (Z.compare_spec b1 b2); [|lia|lia].
  congruence.
Qed.

Lemma ltb_zero_sign (v : number) :
  ltb zero (if isNaN v then zero else v)
  = match sign_of v with Gt => true | _ => false end.
Proof. destruct v as [s|s| |s m e]; try destruct s; reflexivity. Qed.

Section Permuting.

Context {A : Type}.
Variable comparefn : A -> A -> number.

Lemma insert_perm (x : A) (l : list A) :
  Permutation (Arr.insert comparefn x l) (x :: l).
Proof.
  induction l as [|y l IH]; simpl; [reflexivity|].
  destruct (ltb zero (Arr.SortCompare comparefn x y)); [|reflexivity].
  rewrite IH. apply perm_swap.
Qed.

Lemma sort_perm (l : list A) : Permutation (Arr.sort comparefn l) l.
Proof.
  induction l as [|x l IH]; simpl; [reflexivity|].
  rewrite insert_perm. constructor. exact IH.
Qed.

End Permuting.

Section Sorting.

Context {A : Type}.
Variable comparefn : A -> A -> number.

(** The elements that are sorted, each with a pair of integers, and a
    comparator that orders them by these pairs, the greater first. *)
Variable P : A -> Prop.
Variable key : A -> Z * Z.
Hypothesis comparefn_spec : forall a b,
  P a -> P b -> sign_of (comparefn a b) = lex_compare (key b) (key a).

Lemma insert_tagged_sorted (x : nat * A) (l : list (nat * A)) :
  P (snd x) ->
  Forall (fun y => (fst x < fst y)%nat /\ P (snd y)) l ->
  StronglySorted (precedes key) l ->
  StronglySorted (precedes key) (Arr.insert (tagged_cmp comparefn) x l).
Proof.
  intros Px Hl Hs. induction Hs as [|y l Hs IH Hy]; simpl.
  - repeat constructor.
  - inversion Hl as [|? ? [Hlt Py] Hl']; subst.
    unfold Arr.SortCompare. rewrite ltb_zero_sign.
    unfold tagged_cmp at 1. rewrite (comparefn_spec _ _ Px Py).
    pose proof (lex_compare_spec (key (snd y)) (key (snd x))) as C.
    destruct (lex_compare (key (snd y)) (key (snd x))).
    + constructor; [constructor; assumption|].
      constructor; [right; split; [congruence|exact Hlt]|].
      rewrite Forall_forall in *. intros z Hz.
      destruct (Hy z Hz) as [G|[E L]]; [left; congruence|].
      right. split; [congruence|]. destruct (Hl' z Hz). assumption.
    + constructor; [constructor; assumption|].
      constructor; [left; exact C|].
      rewrite Forall_forall in *. intros z Hz.
      destruct (Hy z Hz) as [G|[E L]].
      * left. unfold lex_gt in *. lia.
      * left. rewrite <- E. exact C.
    + constructor; [apply IH; exact Hl'|].
      rewrite Forall_forall in *. intros z Hz.
      apply (Permutation_in _ (insert_perm (tagged_cmp comparefn) x l)) in Hz.
      destruct Hz as [<-|Hz]; [left; exact C|apply Hy; exact Hz].
Qed.

Lemma tag_from_snd (n : nat) (l : list A) : map snd (tag_from n l) = l.
Proof.
  revert n. induction l as [|x l IH]; intros n; simpl; [reflexivity|].
  f_equal. apply IH.
Qed.

Lemma tag_from_fst (n : nat) (l : list A) :
  map fst (tag_from n l) = seq n (List.length l).
Proof.
  revert n. induction l as [|x l IH]; intros n; simpl; [reflexivity|].
  f_equal. apply IH.
Qed.

Lemma tag_from_nth (n : nat) (l : list A) :
  Forall (fun e => (n <= fst e)%nat /\ nth_error l (fst e - n) = Some (snd e))
         (tag_from n l).
Proof.
  revert n. induction l as [|x l IH]; intros n; simpl; constructor.
  - simpl. rewrite Nat.sub_diag. split; [lia|reflexivity].
  - eapply Forall_impl; [|apply (IH (S n))]. intros [i a]; simpl.
    intros [Hi Hn]. split; [lia|].
    replace (i - n)%nat with (S (i - S n)) by lia. exact Hn.
Qed.

Lemma sort_tagged_sorted (n : nat) (l : list A) :
  Forall P l ->
  StronglySorted (precedes key)
    (Arr.sort (tagged_cmp comparefn) (tag_from n l)).
Proof.
  intros Hl. revert n. induction Hl as [|x l Px Hl IH]; intros n; simpl.
  - constructor.
  - apply insert_tagged_sorted; [exact Px| |apply IH].
    apply (Permutation_Forall
           (Permutation_sym
              (sort_perm (tagged_cmp comparefn) (tag_from (S n) l)))).
    pose proof (tag_from_nth (S n) l) as Hn.
    rewrite Forall_forall in *. intros [i a] Hi. simpl.
    destruct (Hn _ Hi) as [Hle He]. simpl in Hle, He.
    split; [lia|]. apply Hl. eapply nth_error_In. exact He.
Qed.

Lemma insert_tagged_snd (x : nat * A) (l : list (nat * A)) :
  map snd (Arr.insert (tagged_cmp comparefn) x l)
  = Arr.insert comparefn (snd x) (map snd l).
Proof.
  induction l as [|y l IH]; simpl; [reflexivity|].
  unfold Arr.SortCompare, tagged_cmp at 1.
  destruct (ltb zero _); simpl; [f_equal; exact IH|reflexivity].
Qed.

Lemma sort_tagged_snd (l : list (nat * A)) :
  map snd (Arr.sort (tagged_cmp comparefn) l) = Arr.sort comparefn (map snd l).
Proof.
  induction l as [|x l IH]; simpl; [reflexivity|].
  rewrite insert_tagged_snd, IH. reflexivity.
Qed.

(** The sorted array as a list of positions of the array: all of them,
    each once, in the order of the pairs and then of the positions. *)
Lemma sort_positions (l : list A) :
  Forall P l ->
  exists st : list (nat * A),
    Arr.sort comparefn l = map snd st
    /\ Permutation (map fst st) (seq 0 (List.length l))
    /\ Forall (fun e => nth_error l (fst e) = Some (snd e)) st
    /\ StronglySorted (precedes key) st.
Proof.
  intros Hl. exists (Arr.sort (tagged_cmp comparefn) (tag_from 0 l)).
  split; [|split; [|split]].
  - rewrite sort_tagged_snd, tag_from_snd. reflexivity.
  - rewrite <- (tag_from_fst 0 l). apply Permutation_map, sort_perm.
  - apply (Permutation_Forall
           (Permutation_sym
              (sort_perm (tagged_cmp comparefn) (tag_from 0 l)))).
    eapply Forall_impl; [|apply tag_from_nth]. intros [i a]; simpl.
    rewrite Nat.sub_0_r. intros [_ H]; exact H.
  - apply sort_tagged_sorted; exact Hl.
Qed.

(** The sort is the stable sort: a list that is a permutation of the
array with its positions, in the order of the comparator and then of the
positions, is the sorted array. *)
Lemma precedes_asym (x y : nat * A) :
  precedes key x y -> precedes key y x -> False.
Proof.
  unfold precedes. intros [H|[E H]] [H'|[E' H']].
  - unfold lex_gt in *. lia.
  - rewrite E' in H. unfold lex_gt in H. lia.
  - rewrite E in H'. unfold lex_gt in H'. lia.
  - lia.
Qed.

Lemma sorted_unique (l1 l2 : list (nat * A)) :
  StronglySorted (precedes key) l1 -> StronglySorted (precedes key) l2 ->
  Permutation l1 l2 -> l1 = l2.
Proof.
  intros H1. revert l2. induction H1 as [|x l1 H1 IH Hx]; intros l2 H2 Hp.
  - apply Permutation_nil in Hp. congruence.
  - destruct H2 as [|y l2 H2 Hy].
    + apply Permutation_sym, Permutation_nil in Hp. discriminate.
    + rewrite Forall_forall in Hx, Hy.
      assert (E : x = y).
      { assert (Ix : In x (y :: l2))
          by (apply (Permutation_in _ Hp); left; reflexivity).
        assert (Iy : In y (x :: l1))
          by (apply (Permutation_in _ (Permutation_sym Hp)); left;
              reflexivity).
        destruct Ix as [Ex|Ix]; [congruence|].
        destruct Iy as [Ey|Iy]; [assumption|].
        exfalso. exact (precedes_asym x y (Hx y Iy) (Hy x Ix)). }
      subst y. f_equal. apply IH; [exact H2|].
      apply Permutation_cons_inv with (a := x). exact Hp.
Qed.

Lemma sort_unique (l : list A) (st : list (nat * A)) :
  Forall P l ->
  Permutation st (tag_from 0 l) ->
  StronglySorted (precedes key) st ->
  map snd st = Arr.sort comparefn l.
Proof.
  intros Hl Hp Hs.
  transitivity (map snd (Arr.sort (tagged_cmp comparefn) (tag_from 0 l))).
  - f_equal. apply sorted_unique; [exact Hs| |].
    + apply sort_tagged_sorted; exact Hl.
    + rewrite Hp. symmetry. apply sort_perm.
  - rewrite sort_tagged_snd, tag_from_snd. reflexivity.
Qed.

End Sorting.

End SortFacts.

(** ** Facts on objects *)

Module ObjFacts.

Import Obj.

Lemma has_false (o : obj) (k : string) :
  has o k = false <-> ~ In k (keys o).
Proof.
  unfold has. induction o as [|[k' v'] o IH]; simpl.
  - split; [intros _ []|reflexivity].
  - destruct (String.eqb_spec k' k) as [->|Hne].
    + split; [discriminate|]. intros H. exfalso. apply H. left. reflexivity.
    + rewrite IH. split; [intros H [E|I]; [congruence|auto]|auto].
Qed.

Lemma get_replace_same (o : obj) (k : string) (v : value) :
  has o k = true -> get (replace o k v) k = Some v.
Proof.
  unfold has. induction o as [|[k' v'] o IH]; simpl; [discriminate|].
  destruct (String.eqb_spec k' k) as [->|Hne]; simpl.
  - rewrite String.eqb_refl. reflexivity.
  - destruct (String.eqb_spec k' k); [contradiction|]. exact IH.
Qed.

Lemma get_replace_other (o : obj) (k k' : string) (v : value) :
  k' <> k -> get (replace o k v) k' = get o k'.
Proof.
  intros Hne. induction o as [|[k0 v0] o IH]; simpl; [reflexivity|].
  destruct (String.eqb_spec k0 k) as [->|H0]; simpl.
  - destruct (String.eqb_spec k k'); [congruence|reflexivity].
  - rewrite IH. reflexivity.
Qed.

Lemma get_insert_index (o : obj) (i : Z) (k k' : string) (v : value) :
  has o k = false ->
  get (insert_index o i k v) k' = if String.eqb k k' then Some v else get o k'.
Proof.
  unfold has. induction o as [|[k0 v0] o IH]; simpl; [reflexivity|].
  destruct (String.eqb_spec k0 k) as [->|H0]; [discriminate|]. intros Hk.
  destruct (array_index k0) as [j|]; [destruct (j <? i)|]; simpl;
    try rewrite (IH Hk);
    destruct (String.eqb_spec k k') as [->|]; try reflexivity;
    destruct (String.eqb_spec k0 k'); congruence.
Qed.

Lemma get_app_last (o : obj) (k k' : string) (v : value) :
  get (o ++ [(k, v)]) k'
  = match get o k' with
    | Some w => Some w
    | None => if String.eqb k k' then Some v else None
    end.
Proof.
  induction o as [|[k0 v0] o IH]; simpl; [reflexivity|].
  destruct (String.eqb k0 k'); [reflexivity|exact IH].
Qed.

(** A property that was defined is read back, and the others are as they
    were. *)
Lemma get_define_same (o : obj) (k : string) (v : value) :
  get (define o k v) k = Some v.
Proof.
  unfold define. destruct (has o k) eqn:H.
  - apply get_replace_same; exact H.
  - destruct (array_index k).
    + rewrite get_insert_index, String.eqb_refl by exact H. reflexivity.
    + rewrite get_app_last, String.eqb_refl. unfold has in H.
      destruct (get o k); [discriminate|reflexivity].
Qed.

Lemma get_define_other (o : obj) (k k' : string) (v : value) :
  k' <> k -> get (define o k v) k' = get o k'.
Proof.
  intros Hne. unfold define. destruct (has o k) eqn:H.
  - apply get_replace_other; exact Hne.
  - destruct (array_index k).
    + rewrite get_insert_index by exact H.
      destruct (String.eqb_spec k k'); [congruence|reflexivity].
    + rewrite get_app_last.
      destruct (String.eqb_spec k k'); [congruence|].
      destruct (get o k'); reflexivity.
Qed.

Lemma copy_props_filter (excluded : list string) (source : obj) :
  forall target,
    copy_props target source excluded
    = copy_props target
        (filter (fun kv => negb (excluded_by excluded (fst kv))) source) [].
Proof.
  unfold copy_props, excluded_by.
  induction source as [|[k v] source IH]; intros target; simpl;
    [reflexivity|].
  destruct (existsb (String.eqb k) excluded); simpl; apply IH.
Qed.

Lemma get_copy_props_excluded (excluded : list string) (k : string)
      (source : obj) :
  excluded_by excluded k = true ->
  forall target, get (copy_props target source excluded) k = get target k.
Proof.
  intros Hk. unfold copy_props.
  induction source as [|[k0 v0] source IH]; intros target; simpl;
    [reflexivity|].
  destruct (existsb (String.eqb k0) excluded) eqn:E; [apply IH|].
  rewrite IH. apply get_define_other. intros ->.
  unfold excluded_by in Hk. congruence.
Qed.

Lemma wf_keys_mid (ks1 ks2 : list string) (k : string) :
  wf_keys (ks1 ++ k :: ks2) = true ->
  ~ In k ks1 /\ Forall (fun k' => key_before k' k = true) ks1.
Proof.
  induction ks1 as [|k0 ks1 IH]; simpl; intros H.
  - split; [intros []|constructor].
  - apply andb_prop in H. destruct H as [H Hw].
    apply andb_prop in H. destruct H as [Hn Hb].
    destruct (IH Hw) as [Hin Hall].
    rewrite negb_true_iff, existsb_app in Hn. apply orb_false_elim in Hn.
    destruct Hn as [_ Hn]. simpl in Hn. apply orb_false_elim in Hn.
    destruct Hn as [Hn _].
    rewrite forallb_app in Hb. apply andb_prop in Hb. destruct Hb as [_ Hb].
    simpl in Hb. apply andb_prop in Hb. destruct Hb as [Hb _].
    split.
    + intros [E|I]; [|exact (Hin I)]. subst k0.
      rewrite String.eqb_refl in Hn. discriminate.
    + constructor; assumption.
Qed.

Lemma insert_index_last (o : obj) (i : Z) (k : string) (v : value) :
  array_index k = Some i ->
  Forall (fun k' => key_before k' k = true) (keys o) ->
  insert_index o i k v = o ++ [(k, v)].
Proof.
  intros Hi. induction o as [|[k0 v0] o IH]; simpl; intros H;
    [reflexivity|].
  inversion H as [|? ? Hb H']; subst. unfold key_before in Hb.
  rewrite Hi in Hb. destruct (array_index k0) as [j|]; [|discriminate].
  rewrite Hb, (IH H'). reflexivity.
Qed.

Lemma define_last (o : obj) (k : string) (v : value) :
  ~ In k (keys o) ->
  Forall (fun k' => key_before k' k = true) (keys o) ->
  define o k v = o ++ [(k, v)].
Proof.
  intros Hin Hall. unfold define.
  apply has_false in Hin. rewrite Hin.
  destruct (array_index k) as [i|] eqn:Hi; [|reflexivity].
  apply insert_index_last; assumption.
Qed.

(** Copying the properties of an object into an empty one gives the
    object back. *)
Lemma copy_props_all (source : obj) : forall target,
  wf_keys (keys (target ++ source)) = true ->
  copy_props target source [] = target ++ source.
Proof.
  unfold copy_props.
  induction source as [|[k v] source IH]; intros target H; simpl.
  - rewrite app_nil_r. reflexivity.
  - unfold keys in H. rewrite map_app in H. simpl in H.
    destruct (wf_keys_mid _ _ _ H) as [Hin Hall].
    rewrite (define_last target k v Hin Hall).
    rewrite IH; rewrite <- app_assoc; [reflexivity|].
    unfold keys. rewrite map_app. exact H.
Qed.

Lemma wf_keys_filter (f : string -> bool) (ks : list string) :
  wf_keys ks = true -> wf_keys (filter f ks) = true.
Proof.
  induction ks as [|k ks IH]; simpl; intros H; [reflexivity|].
  apply andb_prop in H. destruct H as [H Hw].
  apply andb_prop in H. destruct H as [Hn Hb].
  destruct (f k); [|apply IH; exact Hw]. simpl.
  rewrite (IH Hw), andb_true_r. apply andb_true_intro. split.
  - rewrite negb_true_iff in *.
    destruct (existsb (String.eqb k) (filter f ks)) eqn:E; [|reflexivity].
    apply existsb_exists in E. destruct E as [x [Hx Ex]].
    apply filter_In in Hx. destruct Hx as [Hx _].
    rewrite <- Hn. symmetry. apply existsb_exists. exists x. auto.
  - apply forallb_forall. intros x Hx. apply filter_In in Hx.
    rewrite forallb_forall in Hb. apply Hb. tauto.
Qed.

Lemma keys_filter {V : Type} (f : string -> bool) (o : list (string * V)) :
  keys (filter (fun kv => f (fst kv)) o) = filter f (keys o).
Proof.
  unfold keys. induction o as [|[k v] o IH]; simpl; [reflexivity|].
  destruct (f k); simpl; rewrite IH; reflexivity.
Qed.

Lemma keys_to_obj (r : row) : keys (to_obj r) = keys r.
Proof. unfold keys, to_obj. rewrite map_map. reflexivity. Qed.

Lemma filter_to_obj (f : string -> bool) (r : row) :
  filter (fun kv => f (fst kv)) (to_obj r)
  = to_obj (filter (fun kv => f (fst kv)) r).
Proof.
  unfold to_obj. induction r as [|[k s] r IH]; simpl; [reflexivity|].
  destruct (f k); simpl; rewrite IH; reflexivity.
Qed.

(** Defining a property that a filter drops does not show through the
    filter. *)
Lemma filter_define (f : string -> bool) (o : obj) (k : string) (v : value) :
  f k = false ->
  filter (fun kv => f (fst kv)) (define o k v)
  = filter (fun kv => f (fst kv)) o.
Proof.
  intros Hk. unfold define. destruct (has o k).
  - induction o as [|[k0 v0] o IH]; simpl; [reflexivity|].
    destruct (String.eqb_spec k0 k) as [->|Hne]; simpl.
    + rewrite Hk. reflexivity.
    + rewrite IH. reflexivity.
  - destruct (array_index k) as [i|].
    + induction o as [|[k0 v0] o IH]; simpl; [rewrite Hk; reflexivity|].
      destruct (array_index k0) as [j|]; [destruct (j <? i)|]; simpl;
        rewrite ?Hk, ?IH; reflexivity.
    + rewrite filter_app. simpl. rewrite Hk. apply app_nil_r.
Qed.

Lemma field_filter (f : string -> bool) (r : row) (k : string) :
  f k = true -> field (filter (fun kv => f (fst kv)) r) k = field r k.
Proof.
  intros Hk. induction r as [|[k0 s] r IH]; simpl; [reflexivity|].
  destruct (String.eqb_spec k0 k) as [->|Hne].
  - rewrite Hk. simpl. rewrite String.eqb_refl. reflexivity.
  - destruct (f k0); simpl; [|exact IH].
    destruct (String.eqb_spec k0 k); [contradiction|exact IH].
Qed.

End ObjFacts.

(** ** Facts on the server *)

Module ServerFacts.

Import Num Obj Ordering Server NumFacts SortFacts ObjFacts.

(** A sort value is a Number that is not [NaN]. *)
Lemma sort_val_valid (k : string) (r : row) :
  valid (sort_val k r) = true /\ isNaN (sort_val k r) = false.
Proof.
  unfold sort_val.
  destruct (isNaN (Str.parseFloat (ToString (field r k)))) eqn:E.
  - split; reflexivity.
  - split; [apply StrFacts.parseFloat_valid|exact E].
Qed.

(** The comparisons of Numbers that are not [NaN], on the integers. *)
Lemma geb_ord_key (x y : number) :
  valid x = true -> valid y = true -> isNaN x = false -> isNaN y = false ->
  geb x y = true <-> ord_key y <= ord_key x.
Proof.
  intros Vx Vy Nx Ny. unfold geb, SFleb.
  rewrite (compare_ord_key y x Vy Vx Ny Nx).
  destruct (Z.compare_spec (ord_key y) (ord_key x)); split;
    intros; try reflexivity; try discriminate; lia.
Qed.

Lemma eqb_ord_key (x y : number) :
  valid x = true -> valid y = true -> isNaN x = false -> isNaN y = false ->
  eqb x y = true <-> ord_key x = ord_key y.
Proof.
  intros Vx Vy Nx Ny. unfold eqb, SFeqb.
  rewrite (compare_ord_key x y Vx Vy Nx Ny).
  destruct (Z.compare_spec (ord_key x) (ord_key y)); split;
    intros; try reflexivity; try discriminate; lia.
Qed.

Lemma comparator_spec (a b : obj) :
  annotated a -> annotated b ->
  sign_of (comparator a b) = lex_compare (obj_key b) (obj_key a).
Proof.
  intros [[pa [Ea [Va Na]]] [sa [Fa [Wa Ma]]]]
         [[pb [Eb [Vb Nb]]] [sb [Fb [Wb Mb]]]].
  unfold comparator, obj_key, lex_compare, minus. rewrite Ea, Eb, Fa, Fb.
  cbn [strict_neq ToNumber fst snd]. unfold neqb, SFeqb.
  rewrite (compare_ord_key pb pa Vb Va Nb Na).
  destruct (ord_key pb ?= ord_key pa) eqn:C; cbn [negb].
  - apply sub_sign; assumption.
  - rewrite sub_sign by assumption. exact C.
  - rewrite sub_sign by assumption. exact C.
Qed.

Lemma get_decorate (pk sk : string) (r : row) :
  get (decorate pk sk r) "__primary" = Some (VNumber (sort_val pk r))
  /\ get (decorate pk sk r) "__secondary" = Some (VNumber (sort_val sk r)).
Proof.
  unfold decorate. split.
  - rewrite get_define_other by discriminate. apply get_define_same.
  - apply get_define_same.
Qed.

Lemma decorate_annotated (pk sk : string) (r : row) :
  annotated (decorate pk sk r).
Proof.
  destruct (get_decorate pk sk r) as [Ep Es].
  split; eexists; (split; [eassumption|apply sort_val_valid]).
Qed.

Lemma obj_key_decorate (pk sk : string) (r : row) :
  obj_key (decorate pk sk r) = row_key pk sk r.
Proof.
  destruct (get_decorate pk sk r) as [Ep Es].
  unfold obj_key, row_key. rewrite Ep, Es. reflexivity.
Qed.

(** A decorated row, stripped, is the row without the fields that have
    the names of the annotations. *)
Lemma strip_decorate (pk sk : string) (r : row) :
  wf_row r = true ->
  strip (decorate pk sk r) = to_obj (without_annotations r).
Proof.
  intros Hwf. unfold strip. rewrite copy_props_filter.
  unfold decorate.
  fold reserved.
  rewrite !(filter_define (fun k => negb (excluded_by reserved k)))
    by reflexivity.
  rewrite (copy_props_all (to_obj r) [])
    by (rewrite app_nil_l, keys_to_obj; exact Hwf).
  rewrite app_nil_l.
  rewrite (filter_to_obj (fun k => negb (excluded_by reserved k))).
  rewrite (copy_props_all _ []); [reflexivity|].
  rewrite app_nil_l, keys_to_obj.
  rewrite (keys_filter (fun k => negb (excluded_by reserved k))).
  apply wf_keys_filter. exact Hwf.
Qed.

Lemma StronglySorted_firstn {A : Type} (R : A -> A -> Prop) (n : nat)
      (l : list A) :
  StronglySorted R l -> StronglySorted R (firstn n l).
Proof.
  intros H. revert n. induction H as [|x l H IH Hx]; intros [|n]; simpl;
    try constructor.
  - apply IH.
  - rewrite Forall_forall in *. intros y Hy. apply Hx.
    rewrite <- (firstn_skipn n l). apply in_or_app. left. exact Hy.
Qed.

Lemma StronglySorted_map {A B : Type} (R : A -> A -> Prop)
      (R' : B -> B -> Prop) (f : A -> B) (l : list A) :
  (forall x y, In x l -> In y l -> R x y -> R' (f x) (f y)) ->
  StronglySorted R l -> StronglySorted R' (map f l).
Proof.
  intros Hf H. induction H as [|x l H IH Hx]; simpl; constructor.
  - apply IH. intros a b Ha Hb. apply Hf; right; assumption.
  - rewrite Forall_forall in *. intros y Hy.
    apply in_map_iff in Hy. destruct Hy as [a [<- Ha]].
    apply Hf; [left; reflexivity|right; exact Ha|apply Hx; exact Ha].
Qed.

Lemma StronglySorted_nth {A : Type} (R : A -> A -> Prop) (l : list A) :
  StronglySorted R l ->
  forall a b x y, (a < b)%nat ->
    nth_error l a = Some x -> nth_error l b = Some y -> R x y.
Proof.
  intros H. induction H as [|z l H IH Hz]; intros a b x y Hab Ha Hb.
  - destruct a; discriminate.
  - destruct b as [|b]; [lia|]. simpl in Hb. destruct a as [|a].
    + simpl in Ha. inversion Ha; subst.
      rewrite Forall_forall in Hz. apply Hz. eapply nth_error_In; exact Hb.
    + simpl in Ha. apply (IH a b); [lia|assumption|assumption].
Qed.

(** The ranking by positions: the records of [top5] are the rows at the
    first five positions of an ordering of all the positions by
    [ranked_before], each without the fields that have the names of the
    annotations. *)
Lemma top5_positions (pk sk : string) (rows : list row) :
  forallb wf_row rows = true ->
  exists idx rest : list nat,
    top5 pk sk rows
    = map (fun i => to_obj (without_annotations (nth i rows []))) idx
    /\ Permutation (idx ++ rest) (seq 0 (List.length rows))
    /\ List.length idx = Nat.min 5 (List.length rows)
    /\ StronglySorted (ranked_before pk sk rows) idx.
Proof.
  intros Hwf. rewrite forallb_forall in Hwf.
  set (mapped := map (decorate pk sk) rows).
  assert (HP : Forall annotated mapped).
  { apply Forall_forall. intros o Ho. apply in_map_iff in Ho.
    destruct Ho as [r [<- _]]. apply decorate_annotated. }
  destruct (sort_positions comparator annotated obj_key comparator_spec
              mapped HP) as [st [Es [Pst [Nst Sst]]]].
  assert (Hst : forall e, In e st ->
            (fst e < List.length rows)%nat
            /\ snd e = decorate pk sk (nth (fst e) rows [])).
  { rewrite Forall_forall in Nst. intros e He. specialize (Nst e He).
    unfold mapped in Nst. rewrite nth_error_map in Nst.
    destruct (nth_error rows (fst e)) as [r|] eqn:En; [|discriminate].
    split; [apply nth_error_Some; congruence|].
    simpl in Nst. inversion Nst. f_equal. symmetry.
    apply nth_error_nth. exact En. }
  exists (map fst (firstn 5 st)), (map fst (skipn 5 st)).
  split; [|split; [|split]].
  - unfold top5. fold mapped. rewrite Es. unfold Arr.slice. simpl skipn.
    change (5 - 0)%nat with 5%nat. rewrite firstn_map, !map_map.
    apply map_ext_in. intros e He.
    assert (Hin : In e st).
    { rewrite <- (firstn_skipn 5 st). apply in_or_app. left. exact He. }
    destruct (Hst e Hin) as [Hlt ->].
    apply strip_decorate. apply Hwf. apply nth_In. exact Hlt.
  - rewrite <- map_app, firstn_skipn.
    unfold mapped in Pst. rewrite length_map in Pst. exact Pst.
  - rewrite length_map, length_firstn. f_equal.
    apply Permutation_length in Pst.
    rewrite !length_map, length_seq in Pst. unfold mapped in Pst.
    rewrite length_map in Pst. exact Pst.
  - apply StronglySorted_map with (R := precedes obj_key).
    + intros x y Hx Hy Hxy.
      assert (Hx' : In x st).
      { rewrite <- (firstn_skipn 5 st). apply in_or_app. left. exact Hx. }
      assert (Hy' : In y st).
      { rewrite <- (firstn_skipn 5 st). apply in_or_app. left. exact Hy. }
      destruct (Hst x Hx') as [_ Ex]. destruct (Hst y Hy') as [_ Ey].
      unfold precedes in Hxy. rewrite Ex, Ey, !obj_key_decorate in Hxy.
      exact Hxy.
    + apply StronglySorted_firstn. exact Sst.
Qed.

(** The three types and their fields. *)
Lemma valid_type_cases (type : query) :
  valid_type type = true ->
  (type = QString "magic" /\ sort_fields type = (MAGIC_KEY, VALUE_KEY))
  \/ (type = QString "physical"
      /\ sort_fields type = (PHYSICAL_KEY, VALUE_KEY))
  \/ (type = QString "value" /\ sort_fields type = (VALUE_KEY, MAGIC_KEY)).
Proof.
  unfold valid_type, includes. simpl. destruct type as [|s|]; simpl;
    try discriminate.
  unfold sort_fields, type_is.
  destruct (String.eqb_spec s "magic") as [->|]; [auto|].
  destruct (String.eqb_spec s "physical") as [->|]; [auto|].
  destruct (String.eqb_spec s "value") as [->|]; [auto|]. discriminate.
Qed.

Lemma sort_fields_not_reserved (type : query) :
  valid_type type = true ->
  excluded_by reserved (fst (sort_fields type)) = false
  /\ excluded_by reserved (snd (sort_fields type)) = false.
Proof.
  intros H.
  destruct (valid_type_cases type H) as [[_ ->]|[[_ ->]|[_ ->]]];
    split; reflexivity.
Qed.

Lemma sort_val_without_annotations (key : string) (r : row) :
  excluded_by reserved key = false ->
  sort_val key (without_annotations r) = sort_val key r.
Proof.
  intros H. unfold sort_val, without_annotations.
  rewrite (field_filter (fun k => negb (excluded_by reserved k)));
    [reflexivity|]. rewrite H. reflexivity.
Qed.

Lemma field_none (r : row) (k : string) :
  field r k = None <-> ~ In k (keys r).
Proof.
  induction r as [|[k' s] r IH]; simpl.
  - split; [intros _ []|reflexivity].
  - destruct (String.eqb_spec k' k) as [->|Hne].
    + split; [discriminate|]. intros H. exfalso. apply H. left. reflexivity.
    + rewrite IH. split; [intros H [E|I]; [congruence|auto]|auto].
Qed.

(** A row that has no field with the name of an annotation. *)
Lemma without_annotations_id (r : row) :
  field r "__primary" = None -> field r "__secondary" = None ->
  without_annotations r = r.
Proof.
  intros H1 H2. apply field_none in H1, H2. unfold without_annotations.
  induction r as [|[k s] r IH]; [reflexivity|]. cbn [filter fst].
  assert (E : excluded_by reserved k = false).
  { unfold excluded_by, reserved. cbn [existsb].
    destruct (String.eqb_spec k "__primary") as [->|];
      [exfalso; apply H1; left; reflexivity|].
    destruct (String.eqb_spec k "__secondary") as [->|];
      [exfalso; apply H2; left; reflexivity|]. reflexivity. }
  rewrite E. cbn [negb]. f_equal.
  apply IH; intros I; [apply H1|apply H2]; right; exact I.
Qed.

Lemma map_nth_positions {A : Type} (d : A) (l : list A) :
  map (fun i => nth i l d) (seq 0 (List.length l)) = l.
Proof.
  induction l as [|x l IH]; simpl; [reflexivity|].
  f_equal. rewrite <- seq_shift, map_map. exact IH.
Qed.

Lemma rank_top5 (type : query) (rows : list row) :
  rank type rows
  = top5 (fst (sort_fields type)) (snd (sort_fields type)) rows.
Proof. unfold rank. destruct (sort_fields type). reflexivity. Qed.

Lemma top5_length (pk sk : string) (rows : list row) :
  List.length (top5 pk sk rows) = Nat.min 5 (List.length rows).
Proof.
  unfold top5, Arr.slice. simpl skipn. rewrite length_map, length_firstn.
  rewrite (Permutation_length (sort_perm comparator _)), length_map.
  reflexivity.
Qed.

(** The comparisons of the sort values of two rows, from their pairs of
    integers. *)
Lemma row_key_order (pk sk : string) (r1 r2 : row) :
  lex_gt (row_key pk sk r1) (row_key pk sk r2)
  \/ row_key pk sk r1 = row_key pk sk r2 ->
  geb (sort_val pk r1) (sort_val pk r2) = true
  /\ (eqb (sort_val pk r1) (sort_val pk r2) = true ->
      geb (sort_val sk r1) (sort_val sk r2) = true).
Proof.
  intros H.
  destruct (sort_val_valid pk r1) as [V1 N1].
  destruct (sort_val_valid pk r2) as [V2 N2].
  destruct (sort_val_valid sk r1) as [W1 M1].
  destruct (sort_val_valid sk r2) as [W2 M2].
  rewrite (geb_ord_key _ _ V1 V2 N1 N2), (eqb_ord_key _ _ V1 V2 N1 N2),
    (geb_ord_key _ _ W1 W2 M1 M2).
  unfold lex_gt, row_key in H. simpl in H.
  destruct H as [[H|[H1 H2]]|H]; [lia|lia|].
  inversion H. lia.
Qed.

Lemma row_key_equal (pk sk : string) (r1 r2 : row) :
  eqb (sort_val pk r1) (sort_val pk r2) = true ->
  eqb (sort_val sk r1) (sort_val sk r2) = true ->
  row_key pk sk r1 = row_key pk sk r2.
Proof.
  destruct (sort_val_valid pk r1) as [V1 N1].
  destruct (sort_val_valid pk r2) as [V2 N2].
  destruct (sort_val_valid sk r1) as [W1 M1].
  destruct (sort_val_valid sk r2) as [W2 M2].
  rewrite (eqb_ord_key _ _ V1 V2 N1 N2), (eqb_ord_key _ _ W1 W2 M1 M2).
  unfold row_key. intros -> ->. reflexivity.
Qed.

Lemma get_to_obj (r : row) (k : string) :
  get (to_obj r) k = option_map VString (field r k).
Proof.
  induction r as [|[k' s] r IH]; simpl; [reflexivity|].
  destruct (String.eqb k' k); [reflexivity|exact IH].
Qed.

(** Positions that are, with others, all the positions of an array. *)
Lemma positions_facts (idx rest : list nat) (n : nat) :
  Permutation (idx ++ rest) (seq 0 n) ->
  NoDup idx /\ Forall (fun i => (i < n)%nat) idx.
Proof.
  intros H. split.
  - apply (NoDup_app_remove_r idx rest).
    apply (Permutation_NoDup (Permutation_sym H)). apply seq_NoDup.
  - apply Forall_forall. intros i Hi.
    assert (I : In i (seq 0 n)).
    { apply (Permutation_in _ H). apply in_or_app. left. exact Hi. }
    apply in_seq in I. lia.
Qed.

End ServerFacts.

Import Num Obj Server Grammar Ordering.
Import NumFacts StrFacts SortFacts ObjFacts ServerFacts.

(** ** More facts on the ranking *)

Module RankFacts.

Import RankOrder.

Lemma ltb_ord_key (x y : number) :
  valid x = true -> valid y = true -> isNaN x = false -> isNaN y = false ->
  ltb x y = true <-> ord_key x < ord_key y.
Proof.
  intros Vx Vy Nx Ny. unfold ltb, SFltb.
  rewrite (compare_ord_key x y Vx Vy Nx Ny).
  destruct (Z.compare_spec (ord_key x) (ord_key y)); split;
    intros; try reflexivity; try discriminate; lia.
Qed.

(** What the sort reads from a Number against zero. *)
Lemma ltb_zero_r_sign (v : number) :
  ltb (if isNaN v then zero else v) zero
  = match sign_of v with Lt => true | _ => false end.
Proof. destruct v as [s|s| |s m e]; try destruct s; reflexivity. Qed.

Lemma eqb_zero_sign (v : number) :
  eqb (if isNaN v then zero else v) zero
  = match sign_of v with Eq => true | _ => false end.
Proof. destruct v as [s|s| |s m e]; try destruct s; reflexivity. Qed.

(** Lists in a strict order are determined by their elements. *)
Lemma StronglySorted_unique {A : Type} (R : A -> A -> Prop)
      (l1 l2 : list A) :
  (forall x y, In x l1 -> In y l1 -> R x y -> R y x -> False) ->
  StronglySorted R l1 -> StronglySorted R l2 ->
  Permutation l1 l2 -> l1 = l2.
Proof.
  intros Hasym H1. revert l2.
  induction H1 as [|x l1 H1 IH Hx]; intros l2 H2 Hp.
  - apply Permutation_nil in Hp. congruence.
  - destruct H2 as [|y l2 H2 Hy].
    + apply Permutation_sym, Permutation_nil in Hp. discriminate.
    + rewrite Forall_forall in Hx, Hy.
      assert (Iy : In y (x :: l1))
        by (apply (Permutation_in _ (Permutation_sym Hp)); left;
            reflexivity).
      assert (E : x = y).
      { assert (Ix : In x (y :: l2))
          by (apply (Permutation_in _ Hp); left; reflexivity).
        destruct Ix as [Ex|Ix]; [congruence|].
        destruct Iy as [Ey|Iy']; [assumption|].
        exfalso.
        apply (Hasym x y); [left; reflexivity|right; exact Iy'| |].
        - apply Hx; exact Iy'.
        - apply Hy; exact Ix. }
      subst y. f_equal. apply IH; [|exact H2|].
      * intros a b Ha Hb. apply Hasym; right; assumption.
      * apply Permutation_cons_inv with (a := x). exact Hp.
Qed.

Lemma StronglySorted_app_cross {A : Type} (R : A -> A -> Prop)
      (l1 l2 : list A) :
  StronglySorted R (l1 ++ l2) ->
  forall x y, In x l1 -> In y l2 -> R x y.
Proof.
  induction l1 as [|a l1 IH]; simpl; intros H x y Hx Hy; [destruct Hx|].
  inversion H as [|? ? H' Ha]; subst.
  destruct Hx as [<-|Hx].
  - rewrite Forall_forall in Ha. apply Ha. apply in_or_app. right. exact Hy.
  - apply IH; assumption.
Qed.

Lemma lex_gt_asym (k1 k2 : Z * Z) : lex_gt k1 k2 -> lex_gt k2 k1 -> False.
Proof. unfold lex_gt. lia. Qed.

Lemma ranked_before_asym (pk sk : string) (rows : list row) (i j : nat) :
  ranked_before pk sk rows i j -> ranked_before pk sk rows j i -> False.
Proof.
  unfold ranked_before. intros [H|[E H]] [H'|[E' H']].
  - exact (lex_gt_asym _ _ H H').
  - rewrite E' in H. unfold lex_gt in H. lia.
  - rewrite E in H'. unfold lex_gt in H'. lia.
  - lia.
Qed.

(** The ranking by positions, with all the positions: the records of
    [top5] are the rows at the first five positions of the ordering of all
    the positions by [ranked_before]. *)
Lemma top5_all_positions (pk sk : string) (rows : list row) :
  forallb wf_row rows = true ->
  exists all : list nat,
    Permutation all (seq 0 (List.length rows))
    /\ StronglySorted (ranked_before pk sk rows) all
    /\ top5 pk sk rows
       = map (fun i => to_obj (without_annotations (nth i rows [])))
             (firstn 5 all).
Proof.
  intros Hwf. rewrite forallb_forall in Hwf.
  set (mapped := map (decorate pk sk) rows).
  assert (HP : Forall annotated mapped).
  { apply Forall_forall. intros o Ho. apply in_map_iff in Ho.
    destruct Ho as [r [<- _]]. apply decorate_annotated. }
  destruct (sort_positions comparator annotated obj_key comparator_spec
              mapped HP) as [st [Es [Pst [Nst Sst]]]].
  assert (Hst : forall e, In e st ->
            (fst e < List.length rows)%nat
            /\ snd e = decorate pk sk (nth (fst e) rows [])).
  { rewrite Forall_forall in Nst. intros e He. specialize (Nst e He).
    unfold mapped in Nst. rewrite nth_error_map in Nst.
    destruct (nth_error rows (fst e)) as [r|] eqn:En; [|discriminate].
    split; [apply nth_error_Some; congruence|].
    simpl in Nst. inversion Nst. f_equal. symmetry.
    apply nth_error_nth. exact En. }
  exists (map fst st). split; [|split].
  - unfold mapped in Pst. rewrite length_map in Pst. exact Pst.
  - apply StronglySorted_map with (R := precedes obj_key); [|exact Sst].
    intros x y Hx Hy Hxy.
    destruct (Hst x Hx) as [_ Ex]. destruct (Hst y Hy) as [_ Ey].
    unfold precedes in Hxy. rewrite Ex, Ey, !obj_key_decorate in Hxy.
    exact Hxy.
  - unfold top5. fold mapped. rewrite Es. unfold Arr.slice. simpl skipn.
    change (5 - 0)%nat with 5%nat. rewrite <- !firstn_map, !map_map.
    f_equal. apply map_ext_in. intros e He.
    destruct (Hst e He) as [Hlt ->].
    apply strip_decorate. apply Hwf. apply nth_In. exact Hlt.
Qed.

(** The ordering of the positions is the only one. *)
Lemma positions_unique (pk sk : string) (rows : list row)
      (l1 l2 : list nat) :
  StronglySorted (ranked_before pk sk rows) l1 ->
  StronglySorted (ranked_before pk sk rows) l2 ->
  Permutation l1 l2 -> l1 = l2.
Proof.
  apply StronglySorted_unique. intros x y _ _.
  apply ranked_before_asym.
Qed.

(** [goes_before] is [ranked_before]. *)
Lemma goes_before_ranked (pk sk : string) (rows : list row) (i j : nat) :
  goes_before pk sk rows i j <-> ranked_before pk sk rows i j.
Proof.
  unfold goes_before, ranked_before, row_key, lex_gt. cbv zeta.
  set (a := nth i rows []). set (b := nth j rows []).
  destruct (sort_val_valid pk a) as [V1 N1].
  destruct (sort_val_valid pk b) as [V2 N2].
  destruct (sort_val_valid sk a) as [W1 M1].
  destruct (sort_val_valid sk b) as [W2 M2].
  rewrite (ltb_ord_key _ _ V2 V1 N2 N1), (eqb_ord_key _ _ V1 V2 N1 N2),
    (ltb_ord_key _ _ W2 W1 M2 M1), (eqb_ord_key _ _ W1 W2 M1 M2).
  cbn [fst snd]. split.
  - intros [H|[E [H|[E' H]]]]; [left; lia|left; lia|].
    right. split; [congruence|exact H].
  - intros [[H|[E H]]|[E H]]; [left; lia|right; split; [exact E|left; lia]|].
    injection E as E1 E2. right. split; [exact E1|]. right.
    split; [exact E2|exact H].
Qed.

Lemma StronglySorted_iff {A : Type} (R R' : A -> A -> Prop) (l : list A) :
  (forall x y, R x y -> R' x y) ->
  StronglySorted R l -> StronglySorted R' l.
Proof.
  intros H S. induction S as [|x l S IH Hx]; constructor; [exact IH|].
  eapply Forall_impl; [|exact Hx]. intros y. apply H.
Qed.

Lemma tie_row_key (pk sk : string) (a b : row) :
  tie pk sk a b = true <-> row_key pk sk a = row_key pk sk b.
Proof.
  unfold tie, row_key.
  destruct (sort_val_valid pk a) as [V1 N1].
  destruct (sort_val_valid pk b) as [V2 N2].
  destruct (sort_val_valid sk a) as [W1 M1].
  destruct (sort_val_valid sk b) as [W2 M2].
  rewrite andb_true_iff, (eqb_ord_key _ _ V1 V2 N1 N2),
    (eqb_ord_key _ _ W1 W2 M1 M2).
  split; [intros [-> ->]; reflexivity|intros H; inversion H; auto].
Qed.

Lemma StronglySorted_impl_in {A : Type} (R R' : A -> A -> Prop)
      (l : list A) :
  (forall x y, In x l -> In y l -> R x y -> R' x y) ->
  StronglySorted R l -> StronglySorted R' l.
Proof.
  intros H S. rewrite <- (map_id l).
  apply (StronglySorted_map R R' (fun x => x)); assumption.
Qed.

(** The records of [top5] from any ordering of the positions. *)
Lemma top5_of_ordering (pk sk : string) (rows : list row)
      (all : list nat) :
  forallb wf_row rows = true ->
  Permutation all (seq 0 (List.length rows)) ->
  StronglySorted (ranked_before pk sk rows) all ->
  top5 pk sk rows
  = map (fun i => to_obj (without_annotations (nth i rows [])))
        (firstn 5 all).
Proof.
  intros Hwf Hp Hs.
  destruct (top5_all_positions pk sk rows Hwf) as [all0 [Hp0 [Hs0 E]]].
  rewrite E. do 2 f_equal.
  apply (positions_unique pk sk rows); [exact Hs0|exact Hs|].
  rewrite Hp0. symmetry. exact Hp.
Qed.

(** The ranking by the order of the sort values. *)
Lemma rank_all_positions (type : query) (rows : list row) :
  forallb wf_row rows = true ->
  exists all : list nat,
    Permutation all (seq 0 (List.length rows))
    /\ StronglySorted
         (goes_before (fst (sort_fields type)) (snd (sort_fields type)) rows)
         all
    /\ rank type rows
       = map (fun i => to_obj (without_annotations (nth i rows [])))
             (firstn 5 all).
Proof.
  intros Hwf. rewrite rank_top5.
  destruct (top5_all_positions (fst (sort_fields type))
              (snd (sort_fields type)) rows Hwf) as [all [Hp [Hs E]]].
  exists all. split; [exact Hp|]. split; [|exact E].
  apply (StronglySorted_iff _ _ _
           (fun x y => proj2 (goes_before_ranked _ _ rows x y)) Hs).
Qed.

(** Two arrays with the same keys position by position are ranked at
    the same positions. *)
Lemma top5_same_positions (pk sk : string) (rows rows' : list row) :
  forallb wf_row rows = true ->
  forallb wf_row rows' = true ->
  List.length rows = List.length rows' ->
  (forall i, (i < List.length rows)%nat ->
     row_key pk sk (nth i rows []) = row_key pk sk (nth i rows' [])) ->
  exists idx : list nat,
    top5 pk sk rows
    = map (fun i => to_obj (without_annotations (nth i rows []))) idx
    /\ top5 pk sk rows'
       = map (fun i => to_obj (without_annotations (nth i rows' []))) idx.
Proof.
  intros Hwf Hwf' Hlen Hkey.
  destruct (top5_all_positions pk sk rows Hwf) as [all [Hp [Hs E]]].
  exists (firstn 5 all). split; [exact E|].
  apply top5_of_ordering; [exact Hwf'|rewrite <- Hlen; exact Hp|].
  assert (Hk : forall x, In x all ->
            row_key pk sk (nth x rows []) = row_key pk sk (nth x rows' [])).
  { intros x Hx. apply Hkey.
    apply (Permutation_in _ Hp) in Hx. apply in_seq in Hx. lia. }
  apply (StronglySorted_impl_in (ranked_before pk sk rows)); [|exact Hs].
  intros x y Hx Hy. unfold ranked_before.
  rewrite (Hk x Hx), (Hk y Hy). tauto.
Qed.

(** A Number of a sign is not zero. *)
Lemma sign_nonzero (x : number) (s : bool) :
  sign_of x = (if s then Lt else Gt) ->
  eqb x zero = false /\ ltb zero x = negb s /\ ltb x zero = s.
Proof.
  destruct x as [[|]|[|]| |[|] m e]; destruct s; simpl; intros H;
    try discriminate; repeat split.
Qed.

(** The sort value of a field that starts with a decimal literal. *)
Lemma sort_val_numeric_prefix (key : string) (r : row)
      (ws lit rest : string) (neg : bool) (v : option (Z * Z)) :
  field r key = Some (String.append ws (String.append lit rest)) ->
  StrWhiteSpace ws ->
  LiteralValue lit neg v ->
  ends_literal rest = true ->
  sort_val key r = StringNumericValue neg v.
Proof.
  intros Hf Hws Hval Hrest.
  pose proof (LiteralValue_literal lit neg v Hval) as Hlit.
  destruct (parseFloat_longest ws lit rest Hws Hlit
              (longest_before_other lit rest Hlit Hrest)) as [E N].
  unfold sort_val. rewrite Hf. cbn [ToString]. rewrite E, N.
  apply parseFloat_value. exact Hval.
Qed.

(** The sort value of a field that does not parse. *)
Lemma sort_val_unparsable (key : string) (r : row) :
  unparsable (field r key) -> sort_val key r = zero.
Proof.
  intros [H|[H|[s [H Hno]]]]; unfold sort_val; rewrite H;
    [reflexivity|reflexivity|].
  cbn [ToString]. rewrite (parseFloat_no_literal s Hno). reflexivity.
Qed.

End RankFacts.

Import RankOrder RankFacts.

(** ** Examples

    The examples of the specification, and values of [parseFloat]. *)

Example rank_magic_example :
  rank (QString "magic")
       [[(MAGIC_KEY, "10"); (VALUE_KEY, "5")];
        [(MAGIC_KEY, "10"); (VALUE_KEY, "9")];
        [(MAGIC_KEY, ""); (VALUE_KEY, "1")]]
  = [[(MAGIC_KEY, VString "10"); (VALUE_KEY, VString "9")];
     [(MAGIC_KEY, VString "10"); (VALUE_KEY, VString "5")];
     [(MAGIC_KEY, VString ""); (VALUE_KEY, VString "1")]].
Proof. vm_compute. reflexivity. Qed.

Example rank_value_example :
  rank (QString "value")
       [[(VALUE_KEY, "3"); (MAGIC_KEY, "7")];
        [(VALUE_KEY, "3"); (MAGIC_KEY, "9")]]
  = [[(VALUE_KEY, VString "3"); (MAGIC_KEY, VString "9")];
     [(VALUE_KEY, VString "3"); (MAGIC_KEY, VString "7")]].
Proof. vm_compute. reflexivity. Qed.

Example rank_six_rows :
  map (fun o => get o "ID")
      (rank (QString "physical")
         [[("ID", "a"); (PHYSICAL_KEY, "1")];
          [("ID", "b"); (PHYSICAL_KEY, "-Infinity")];
          [("ID", "c"); (PHYSICAL_KEY, "3e2")];
          [("ID", "d"); (PHYSICAL_KEY, "x")];
          [("ID", "e"); (PHYSICAL_KEY, "0.5")];
          [("ID", "f"); (PHYSICAL_KEY, "1.0")]])
  = [Some (VString "c"); Some (VString "a"); Some (VString "f");
     Some (VString "e"); Some (VString "d")].
Proof. vm_compute. reflexivity. Qed.

Example parseFloat_values :
  Str.parseFloat "12abc" = S754_finite false 6755399441055744 (-49)
  /\ Str.parseFloat " 3.5x" = S754_finite false 7881299347898368 (-51)
  /\ Str.parseFloat "0.1" = S754_finite false 7205759403792794 (-56)
  /\ Str.parseFloat "-.5e-1" = S754_finite true 7205759403792794 (-57)
  /\ Str.parseFloat "1e400" = S754_infinity false
  /\ Str.parseFloat "5e-324" = S754_finite false 1 (-1074)
  /\ Str.parseFloat "-0" = S754_zero true
  /\ Str.parseFloat "-Infinity!" = S754_infinity true
  /\ Str.parseFloat "" = S754_nan
  /\ Str.parseFloat "." = S754_nan
  /\ Str.parseFloat "e5" = S754_nan
  /\ Str.parseFloat "undefined" = S754_nan.
Proof. vm_compute. repeat split. Qed.

(** ** The properties of the ranking

    Rows are objects: in the statements their keys are distinct and in
    property order ([wf_row]). *)

(** C1: for every list of rows and every valid type, the records of the
    ranking are string-valued records in two-level descending order: of
    two adjacent records, the primary sort value of the first is [>=]
    that of the second, and when the two are equal ([===] on Numbers) the
    secondary sort value of the first is [>=] that of the second. *)
Theorem rank_sorted_descending (type : query) (rows : list row) :
  valid_type type = true ->
  forallb wf_row rows = true ->
  exists out : list row,
    rank type rows = map to_obj out
    /\ forall i r1 r2,
         nth_error out i = Some r1 ->
         nth_error out (S i) = Some r2 ->
         geb (sort_val (fst (sort_fields type)) r1)
             (sort_val (fst (sort_fields type)) r2) = true
         /\ (eqb (sort_val (fst (sort_fields type)) r1)
                 (sort_val (fst (sort_fields type)) r2) = true ->
             geb (sort_val (snd (sort_fields type)) r1)
                 (sort_val (snd (sort_fields type)) r2) = true).
Proof.
  intros Hv Hwf. rewrite rank_top5.
  destruct (sort_fields_not_reserved type Hv) as [Hp Hs].
  set (pk := fst (sort_fields type)) in *.
  set (sk := snd (sort_fields type)) in *.
  destruct (top5_positions pk sk rows Hwf) as [idx [rest [E [_ [_ Hso]]]]].
  exists (map (fun i => without_annotations (nth i rows [])) idx).
  split; [rewrite E, map_map; reflexivity|].
  intros i r1 r2 H1 H2. rewrite nth_error_map in H1, H2.
  destruct (nth_error idx i) as [a|] eqn:Ea; [|discriminate].
  destruct (nth_error idx (S i)) as [b|] eqn:Eb; [|discriminate].
  inversion H1; inversion H2; subst r1 r2.
  rewrite !(sort_val_without_annotations pk) by exact Hp.
  rewrite !(sort_val_without_annotations sk) by exact Hs.
  apply row_key_order.
  assert (R : ranked_before pk sk rows a b).
  { apply (StronglySorted_nth _ _ Hso i (S i)); [lia|assumption|assumption]. }
  destruct R as [R|[R _]]; [left|right]; exact R.
Qed.

Lemma rank_sorted_descending_witness :
  let rows := [[(MAGIC_KEY, "10"); (VALUE_KEY, "5")];
               [(MAGIC_KEY, "10"); (VALUE_KEY, "9")];
               [(MAGIC_KEY, ""); (VALUE_KEY, "1")]] in
  valid_type (QString "magic") = true
  /\ forallb wf_row rows = true
  /\ exists out : list row,
       rank (QString "magic") rows = map to_obj out
       /\ forall i r1 r2,
            nth_error out i = Some r1 ->
            nth_error out (S i) = Some r2 ->
            geb (sort_val MAGIC_KEY r1) (sort_val MAGIC_KEY r2) = true
            /\ (eqb (sort_val MAGIC_KEY r1) (sort_val MAGIC_KEY r2) = true ->
                geb (sort_val VALUE_KEY r1) (sort_val VALUE_KEY r2) = true).
Proof.
  intros rows. split; [reflexivity|]. split; [reflexivity|].
  apply (rank_sorted_descending (QString "magic") rows); reflexivity.
Defined.

(** C2: for every list of rows and every type, the ranking has
    [min(5, length of the input)] records; the empty input gives the
    empty ranking. *)
Theorem rank_length (type : query) (rows : list row) :
  List.length (rank type rows) = Nat.min 5 (List.length rows)
  /\ rank type [] = [].
Proof.
  split.
  - rewrite rank_top5. apply top5_length.
  - rewrite rank_top5. reflexivity.
Qed.

(** C3: the two sort keys of a row are the annotations [__primary] and
    [__secondary] that the decoration writes: the Number [parseFloat]
    reads from the String of the field (the value of the decimal literal
    it starts with), and exactly [+0] when the parse fails, that is when
    the field is missing, when it is the empty String, and when no prefix
    of the trimmed String is a decimal literal.  A key is never [NaN].  No row is left aside for its
    fields: the ranking is the first five of all the rows in the order
    of their keys, so a sheet of at most five rows is ranked whole, and
    rows rank the same with ["0"] in place of the fields that do not
    parse.  Once the rows are fetched the handler answers with the
    ranking, whatever the fields hold. *)
Theorem unparsable_is_zero (type : query) (rows rows' : list row) (r : row)
        (pk sk : string) :
  sort_fields type = (pk, sk) ->
  get (decorate pk sk r) "__primary"
  = Some (VNumber
            (if isNaN (Str.parseFloat (ToString (field r pk))) then zero
             else Str.parseFloat (ToString (field r pk))))
  /\ get (decorate pk sk r) "__secondary"
     = Some (VNumber
               (if isNaN (Str.parseFloat (ToString (field r sk))) then zero
                else Str.parseFloat (ToString (field r sk))))
  /\ (unparsable (field r pk) ->
      get (decorate pk sk r) "__primary" = Some (VNumber zero))
  /\ (unparsable (field r sk) ->
      get (decorate pk sk r) "__secondary" = Some (VNumber zero))
  /\ (forall key name ws lit rest neg v,
        (key = pk /\ name = "__primary")
        \/ (key = sk /\ name = "__secondary") ->
        field r key = Some (String.append ws (String.append lit rest)) ->
        StrWhiteSpace ws -> LiteralValue lit neg v ->
        ends_literal rest = true ->
        get (decorate pk sk r) name
        = Some (VNumber (StringNumericValue neg v)))
  /\ (exists x y,
        get (decorate pk sk r) "__primary" = Some (VNumber x)
        /\ get (decorate pk sk r) "__secondary" = Some (VNumber y)
        /\ isNaN x = false /\ isNaN y = false
        /\ x = sort_val pk r /\ y = sort_val sk r)
  /\ (forallb wf_row rows = true ->
      exists all : list nat,
        Permutation all (seq 0 (List.length rows))
        /\ StronglySorted (goes_before pk sk rows) all
        /\ rank type rows
           = map (fun i => to_obj (without_annotations (nth i rows [])))
                 (firstn 5 all))
  /\ (forallb wf_row rows = true ->
      (List.length rows <= 5)%nat ->
      forall i, (i < List.length rows)%nat ->
        In (to_obj (without_annotations (nth i rows []))) (rank type rows))
  /\ (forallb wf_row rows = true ->
      forallb wf_row rows' = true ->
      List.length rows = List.length rows' ->
      (forall i key,
         (i < List.length rows)%nat -> key = pk \/ key = sk ->
         field (nth i rows' []) key = field (nth i rows []) key
         \/ (unparsable (field (nth i rows []) key)
             /\ field (nth i rows' []) key = Some "0")) ->
      exists idx : list nat,
        rank type rows
        = map (fun i => to_obj (without_annotations (nth i rows []))) idx
        /\ rank type rows'
           = map (fun i => to_obj (without_annotations (nth i rows' [])))
                 idx)
  /\ (valid_type type = true ->
      run (top_characters type) (Rows rows)
      = ({| status := 200; json := Top (rank type rows) type pk sk |},
         1%nat)).
Proof.
  intros Hf.
  assert (Hpk : pk = fst (sort_fields type)) by (rewrite Hf; reflexivity).
  assert (Hsk : sk = snd (sort_fields type)) by (rewrite Hf; reflexivity).
  destruct (get_decorate pk sk r) as [Gp Gs].
  assert (Hzero : forall key (x : row),
            unparsable (field x key) -> sort_val key x = zero).
  { intros key x [H|[H|[s [H Hno]]]]; unfold sort_val; rewrite H;
      [reflexivity|reflexivity|].
    cbn [ToString]. rewrite (parseFloat_no_literal s Hno). reflexivity. }
  split; [exact Gp|]. split; [exact Gs|].
  split; [intros H; rewrite Gp, (Hzero pk r H); reflexivity|].
  split; [intros H; rewrite Gs, (Hzero sk r H); reflexivity|].
  split.
  { intros key name ws lit rest neg v Hkey Hfield Hws Hval Hrest.
    pose proof (sort_val_numeric_prefix key r ws lit rest neg v
                  Hfield Hws Hval Hrest) as Hs.
    destruct Hkey as [[-> ->]|[-> ->]]; [rewrite Gp|rewrite Gs];
      rewrite Hs; reflexivity. }
  split.
  { exists (sort_val pk r), (sort_val sk r).
    split; [exact Gp|]. split; [exact Gs|].
    split; [apply sort_val_valid|]. split; [apply sort_val_valid|].
    split; reflexivity. }
  split.
  { intros Hwf. subst pk sk. apply rank_all_positions. exact Hwf. }
  split.
  { intros Hwf Hlen i Hi.
    destruct (rank_all_positions type rows Hwf) as [all [Hp [_ E]]].
    rewrite E, firstn_all2
      by (rewrite (Permutation_length Hp), length_seq; exact Hlen).
    apply (in_map (fun i => to_obj (without_annotations (nth i rows [])))).
    apply (Permutation_in _ (Permutation_sym Hp)). apply in_seq. lia. }
  split.
  { intros Hwf Hwf' Hlen Hrows. rewrite !rank_top5. rewrite <- Hpk, <- Hsk.
    apply top5_same_positions; try assumption.
    intros i Hi.
    assert (Hsv : forall key, key = pk \/ key = sk ->
              sort_val key (nth i rows []) = sort_val key (nth i rows' [])).
    { intros key Hkey.
      destruct (Hrows i key Hi Hkey) as [E|[U E]].
      - unfold sort_val. rewrite E. reflexivity.
      - rewrite (Hzero key _ U). unfold sort_val. rewrite E. reflexivity. }
    unfold row_key.
    rewrite (Hsv pk (or_introl eq_refl)), (Hsv sk (or_intror eq_refl)).
    reflexivity. }
  intros Hv. unfold top_characters. fold (valid_type type). rewrite Hv.
  rewrite rank_top5. simpl negb. cbv iota. rewrite Hf. subst pk sk.
  rewrite Hf. reflexivity.
Qed.

Lemma unparsable_is_zero_witness :
  let r := [(MAGIC_KEY, "abc"); (VALUE_KEY, "1")] in
  sort_fields (QString "magic") = (MAGIC_KEY, VALUE_KEY)
  /\ unparsable (field r MAGIC_KEY)
  /\ get (decorate MAGIC_KEY VALUE_KEY r) "__primary" = Some (VNumber zero)
  /\ get (decorate MAGIC_KEY VALUE_KEY r) "__secondary"
     = Some (VNumber (S754_finite false 4503599627370496 (-52)))
  /\ run (top_characters (QString "magic")) (Rows [r])
     = ({| status := 200;
           json := Top [[(MAGIC_KEY, VString "abc");
                         (VALUE_KEY, VString "1")]]
                       (QString "magic") MAGIC_KEY VALUE_KEY |}, 1%nat).
Proof.
  intros r.
  assert (U : unparsable (field r MAGIC_KEY)).
  { right. right. exists "abc". split; [reflexivity|].
    intros p q E HL.
    destruct (scan_literal_complete p q HL) as [x [t [Hx _]]].
    rewrite <- E in Hx. discriminate Hx. }
  assert (L : LiteralValue "1" false (Some (1, 0))).
  { apply LV_unsigned. apply (UV_decimal "1" "1" "" "" 0); [|apply EV_none].
    apply (M_int "1"). apply DD_digit. reflexivity. }
  pose proof (unparsable_is_zero (QString "magic") [r] [r] r
                MAGIC_KEY VALUE_KEY eq_refl)
    as [_ [_ [H [_ [P [_ [_ [_ [_ R]]]]]]]]].
  split; [reflexivity|]. split; [exact U|]. split; [exact (H U)|].
  split; [|exact (R eq_refl)].
  exact (P VALUE_KEY "__secondary" "" "1" "" false (Some (1, 0))
           (or_intror (conj eq_refl eq_refl)) eq_refl WS_none L eq_refl).
Defined.

(** C4: the choice of the fields is the fixed table: [magic] sorts by the
    magic attack and then by the value, [physical] by the physical attack
    and then by the value, [value] by the value and then by the magic
    attack; a valid type is one of the three. *)
Theorem sort_fields_table (type : query) :
  sort_fields (QString "magic") = (MAGIC_KEY, VALUE_KEY)
  /\ sort_fields (QString "physical") = (PHYSICAL_KEY, VALUE_KEY)
  /\ sort_fields (QString "value") = (VALUE_KEY, MAGIC_KEY)
  /\ MAGIC_KEY = "魔法攻擊" /\ PHYSICAL_KEY = "物理攻擊"
  /\ VALUE_KEY = "價值"
  /\ (valid_type type = true ->
      type = QString "magic" \/ type = QString "physical"
      \/ type = QString "value").
Proof.
  repeat (split; [reflexivity|]). intros H.
  destruct (valid_type_cases type H) as [[E _]|[[E _]|[E _]]]; auto.
Qed.

Lemma sort_fields_table_witness :
  valid_type (QString "physical") = true
  /\ (QString "physical" = QString "magic"
      \/ QString "physical" = QString "physical"
      \/ QString "physical" = QString "value").
Proof.
  split; [reflexivity|].
  apply (sort_fields_table (QString "physical")). reflexivity.
Defined.

(** C5, as stated, fails: a row that has a field with the name of an
    annotation comes out without it, so the record of the ranking is a
    copy of no row. *)
Lemma rank_copies_rows_counterexample :
  let rows := [[("__primary", "7"); (VALUE_KEY, "3")]] in
  valid_type (QString "value") = true
  /\ forallb wf_row rows = true
  /\ ~ (forall o, In o (rank (QString "value") rows) ->
                  exists r, In r rows /\ o = to_obj r).
Proof.
  intros rows. split; [reflexivity|]. split; [reflexivity|]. intros H.
  destruct (H [(VALUE_KEY, VString "3")]) as [r [Hr E]];
    [left; reflexivity|].
  destruct Hr as [<-|[]]. discriminate E.
Qed.

(** C5, amended: for every list of rows that have no field named
    [__primary] or [__secondary] and every valid type, each record of the
    ranking is the copy of a row, at a position of its own, with the
    fields of the row, their order and their values; no record of the
    ranking holds an annotation. *)
Theorem rank_copies_rows (type : query) (rows : list row) :
  valid_type type = true ->
  forallb wf_row rows = true ->
  (forall r, In r rows ->
     field r "__primary" = None /\ field r "__secondary" = None) ->
  exists idx : list nat,
    NoDup idx
    /\ Forall (fun i => (i < List.length rows)%nat) idx
    /\ rank type rows = map (fun i => to_obj (nth i rows [])) idx
    /\ forall o, In o (rank type rows) ->
         get o "__primary" = None /\ get o "__secondary" = None
         /\ exists r, In r rows /\ o = to_obj r.
Proof.
  intros _ Hwf Hno. rewrite rank_top5.
  destruct (top5_positions (fst (sort_fields type)) (snd (sort_fields type))
              rows Hwf) as [idx [rest [E [Hp _]]]].
  destruct (positions_facts _ _ _ Hp) as [Hnd Hlt].
  assert (E' : top5 (fst (sort_fields type)) (snd (sort_fields type)) rows
               = map (fun i => to_obj (nth i rows [])) idx).
  { rewrite E. apply map_ext_in. intros i Hi. f_equal.
    rewrite Forall_forall in Hlt.
    destruct (Hno (nth i rows [])) as [H1 H2];
      [apply nth_In; apply Hlt; exact Hi|].
    apply without_annotations_id; assumption. }
  exists idx. split; [exact Hnd|]. split; [exact Hlt|].
  split; [exact E'|].
  intros o Ho. rewrite E' in Ho. apply in_map_iff in Ho.
  destruct Ho as [i [<- Hi]]. rewrite Forall_forall in Hlt.
  assert (Hin : In (nth i rows []) rows) by (apply nth_In, Hlt, Hi).
  destruct (Hno _ Hin) as [H1 H2].
  rewrite !get_to_obj, H1, H2.
  split; [reflexivity|]. split; [reflexivity|].
  exists (nth i rows []). split; [exact Hin|reflexivity].
Qed.

Lemma rank_copies_rows_witness :
  let rows := [[(VALUE_KEY, "3"); (MAGIC_KEY, "7")];
               [(VALUE_KEY, "3"); (MAGIC_KEY, "9")]] in
  valid_type (QString "value") = true
  /\ forallb wf_row rows = true
  /\ exists idx : list nat,
       NoDup idx
       /\ Forall (fun i => (i < List.length rows)%nat) idx
       /\ rank (QString "value") rows
          = map (fun i => to_obj (nth i rows [])) idx
       /\ forall o, In o (rank (QString "value") rows) ->
            get o "__primary" = None /\ get o "__secondary" = None
            /\ exists r, In r rows /\ o = to_obj r.
Proof.
  intros rows. split; [reflexivity|]. split; [reflexivity|].
  apply (rank_copies_rows (QString "value") rows);
    [reflexivity|reflexivity|].
  intros r [<-|[<-|[]]]; split; reflexivity.
Defined.

(** C6: for every list of rows and every valid type, two records of the
    ranking whose primary sort values are equal and whose secondary sort
    values are equal come in the order their rows have in the input: the
    records are the rows at positions [idx], each position once, and of
    two such records the first has the smaller position. *)
Theorem rank_stable (type : query) (rows : list row) :
  valid_type type = true ->
  forallb wf_row rows = true ->
  exists idx : list nat,
    rank type rows
    = map (fun i => to_obj (without_annotations (nth i rows []))) idx
    /\ NoDup idx
    /\ Forall (fun i => (i < List.length rows)%nat) idx
    /\ forall a b i j,
         (a < b)%nat ->
         nth_error idx a = Some i -> nth_error idx b = Some j ->
         eqb (sort_val (fst (sort_fields type)) (nth i rows []))
             (sort_val (fst (sort_fields type)) (nth j rows [])) = true ->
         eqb (sort_val (snd (sort_fields type)) (nth i rows []))
             (sort_val (snd (sort_fields type)) (nth j rows [])) = true ->
         (i < j)%nat.
Proof.
  intros _ Hwf. rewrite rank_top5.
  destruct (top5_positions (fst (sort_fields type)) (snd (sort_fields type))
              rows Hwf) as [idx [rest [E [Hp [_ Hso]]]]].
  destruct (positions_facts _ _ _ Hp) as [Hnd Hlt].
  exists idx. split; [exact E|]. split; [exact Hnd|]. split; [exact Hlt|].
  intros a b i j Hab Ha Hb E1 E2.
  pose proof (StronglySorted_nth _ _ Hso a b i j Hab Ha Hb) as R.
  pose proof (row_key_equal _ _ _ _ E1 E2) as K.
  destruct R as [R|[_ R]]; [|exact R].
  rewrite K in R. unfold lex_gt in R. lia.
Qed.

Lemma rank_stable_witness :
  let rows := [[(MAGIC_KEY, "1"); (VALUE_KEY, "2"); ("ID", "a")];
               [(MAGIC_KEY, "3"); (VALUE_KEY, "2"); ("ID", "b")];
               [(MAGIC_KEY, "1.0"); (VALUE_KEY, "2e0"); ("ID", "c")]] in
  valid_type (QString "magic") = true
  /\ forallb wf_row rows = true
  /\ exists idx : list nat,
       rank (QString "magic") rows
       = map (fun i => to_obj (without_annotations (nth i rows []))) idx
       /\ NoDup idx
       /\ Forall (fun i => (i < List.length rows)%nat) idx
       /\ forall a b i j,
            (a < b)%nat ->
            nth_error idx a = Some i -> nth_error idx b = Some j ->
            eqb (sort_val MAGIC_KEY (nth i rows []))
                (sort_val MAGIC_KEY (nth j rows [])) = true ->
            eqb (sort_val VALUE_KEY (nth i rows []))
                (sort_val VALUE_KEY (nth j rows [])) = true ->
            (i < j)%nat.
Proof.
  intros rows. split; [reflexivity|]. split; [reflexivity|].
  apply (rank_stable (QString "magic") rows); reflexivity.
Defined.

(** C7, as stated, fails: the record that the ranking gives for a row
    with a field named [__secondary] does not occur in the input. *)
Lemma rank_within_rows_counterexample :
  let rows := [[(MAGIC_KEY, "1"); ("__secondary", "x")]] in
  valid_type (QString "magic") = true
  /\ forallb wf_row rows = true
  /\ ~ (forall o, In o (rank (QString "magic") rows) ->
                  In o (map to_obj rows)).
Proof.
  intros rows. split; [reflexivity|]. split; [reflexivity|]. intros H.
  destruct (H [(MAGIC_KEY, VString "1")]) as [E|[]]; [left; reflexivity|].
  discriminate E.
Qed.

(** C7, amended: for every list of rows that have no field named
    [__primary] or [__secondary] and every valid type, the records of the
    ranking occur in the input, as often at least as in the ranking, and
    they are all the rows, in another order, when there are at most
    five. *)
Theorem rank_within_rows (type : query) (rows : list row) :
  valid_type type = true ->
  forallb wf_row rows = true ->
  (forall r, In r rows ->
     field r "__primary" = None /\ field r "__secondary" = None) ->
  (exists others, Permutation (rank type rows ++ others) (map to_obj rows))
  /\ ((List.length rows <= 5)%nat ->
      Permutation (rank type rows) (map to_obj rows)).
Proof.
  intros _ Hwf Hno. rewrite rank_top5.
  destruct (top5_positions (fst (sort_fields type)) (snd (sort_fields type))
              rows Hwf) as [idx [rest [E [Hp [Hl _]]]]].
  destruct (positions_facts _ _ _ Hp) as [_ Hlt].
  assert (E' : top5 (fst (sort_fields type)) (snd (sort_fields type)) rows
               = map (fun i => to_obj (nth i rows [])) idx).
  { rewrite E. apply map_ext_in. intros i Hi. f_equal.
    rewrite Forall_forall in Hlt.
    destruct (Hno (nth i rows [])) as [H1 H2];
      [apply nth_In; apply Hlt; exact Hi|].
    apply without_annotations_id; assumption. }
  rewrite E'.
  assert (P : Permutation
                (map (fun i => to_obj (nth i rows [])) (idx ++ rest))
                (map to_obj rows)).
  { rewrite (Permutation_map _ Hp).
    rewrite <- (map_map (fun i => nth i rows []) to_obj).
    rewrite map_nth_positions. reflexivity. }
  split.
  - exists (map (fun i => to_obj (nth i rows [])) rest).
    rewrite <- map_app. exact P.
  - intros Hle. apply Permutation_length in Hp.
    rewrite length_app, length_seq in Hp.
    assert (Hr : rest = []) by (destruct rest; [reflexivity|simpl in Hp; lia]).
    subst rest. rewrite app_nil_r in P. exact P.
Qed.

Lemma rank_within_rows_witness :
  let rows := [[(MAGIC_KEY, "10"); (VALUE_KEY, "5")];
               [(MAGIC_KEY, "10"); (VALUE_KEY, "9")]] in
  valid_type (QString "magic") = true
  /\ forallb wf_row rows = true
  /\ (exists others,
        Permutation (rank (QString "magic") rows ++ others)
                    (map to_obj rows))
  /\ ((List.length rows <= 5)%nat ->
      Permutation (rank (QString "magic") rows) (map to_obj rows)).
Proof.
  intros rows. split; [reflexivity|]. split; [reflexivity|].
  apply (rank_within_rows (QString "magic") rows);
    [reflexivity|reflexivity|].
  intros r [<-|[<-|[]]]; split; reflexivity.
Defined.

(** C8: a type that is not one of [magic], [physical] and [value] (a
    missing one included) is answered at once with the status 400: the
    handler fetches nothing and ranks nothing.  A response that carries a
    ranking comes from a valid type, a fetch, and the fields of the
    type. *)
Theorem invalid_type_rejected (type : query) (world : fetched) :
  (valid_type type = false ->
   top_characters type
   = Respond
       {| status := 400;
          json := BadRequest
            "查詢參數錯誤：type 必須是 'magic'、'physical' 或 'value'" |}
   /\ snd (run (top_characters type) world) = 0%nat)
  /\ valid_type QUndefined = false
  /\ valid_type QNested = false
  /\ (forall s, s <> "magic" -> s <> "physical" -> s <> "value" ->
        valid_type (QString s) = false)
  /\ (forall rows t pk sk,
        json (fst (run (top_characters type) world)) = Top rows t pk sk ->
        valid_type type = true
        /\ snd (run (top_characters type) world) = 1%nat
        /\ (pk, sk) = sort_fields type
        /\ exists fetched_rows,
             world = Rows fetched_rows /\ rows = rank type fetched_rows).
Proof.
  split; [|split; [reflexivity|split; [reflexivity|split]]].
  - intros H. unfold top_characters. fold (valid_type type). rewrite H.
    split; reflexivity.
  - intros s H1 H2 H3. unfold valid_type, includes. simpl.
    destruct (String.eqb_spec s "magic"); [contradiction|].
    destruct (String.eqb_spec s "physical"); [contradiction|].
    destruct (String.eqb_spec s "value"); [contradiction|]. reflexivity.
  - intros rows t pk sk. unfold top_characters, rank.
    fold (valid_type type).
    destruct (valid_type type); simpl negb; cbv iota; [|discriminate].
    destruct (sort_fields type) as [pk' sk']. simpl.
    destruct world as [fetched_rows|message]; simpl; [|discriminate].
    intros H; inversion H; subst.
    repeat (split; [reflexivity|]). exists fetched_rows. auto.
Qed.

Lemma invalid_type_rejected_witness :
  valid_type (QString "speed") = false
  /\ top_characters (QString "speed")
     = Respond
         {| status := 400;
            json := BadRequest
              "查詢參數錯誤：type 必須是 'magic'、'physical' 或 'value'" |}
  /\ snd (run (top_characters (QString "speed")) (Rows [])) = 0%nat.
Proof.
  split; [reflexivity|].
  apply (invalid_type_rejected (QString "speed") (Rows [])). reflexivity.
Defined.

(** C9: when the String of a sort field is white space, then a decimal
    literal, then characters that do not make a longer literal with it
    (as when they start with a character that is not a digit, a dot or an
    exponent indicator: [12abc], [ 3.5x]), the key that the decoration
    writes for the field is the value of the literal: the Number nearest
    to the decimal [m * 10^e] of its digits and exponent, with its sign.
    It is not the [+0] of a failed parse: the parse does not give [NaN],
    the key is not zero when the decimal is at least [2^-1074], and it
    is the decimal itself when the decimal is a Number.  In the ranking,
    a row with such a primary field of a positive value goes before a
    row whose primary field does not parse, also when it comes after it
    in the sheet. *)
Theorem numeric_prefix_is_parsed (pk sk key name : string) (r : row)
        (ws lit rest : string) (neg : bool) (v : option (Z * Z)) :
  (key = pk /\ name = "__primary") \/ (key = sk /\ name = "__secondary") ->
  field r key = Some (String.append ws (String.append lit rest)) ->
  StrWhiteSpace ws ->
  LiteralValue lit neg v ->
  (ends_literal rest = true
   \/ forall p q, String.append lit rest = String.append p q ->
                  StrDecimalLiteral p ->
                  (String.length p <= String.length lit)%nat) ->
  get (decorate pk sk r) name = Some (VNumber (StringNumericValue neg v))
  /\ Str.parseFloat (ToString (field r key)) = StringNumericValue neg v
  /\ isNaN (Str.parseFloat (ToString (field r key))) = false
  /\ sort_val key r = StringNumericValue neg v
  /\ Str.parseFloat lit = StringNumericValue neg v
  /\ isNaN (StringNumericValue neg v) = false
  /\ (forall m e,
        v = Some (m, e) -> 0 < m -> 10 ^ Z.max (- e) 0 <= m * 2 ^ 1074 ->
        eqb (StringNumericValue neg v) zero = false
        /\ ltb zero (StringNumericValue neg v) = negb neg
        /\ ltb (StringNumericValue neg v) zero = neg)
  /\ (forall m e mf ef,
        v = Some (m, e) -> 0 < m ->
        0 < mf -> good mf ef -> ef <= 971 -> same_value m e mf ef ->
        StringNumericValue neg v = S754_finite neg (Z.to_pos mf) ef)
  /\ (v = None -> StringNumericValue neg v = Infinity neg)
  /\ (forall type r0,
        key = fst (sort_fields type) ->
        wf_row r0 = true -> wf_row r = true ->
        unparsable (field r0 key) ->
        ltb zero (StringNumericValue neg v) = true ->
        rank type [r0; r]
        = [to_obj (without_annotations r); to_obj (without_annotations r0)]).
Proof.
  intros Hkey Hf Hws Hval Hmax.
  pose proof (LiteralValue_literal lit neg v Hval) as Hlit.
  assert (Hlong : forall p q,
            String.append lit rest = String.append p q ->
            StrDecimalLiteral p ->
            (String.length p <= String.length lit)%nat).
  { destruct Hmax as [He|Hm]; [|exact Hm].
    apply longest_before_other; assumption. }
  destruct (parseFloat_longest ws lit rest Hws Hlit Hlong) as [E N].
  pose proof (parseFloat_value lit neg v Hval) as Ev.
  assert (Hs : sort_val key r = StringNumericValue neg v).
  { unfold sort_val. rewrite Hf. cbn [ToString]. rewrite E, N. exact Ev. }
  destruct (get_decorate pk sk r) as [Gp Gs].
  split.
  { destruct Hkey as [[-> ->]|[-> ->]]; [rewrite Gp|rewrite Gs];
      rewrite Hs; reflexivity. }
  split; [rewrite Hf; cbn [ToString]; rewrite E; exact Ev|].
  split; [rewrite Hf; cbn [ToString]; rewrite E; exact N|].
  split; [exact Hs|]. split; [exact Ev|].
  split; [rewrite <- Ev; exact N|].
  split.
  { intros m e -> Hm Hge. apply sign_nonzero.
    apply of_decimal_sign; assumption. }
  split.
  { intros m e mf ef -> Hm Hmf G Hef V.
    apply of_decimal_exact; assumption. }
  split; [intros ->; reflexivity|].
  intros type r0 Hk Hwf0 Hwf Hun Hpos. rewrite rank_top5, <- Hk.
  rewrite (top5_of_ordering key (snd (sort_fields type)) [r0; r]
             [1%nat; 0%nat]).
  - reflexivity.
  - cbn [forallb]. rewrite Hwf0, Hwf. reflexivity.
  - apply perm_swap.
  - apply SSorted_cons;
      [apply SSorted_cons; [apply SSorted_nil|apply Forall_nil]
      |apply Forall_cons; [|apply Forall_nil]].
    left. left. unfold row_key. cbn [nth fst].
    rewrite (sort_val_unparsable key r0 Hun), Hs.
    apply Z.lt_gt.
    apply (ltb_ord_key zero (StringNumericValue neg v));
      [reflexivity| |reflexivity| |exact Hpos];
      rewrite <- Hs; apply sort_val_valid.
Qed.

Lemma numeric_prefix_is_parsed_witness :
  let r := [(MAGIC_KEY, " 3.5x"); (VALUE_KEY, "12abc")] in
  let r0 := [(MAGIC_KEY, "x3.5"); (VALUE_KEY, "99")] in
  field r MAGIC_KEY = Some " 3.5x"
  /\ StrWhiteSpace " "
  /\ LiteralValue "3.5" false (Some (35, -1))
  /\ ends_literal "x" = true
  /\ get (decorate MAGIC_KEY VALUE_KEY r) "__primary"
     = Some (VNumber (StringNumericValue false (Some (35, -1))))
  /\ StringNumericValue false (Some (35, -1))
     = S754_finite false 7881299347898368 (-51)
  /\ eqb (StringNumericValue false (Some (35, -1))) zero = false
  /\ rank (QString "magic") [r0; r]
     = [to_obj (without_annotations r); to_obj (without_annotations r0)].
Proof.
  intros r r0.
  assert (Hws : StrWhiteSpace " ")
    by (apply WS_1; [reflexivity|apply WS_none]).
  assert (Hval : LiteralValue "3.5" false (Some (35, -1))).
  { apply LV_unsigned.
    apply (UV_decimal "3.5" "3" "5" "" 0); [|apply EV_none].
    apply (M_int_dot "3" "5").
    - apply DD_digit. reflexivity.
    - right. apply DD_digit. reflexivity. }
  assert (U : unparsable (field r0 MAGIC_KEY)).
  { right. right. exists "x3.5". split; [reflexivity|].
    intros p q E HL.
    destruct (scan_literal_complete p q HL) as [x [t [Hx _]]].
    rewrite <- E in Hx. discriminate Hx. }
  split; [reflexivity|]. split; [exact Hws|]. split; [exact Hval|].
  split; [reflexivity|].
  destruct (numeric_prefix_is_parsed MAGIC_KEY VALUE_KEY MAGIC_KEY
              "__primary" r " " "3.5" "x" false (Some (35, -1))
              (or_introl (conj eq_refl eq_refl)) eq_refl Hws Hval
              (or_introl eq_refl))
    as [G [_ [_ [_ [_ [_ [Z [X [_ R]]]]]]]]].
  split; [exact G|]. split; [|split].
  - apply (X 35 (-1) 7881299347898368 (-51)); try reflexivity; try lia.
    unfold good. lia.
  - apply (Z 35 (-1)); [reflexivity|lia|].
    change (Z.max (- -1) 0) with 1. change (10 ^ 1) with 10.
    pose proof (pow2_pos 1074 ltac:(lia)). lia.
  - apply (R (QString "magic") r0); try reflexivity. exact U.
Defined.

(** C10: a row that has a field named [__primary] or [__secondary] has
    it overwritten by the sort key when it is decorated (a Number where
    the row held a String), and stripped with it: whatever its place in
    the ranking, its record is the row without the field, and is not a
    copy of the row.  No record of a ranking has a property of these
    names. *)
Theorem annotation_field_is_dropped (type : query) (rows : list row) :
  forallb wf_row rows = true ->
  exists idx : list nat,
    rank type rows
    = map (fun i => to_obj (without_annotations (nth i rows []))) idx
    /\ NoDup idx
    /\ Forall (fun i => (i < List.length rows)%nat) idx
    /\ List.length idx = Nat.min 5 (List.length rows)
    /\ (forall o k, In o (rank type rows) -> In k reserved ->
          get o k = None)
    /\ forall i k s,
         In i idx -> In k reserved -> field (nth i rows []) k = Some s ->
         get (to_obj (nth i rows [])) k = Some (VString s)
         /\ get (decorate (fst (sort_fields type)) (snd (sort_fields type))
                          (nth i rows [])) k
            = Some (VNumber
                      (sort_val (if String.eqb k "__primary"
                                 then fst (sort_fields type)
                                 else snd (sort_fields type))
                                (nth i rows [])))
         /\ get (to_obj (without_annotations (nth i rows []))) k = None
         /\ to_obj (without_annotations (nth i rows []))
            <> to_obj (nth i rows []).
Proof.
  intros Hwf. rewrite rank_top5.
  destruct (top5_positions (fst (sort_fields type)) (snd (sort_fields type))
              rows Hwf) as [idx [rest [E [Hp [Hlen _]]]]].
  destruct (positions_facts _ _ _ Hp) as [Hnd Hlt].
  assert (Hget : forall (r : row) k,
            In k reserved -> get (to_obj (without_annotations r)) k = None).
  { intros r k Hk. rewrite get_to_obj. unfold without_annotations.
    assert (F : field (filter (fun kv => negb (excluded_by reserved (fst kv)))
                         r) k = None).
    { apply field_none. unfold keys. intros I. apply in_map_iff in I.
      destruct I as [[k' s] [Ek I]]. simpl in Ek. subst k'.
      apply filter_In in I. destruct I as [_ I]. cbn [fst] in I.
      assert (X : excluded_by reserved k = true).
      { destruct Hk as [<-|[<-|[]]]; reflexivity. }
      rewrite X in I. discriminate. }
    rewrite F. reflexivity. }
  exists idx. split; [exact E|]. split; [exact Hnd|]. split; [exact Hlt|].
  split; [exact Hlen|]. split.
  - intros o k Ho Hk. rewrite E in Ho. apply in_map_iff in Ho.
    destruct Ho as [i [<- _]]. apply Hget. exact Hk.
  - intros i k s Hi Hk Hs.
    destruct (get_decorate (fst (sort_fields type)) (snd (sort_fields type))
                (nth i rows [])) as [Gp Gs].
    split; [rewrite get_to_obj, Hs; reflexivity|].
    split; [destruct Hk as [<-|[<-|[]]]; assumption|].
    split; [apply Hget; exact Hk|].
    intros Eq. pose proof (Hget (nth i rows []) k Hk) as G.
    rewrite Eq, get_to_obj, Hs in G. discriminate.
Qed.

Lemma annotation_field_is_dropped_witness :
  let rows := [[("ID", "1"); (VALUE_KEY, "3")];
               [("ID", "2"); ("__primary", "99"); (VALUE_KEY, "1")]] in
  forallb wf_row rows = true
  /\ exists idx : list nat,
       rank (QString "value") rows
       = map (fun i => to_obj (without_annotations (nth i rows []))) idx
       /\ NoDup idx
       /\ Forall (fun i => (i < List.length rows)%nat) idx
       /\ List.length idx = Nat.min 5 (List.length rows)
       /\ (forall o k, In o (rank (QString "value") rows) ->
             In k reserved -> get o k = None)
       /\ forall i k s,
            In i idx -> In k reserved -> field (nth i rows []) k = Some s ->
            get (to_obj (nth i rows [])) k = Some (VString s)
            /\ get (decorate VALUE_KEY MAGIC_KEY (nth i rows [])) k
               = Some (VNumber
                         (sort_val (if String.eqb k "__primary"
                                    then VALUE_KEY else MAGIC_KEY)
                                   (nth i rows [])))
            /\ get (to_obj (without_annotations (nth i rows []))) k = None
            /\ to_obj (without_annotations (nth i rows []))
               <> to_obj (nth i rows []).
Proof.
  intros rows. split; [reflexivity|].
  apply (annotation_field_is_dropped (QString "value") rows). reflexivity.
Defined.

(** ** More properties of the server *)

Import RankOrder Sheet RankFacts.

(** X1: the comparator of the sort decides the order of two decorated
    rows by their sort values: its result is negative exactly when the
    first row has the greater primary sort value, or an equal one and the
    greater secondary sort value; positive in the converse case; and zero
    or [NaN] (read as zero by the sort) exactly when the rows tie. *)
Theorem comparator_decides (pk sk : string) (r1 r2 : row) :
  (ltb (Arr.SortCompare comparator (decorate pk sk r1) (decorate pk sk r2))
       zero = true
   <-> ltb (sort_val pk r2) (sort_val pk r1) = true
       \/ (eqb (sort_val pk r1) (sort_val pk r2) = true
           /\ ltb (sort_val sk r2) (sort_val sk r1) = true))
  /\ (ltb zero
          (Arr.SortCompare comparator (decorate pk sk r1) (decorate pk sk r2))
      = true
      <-> ltb (sort_val pk r1) (sort_val pk r2) = true
          \/ (eqb (sort_val pk r1) (sort_val pk r2) = true
              /\ ltb (sort_val sk r1) (sort_val sk r2) = true))
  /\ (eqb (Arr.SortCompare comparator (decorate pk sk r1)
                           (decorate pk sk r2)) zero = true
      <-> tie pk sk r1 r2 = true).
Proof.
  unfold Arr.SortCompare.
  rewrite ltb_zero_r_sign, ltb_zero_sign, eqb_zero_sign.
  rewrite (comparator_spec _ _ (decorate_annotated pk sk r1)
             (decorate_annotated pk sk r2)).
  rewrite !obj_key_decorate, tie_row_key.
  destruct (sort_val_valid pk r1) as [V1 N1].
  destruct (sort_val_valid pk r2) as [V2 N2].
  destruct (sort_val_valid sk r1) as [W1 M1].
  destruct (sort_val_valid sk r2) as [W2 M2].
  rewrite (ltb_ord_key _ _ V2 V1 N2 N1), (ltb_ord_key _ _ V1 V2 N1 N2),
    (eqb_ord_key _ _ V1 V2 N1 N2),
    (ltb_ord_key _ _ W2 W1 M2 M1), (ltb_ord_key _ _ W1 W2 M1 M2).
  pose proof (lex_compare_spec (row_key pk sk r2) (row_key pk sk r1)) as C.
  unfold row_key, lex_gt in *. cbn [fst snd] in C.
  destruct (lex_compare _ _); [injection C as C1 C2| |];
    repeat split; intros H;
    try discriminate; try reflexivity; try lia;
    try (f_equal; lia); try (injection H as H1 H2; lia).
Qed.

(** X2: the ranking keeps the best rows: a row that is left out does not
    go before a row that is kept; each kept row has a primary sort value
    at least as great, then a secondary one at least as great, then the
    smaller position. *)
Theorem rank_keeps_the_best (type : query) (rows : list row) :
  forallb wf_row rows = true ->
  exists idx : list nat,
    rank type rows
    = map (fun i => to_obj (without_annotations (nth i rows []))) idx
    /\ forall i j,
         In i idx -> (j < List.length rows)%nat -> ~ In j idx ->
         goes_before (fst (sort_fields type)) (snd (sort_fields type))
                     rows i j.
Proof.
  intros Hwf.
  destruct (rank_all_positions type rows Hwf) as [all [Hp [Hs E]]].
  exists (firstn 5 all). split; [exact E|].
  intros i j Hi Hj Hn.
  apply (StronglySorted_app_cross _ (firstn 5 all) (skipn 5 all));
    [rewrite firstn_skipn; exact Hs|exact Hi|].
  assert (Hall : In j all).
  { apply (Permutation_in _ (Permutation_sym Hp)). apply in_seq. lia. }
  rewrite <- (firstn_skipn 5 all) in Hall. apply in_app_or in Hall.
  destruct Hall as [H|H]; [contradiction|exact H].
Qed.

Lemma rank_keeps_the_best_witness :
  let rows := [[(MAGIC_KEY, "1")]; [(MAGIC_KEY, "7")]; [(MAGIC_KEY, "3")];
               [(MAGIC_KEY, "9")]; [(MAGIC_KEY, "5")]; [(MAGIC_KEY, "4")];
               [(MAGIC_KEY, "x")]] in
  forallb wf_row rows = true
  /\ exists idx : list nat,
       rank (QString "magic") rows
       = map (fun i => to_obj (without_annotations (nth i rows []))) idx
       /\ forall i j,
            In i idx -> (j < List.length rows)%nat -> ~ In j idx ->
            goes_before MAGIC_KEY VALUE_KEY rows i j.
Proof.
  intros rows. split; [reflexivity|].
  apply (rank_keeps_the_best (QString "magic") rows). reflexivity.
Defined.

(** X3: the ranking is determined by the order of the sort values: the
    records are the rows at the first five positions of any list of all
    the positions of the array that is in the order [goes_before], so a
    list that another stable sort gives would do. *)
Theorem rank_by_any_ordering (type : query) (rows : list row)
        (all : list nat) :
  forallb wf_row rows = true ->
  Permutation all (seq 0 (List.length rows)) ->
  StronglySorted
    (goes_before (fst (sort_fields type)) (snd (sort_fields type)) rows)
    all ->
  rank type rows
  = map (fun i => to_obj (without_annotations (nth i rows [])))
        (firstn 5 all).
Proof.
  intros Hwf Hp Hs. rewrite rank_top5.
  apply top5_of_ordering; [exact Hwf|exact Hp|].
  apply (StronglySorted_iff _ _ _
           (fun x y => proj1 (goes_before_ranked _ _ rows x y)) Hs).
Qed.

Lemma rank_by_any_ordering_witness :
  let rows := [[(VALUE_KEY, "2"); (MAGIC_KEY, "1")];
               [(VALUE_KEY, "5"); (MAGIC_KEY, "0")];
               [(VALUE_KEY, "2"); (MAGIC_KEY, "8")]] in
  forallb wf_row rows = true
  /\ Permutation [1; 2; 0]%nat (seq 0 (List.length rows))
  /\ StronglySorted (goes_before VALUE_KEY MAGIC_KEY rows) [1; 2; 0]%nat
  /\ rank (QString "value") rows
     = map (fun i => to_obj (without_annotations (nth i rows [])))
           (firstn 5 [1; 2; 0]%nat).
Proof.
  intros rows.
  assert (Hp : Permutation [1; 2; 0]%nat (seq 0 (List.length rows))).
  { simpl. apply Permutation_sym.
    apply (perm_trans (perm_swap 1%nat 0%nat [2%nat])).
    apply perm_skip. apply perm_swap. }
  assert (Hs : StronglySorted (goes_before VALUE_KEY MAGIC_KEY rows)
                              [1; 2; 0]%nat).
  { apply SSorted_cons;
      [apply SSorted_cons;
         [apply SSorted_cons; [apply SSorted_nil|apply Forall_nil]
         |apply Forall_cons; [|apply Forall_nil]]
      |apply Forall_cons; [|apply Forall_cons; [|apply Forall_nil]]].
    - right. split; [reflexivity|]. left. reflexivity.
    - left. reflexivity.
    - left. reflexivity. }
  split; [reflexivity|]. split; [exact Hp|]. split; [exact Hs|].
  apply (rank_by_any_ordering (QString "value") rows [1; 2; 0]%nat);
    [reflexivity|exact Hp|exact Hs].
Defined.

(** X4: the ranking takes the same positions from two arrays whose rows
    have, position by position, equal sort values: the other fields of a
    row have no part in the order. *)
Theorem rank_positions_by_sort_values (type : query)
        (rows rows' : list row) :
  forallb wf_row rows = true ->
  forallb wf_row rows' = true ->
  List.length rows = List.length rows' ->
  (forall i, (i < List.length rows)%nat ->
     tie (fst (sort_fields type)) (snd (sort_fields type))
         (nth i rows []) (nth i rows' []) = true) ->
  exists idx : list nat,
    rank type rows
    = map (fun i => to_obj (without_annotations (nth i rows []))) idx
    /\ rank type rows'
       = map (fun i => to_obj (without_annotations (nth i rows' []))) idx.
Proof.
  intros Hwf Hwf' Hlen Htie. rewrite !rank_top5.
  set (pk := fst (sort_fields type)) in *.
  set (sk := snd (sort_fields type)) in *.
  destruct (top5_all_positions pk sk rows Hwf) as [all [Hp [Hs E]]].
  exists (firstn 5 all). split; [exact E|].
  apply top5_of_ordering; [exact Hwf'|rewrite <- Hlen; exact Hp|].
  assert (Hk : forall x, In x all ->
            row_key pk sk (nth x rows []) = row_key pk sk (nth x rows' [])).
  { intros x Hx. apply tie_row_key. apply Htie.
    apply (Permutation_in _ Hp) in Hx. apply in_seq in Hx. lia. }
  apply (StronglySorted_impl_in (ranked_before pk sk rows)); [|exact Hs].
  intros x y Hx Hy. unfold ranked_before.
  rewrite (Hk x Hx), (Hk y Hy). tauto.
Qed.

Lemma rank_positions_by_sort_values_witness :
  let rows := [[("ID", "a"); (MAGIC_KEY, "1"); (VALUE_KEY, "2")];
               [("ID", "b"); (MAGIC_KEY, "3"); (VALUE_KEY, "0")]] in
  let rows' := [[(VALUE_KEY, "2.0"); (MAGIC_KEY, " 1")];
                [(MAGIC_KEY, "3e0"); (VALUE_KEY, "-0"); ("HP", "7")]] in
  forallb wf_row rows = true
  /\ forallb wf_row rows' = true
  /\ exists idx : list nat,
       rank (QString "magic") rows
       = map (fun i => to_obj (without_annotations (nth i rows []))) idx
       /\ rank (QString "magic") rows'
          = map (fun i => to_obj (without_annotations (nth i rows' []))) idx.
Proof.
  intros rows rows'. split; [reflexivity|]. split; [reflexivity|].
  apply (rank_positions_by_sort_values (QString "magic") rows rows');
    [reflexivity|reflexivity|reflexivity|].
  intros [|[|i]] Hi; [reflexivity|reflexivity|simpl in Hi; lia].
Defined.

(** X5: when no two rows tie, the ranking does not depend on the order of
    the rows in the input: an array with the same rows in another order
    has the same ranking. *)
Theorem rank_ignores_input_order (type : query) (rows rows' : list row) :
  forallb wf_row rows = true ->
  Permutation rows rows' ->
  (forall i j, (i < j < List.length rows)%nat ->
     tie (fst (sort_fields type)) (snd (sort_fields type))
         (nth i rows []) (nth j rows []) = false) ->
  rank type rows' = rank type rows.
Proof.
  intros Hwf Hperm Hno. rewrite !rank_top5.
  set (pk := fst (sort_fields type)) in *.
  set (sk := snd (sort_fields type)) in *.
  assert (Hwf' : forallb wf_row rows' = true).
  { rewrite forallb_forall in *. intros r Hr. apply Hwf.
    apply (Permutation_in _ (Permutation_sym Hperm)). exact Hr. }
  assert (Hnd : NoDup (map (row_key pk sk) rows)).
  { apply (NoDup_nth _ (row_key pk sk [])). rewrite length_map.
    intros i j Hi Hj. rewrite !(map_nth (row_key pk sk)). intros E.
    apply tie_row_key in E.
    destruct (Nat.lt_trichotomy i j) as [L|[L|L]]; [|exact L|].
    - rewrite (Hno i j) in E by lia. discriminate.
    - unfold tie in E. rewrite andb_true_iff in E. destruct E as [E1 E2].
      assert (E' : tie pk sk (nth j rows []) (nth i rows []) = true).
      { apply tie_row_key. symmetry. apply tie_row_key.
        unfold tie. rewrite E1, E2. reflexivity. }
      rewrite (Hno j i) in E' by lia. discriminate. }
  assert (Hnd' : NoDup (map (row_key pk sk) rows')).
  { apply (Permutation_NoDup (Permutation_map _ Hperm) Hnd). }
  assert (Hstrict : forall l : list row, NoDup (map (row_key pk sk) l) ->
            forall all, Permutation all (seq 0 (List.length l)) ->
            StronglySorted (ranked_before pk sk l) all ->
            StronglySorted
              (fun a b => lex_gt (row_key pk sk a) (row_key pk sk b))
              (map (fun i => nth i l []) all)).
  { intros l Hl all Hp Hs.
    apply (StronglySorted_map (ranked_before pk sk l)); [|exact Hs].
    intros x y Hx Hy [H|[E L]]; [exact H|]. exfalso.
    apply (Permutation_in _ Hp), in_seq in Hx.
    apply (Permutation_in _ Hp), in_seq in Hy.
    assert (x = y); [|lia].
    apply (proj1 (NoDup_nth _ (row_key pk sk [])) Hl);
      rewrite ?length_map; try lia.
    rewrite !(map_nth (row_key pk sk)). exact E. }
  assert (Hrows : forall l all, Permutation all (seq 0 (List.length l)) ->
            Permutation (map (fun i => nth i l ([] : row)) all) l).
  { intros l all Hp. rewrite (Permutation_map _ Hp).
    rewrite map_nth_positions. reflexivity. }
  destruct (top5_all_positions pk sk rows Hwf) as [all [Hp [Hs E]]].
  destruct (top5_all_positions pk sk rows' Hwf') as [all' [Hp' [Hs' E']]].
  assert (Heq : map (fun i => nth i rows' []) all'
                = map (fun i => nth i rows []) all).
  { apply (StronglySorted_unique
             (fun a b => lex_gt (row_key pk sk a) (row_key pk sk b))).
    - intros a b _ _. apply lex_gt_asym.
    - apply Hstrict; assumption.
    - apply Hstrict; assumption.
    - rewrite (Hrows rows' all' Hp'), (Hrows rows all Hp).
      symmetry. exact Hperm. }
  rewrite E, E'.
  rewrite <- (map_map (fun i => nth i rows' [])
                (fun r => to_obj (without_annotations r))).
  rewrite <- (map_map (fun i => nth i rows [])
                (fun r => to_obj (without_annotations r))).
  rewrite <- !firstn_map, Heq. reflexivity.
Qed.

Lemma rank_ignores_input_order_witness :
  let rows := [[(PHYSICAL_KEY, "4"); (VALUE_KEY, "1")];
               [(PHYSICAL_KEY, "4"); (VALUE_KEY, "2")];
               [(PHYSICAL_KEY, "9"); (VALUE_KEY, "1")]] in
  let rows' := [[(PHYSICAL_KEY, "9"); (VALUE_KEY, "1")];
                [(PHYSICAL_KEY, "4"); (VALUE_KEY, "1")];
                [(PHYSICAL_KEY, "4"); (VALUE_KEY, "2")]] in
  forallb wf_row rows = true
  /\ Permutation rows rows'
  /\ rank (QString "physical") rows' = rank (QString "physical") rows.
Proof.
  intros rows rows'.
  assert (Hp : Permutation rows rows').
  { apply Permutation_sym. apply (perm_trans (perm_swap _ _ _)).
    apply perm_skip. apply perm_swap. }
  split; [reflexivity|]. split; [exact Hp|].
  apply (rank_ignores_input_order (QString "physical") rows rows');
    [reflexivity|exact Hp|].
  intros [|[|[|i]]] [|[|[|j]]] H; simpl in H; try lia; reflexivity.
Defined.

(** X6: no record of the ranking has a property named [__primary] or
    [__secondary], whatever the rows hold. *)
Theorem rank_has_no_annotation (type : query) (rows : list row) (o : obj) :
  In o (rank type rows) ->
  get o "__primary" = None /\ get o "__secondary" = None.
Proof.
  rewrite rank_top5. unfold top5. intros H. apply in_map_iff in H.
  destruct H as [x [<- _]]. unfold strip.
  split; apply (get_copy_props_excluded ["__primary"; "__secondary"]);
    reflexivity.
Qed.

Lemma rank_has_no_annotation_witness :
  In [(VALUE_KEY, VString "3")]
     (rank (QString "value") [[("__primary", "7"); (VALUE_KEY, "3")]])
  /\ get [(VALUE_KEY, VString "3")] "__primary" = None
  /\ get [(VALUE_KEY, VString "3")] "__secondary" = None.
Proof.
  split; [left; reflexivity|].
  apply (rank_has_no_annotation (QString "value")
           [[("__primary", "7"); (VALUE_KEY, "3")]]).
  left. reflexivity.
Defined.

(** X7: the status of the answer of [/api/top-characters] tells what
    happened: 400 exactly for a type that is not valid, 200 exactly for a
    valid type and rows that were fetched, 500 exactly for a valid type
    and a fetch that failed; the body of a failure carries the message of
    the error, and the sheet is fetched once for a valid type and not at
    all otherwise. *)
Theorem top_characters_status (type : query) (world : fetched) :
  let r := fst (run (top_characters type) world) in
  (status r = 400 <-> valid_type type = false)
  /\ (status r = 200
      <-> valid_type type = true /\ exists rows, world = Rows rows)
  /\ (status r = 500
      <-> valid_type type = true /\ exists message, world = Thrown message)
  /\ (forall message error,
        json r = Failure message error ->
        message = "伺服器錯誤" /\ world = Thrown error /\ status r = 500)
  /\ snd (run (top_characters type) world)
     = (if valid_type type then 1%nat else 0%nat).
Proof.
  unfold top_characters. fold (valid_type type).
  destruct (valid_type type); cbn [negb];
    [destruct (sort_fields type) as [pk sk]; destruct world as [rows|m]|];
    cbn [run fst snd status json]; repeat split;
    try discriminate;
    try (intros [? ?]; discriminate);
    try (intros [_ [? ?]]; discriminate);
    try (eexists; reflexivity);
    match goal with
    | H : Failure _ _ = Failure _ _ |- _ =>
        injection H as <- <-; reflexivity
    end.
Qed.

(** X8: [fetchSheetRows] gives rows only when the response is ok, its
    text was read and the parser reports no error, and then all the rows
    the parser read; with an error reported, the rows that were read are
    not returned.  For a response that is not ok, neither the text nor the
    parser has a part in the error. *)
Theorem fetchSheetRows_rows (Papa_parse : string -> parse_result)
        (response : fetch_outcome) :
  (forall rows,
     fetchSheetRows Papa_parse response = Rows rows
     <-> exists status csvText,
           response = Response true status (Text csvText)
           /\ errors (Papa_parse csvText) = []
           /\ rows = data (Papa_parse csvText))
  /\ (forall status csvText,
        response = Response true status (Text csvText) ->
        errors (Papa_parse csvText) <> [] ->
        exists message,
          fetchSheetRows Papa_parse response
          = Thrown (String.append "CSV 解析錯誤：" message))
  /\ (forall status text,
        response = Response false status text ->
        forall Papa_parse' text',
          fetchSheetRows Papa_parse response
          = fetchSheetRows Papa_parse' (Response false status text')).
Proof.
  split; [|split].
  - intros rows. split.
    + destruct response as [m|[|] st [csv|m]]; cbn; try discriminate.
      destruct (errors (Papa_parse csv)) eqn:E; [|discriminate].
      intros H. injection H as <-. exists st, csv. repeat split. exact E.
    + intros [st [csv [-> [E ->]]]]. cbn. rewrite E. reflexivity.
  - intros st csv -> H. cbn.
    destruct (errors (Papa_parse csv)) as [|e l]; [contradiction|].
    eexists. reflexivity.
  - intros st text ->. reflexivity.
Qed.

Lemma status_string_inj (s s' : N) :
  status_string s = status_string s' -> s = s'.
Proof.
  unfold status_string. intros H.
  apply (f_equal DecimalString.NilZero.uint_of_string) in H.
  rewrite !DecimalString.NilZero.usu in H.
  - injection H as H. apply (f_equal N.of_uint) in H.
    rewrite !DecimalN.Unsigned.of_to in H. exact H.
  - intros E. destruct s'; [discriminate|].
    pose proof (DecimalPos.Unsigned.to_uint_nonnil p). contradiction.
  - intros E. destruct s; [discriminate|].
    pose proof (DecimalPos.Unsigned.to_uint_nonnil p). contradiction.
Qed.

(** X9: the error thrown for a response that is not ok tells its status:
    two such responses with the same error have the same status. *)
Theorem http_error_tells_status (Papa_parse Papa_parse' : string -> parse_result)
        (status status' : N) (text text' : text_outcome) :
  fetchSheetRows Papa_parse (Response false status text)
  = fetchSheetRows Papa_parse' (Response false status' text') ->
  status = status'.
Proof.
  unfold fetchSheetRows. cbn [negb]. intros H. injection H as H.
  apply status_string_inj. exact H.
Qed.

Lemma http_error_tells_status_witness :
  let P := fun _ : string => {| data := []; errors := [] |} in
  fetchSheetRows P (Response false 404 (Text "a"))
  = fetchSheetRows P (Response false 404 (TextRejected "b"))
  /\ 404%N = 404%N.
Proof.
  intros P. split; [reflexivity|].
  apply (http_error_tells_status P P 404 404 (Text "a") (TextRejected "b")).
  reflexivity.
Defined.

(** X10: the two endpoints answer alike on the same sheet.  For a valid
    type, [/api/top-characters] has the status of [/api/sheet-data]; when
    the latter returns rows, the former returns the ranking of these rows
    with the type and its two fields; when the latter fails, the former
    fails with the same body. *)
Theorem endpoints_agree (Papa_parse : string -> parse_result)
        (response : fetch_outcome) (type : query) :
  valid_type type = true ->
  let world := fetchSheetRows Papa_parse response in
  let sheet := fst (run_sheet sheet_data world) in
  let top := fst (run (top_characters type) world) in
  sheet_status sheet = status top
  /\ (forall rows,
        sheet_json sheet = SheetRows rows ->
        json top = Top (rank type rows) type
                       (fst (sort_fields type)) (snd (sort_fields type)))
  /\ (forall message error,
        sheet_json sheet = SheetFailure message error ->
        json top = Failure message error)
  /\ snd (run_sheet sheet_data world) = snd (run (top_characters type) world).
Proof.
  intros Hv world. unfold top_characters, rank. fold (valid_type type).
  rewrite Hv. cbn [negb]. destruct (sort_fields type) as [pk sk].
  destruct world as [rows|m]; cbn.
  - repeat split; try discriminate.
    intros rows' H. injection H as <-. reflexivity.
  - repeat split; try discriminate.
    intros m' e H. injection H as <- <-. reflexivity.
Qed.

Lemma endpoints_agree_witness :
  let P := fun _ : string =>
             {| data := [[(MAGIC_KEY, "3")]]; errors := [] |} in
  valid_type (QString "magic") = true
  /\ sheet_status
       (fst (run_sheet sheet_data
               (fetchSheetRows P (Response true 200 (Text "x")))))
     = status
         (fst (run (top_characters (QString "magic"))
                 (fetchSheetRows P (Response true 200 (Text "x"))))).
Proof.
  intros P. split; [reflexivity|].
  apply (endpoints_agree P (Response true 200 (Text "x")) (QString "magic")).
  reflexivity.
Defined.

(** X11: white space before the text of a sort field has no part in the
    ranking.  Of two sheets whose rows differ, position by position,
    only by white space before the text of their sort fields, the
    decoration writes the same keys, and the rankings take the same
    positions. *)
Theorem sort_val_ignores_leading_space (type : query)
        (rows rows' : list row) :
  forallb wf_row rows = true ->
  forallb wf_row rows' = true ->
  List.length rows = List.length rows' ->
  (forall i key,
     (i < List.length rows)%nat ->
     key = fst (sort_fields type) \/ key = snd (sort_fields type) ->
     exists ws s,
       StrWhiteSpace ws
       /\ field (nth i rows []) key = Some (String.append ws s)
       /\ field (nth i rows' []) key = Some s) ->
  (forall i name,
     (i < List.length rows)%nat -> In name reserved ->
     exists x,
       get (decorate (fst (sort_fields type)) (snd (sort_fields type))
                     (nth i rows [])) name = Some (VNumber x)
       /\ get (decorate (fst (sort_fields type)) (snd (sort_fields type))
                        (nth i rows' [])) name = Some (VNumber x))
  /\ exists idx : list nat,
       rank type rows
       = map (fun i => to_obj (without_annotations (nth i rows []))) idx
       /\ rank type rows'
          = map (fun i => to_obj (without_annotations (nth i rows' []))) idx.
Proof.
  intros Hwf Hwf' Hlen Hws.
  set (pk := fst (sort_fields type)) in *.
  set (sk := snd (sort_fields type)) in *.
  assert (Hsv : forall i key,
            (i < List.length rows)%nat -> key = pk \/ key = sk ->
            sort_val key (nth i rows []) = sort_val key (nth i rows' [])).
  { intros i key Hi Hkey.
    destruct (Hws i key Hi Hkey) as [ws [s [W [E E']]]].
    unfold sort_val, Str.parseFloat. rewrite E, E'. cbn [ToString].
    rewrite (TrimStart_ws _ _ W). reflexivity. }
  split.
  - intros i name Hi Hname.
    destruct (get_decorate pk sk (nth i rows [])) as [Gp Gs].
    destruct (get_decorate pk sk (nth i rows' [])) as [Gp' Gs'].
    destruct Hname as [<-|[<-|[]]].
    + exists (sort_val pk (nth i rows [])). split; [exact Gp|].
      rewrite (Hsv i pk Hi (or_introl eq_refl)). exact Gp'.
    + exists (sort_val sk (nth i rows [])). split; [exact Gs|].
      rewrite (Hsv i sk Hi (or_intror eq_refl)). exact Gs'.
  - rewrite !rank_top5. fold pk sk.
    apply top5_same_positions; try assumption.
    intros i Hi. unfold row_key.
    rewrite (Hsv i pk Hi (or_introl eq_refl)),
      (Hsv i sk Hi (or_intror eq_refl)).
    reflexivity.
Qed.

Lemma sort_val_ignores_leading_space_witness :
  let rows := [[(VALUE_KEY, "  12abc"); (MAGIC_KEY, "1")];
               [(VALUE_KEY, " 40"); (MAGIC_KEY, " x")]] in
  let rows' := [[(VALUE_KEY, "12abc"); (MAGIC_KEY, "1")];
                [(VALUE_KEY, "40"); (MAGIC_KEY, "x")]] in
  forallb wf_row rows = true
  /\ forallb wf_row rows' = true
  /\ (forall i name,
        (i < List.length rows)%nat -> In name reserved ->
        exists x,
          get (decorate VALUE_KEY MAGIC_KEY (nth i rows [])) name
          = Some (VNumber x)
          /\ get (decorate VALUE_KEY MAGIC_KEY (nth i rows' [])) name
             = Some (VNumber x))
  /\ exists idx : list nat,
       rank (QString "value") rows
       = map (fun i => to_obj (without_annotations (nth i rows []))) idx
       /\ rank (QString "value") rows'
          = map (fun i => to_obj (without_annotations (nth i rows' []))) idx.
Proof.
  intros rows rows'.
  assert (W0 : StrWhiteSpace "") by apply WS_none.
  assert (W1 : StrWhiteSpace " ")
    by (apply WS_1; [reflexivity|exact W0]).
  assert (W2 : StrWhiteSpace "  ")
    by (apply WS_1; [reflexivity|exact W1]).
  split; [reflexivity|]. split; [reflexivity|].
  apply (sort_val_ignores_leading_space (QString "value") rows rows');
    [reflexivity|reflexivity|reflexivity|].
  intros [|[|i]] key Hi [-> | ->]; try (simpl in Hi; lia).
  - exists "  ", "12abc". split; [exact W2|]. split; reflexivity.
  - exists "", "1". split; [exact W0|]. split; reflexivity.
  - exists " ", "40". split; [exact W1|]. split; reflexivity.
  - exists " ", "x". split; [exact W1|]. split; reflexivity.
Defined.

Lemma StronglySorted_snoc {A : Type} (R : A -> A -> Prop) (l : list A)
      (x : A) :
  StronglySorted R l -> (forall y, In y l -> R y x) ->
  StronglySorted R (l ++ [x]).
Proof.
  induction 1 as [|a l S IH Ha]; intros H; simpl.
  - constructor; constructor.
  - constructor.
    + apply IH. intros y Hy. apply H. right. exact Hy.
    + apply Forall_app. split; [exact Ha|].
      constructor; [|constructor]. apply H. left. reflexivity.
Qed.

(** X12: a ranking of five rows is not changed by one more row at the end
    of the array whose sort values are not greater than those of a row
    that is there: not a greater primary sort value, and with an equal one
    not a greater secondary sort value. *)
Theorem rank_unchanged_by_weaker_row (type : query) (rows : list row)
        (r : row) :
  forallb wf_row rows = true ->
  wf_row r = true ->
  (5 <= List.length rows)%nat ->
  (forall x, In x rows ->
     ltb (sort_val (fst (sort_fields type)) x)
         (sort_val (fst (sort_fields type)) r) = false
     /\ (eqb (sort_val (fst (sort_fields type)) x)
             (sort_val (fst (sort_fields type)) r) = true ->
         ltb (sort_val (snd (sort_fields type)) x)
             (sort_val (snd (sort_fields type)) r) = false)) ->
  rank type (rows ++ [r]) = rank type rows.
Proof.
  intros Hwf Hr Hlen Hweak. rewrite !rank_top5.
  set (pk := fst (sort_fields type)) in *.
  set (sk := snd (sort_fields type)) in *.
  destruct (top5_all_positions pk sk rows Hwf) as [all [Hp [Hs E]]].
  assert (Hin : forall x, In x all -> (x < List.length rows)%nat).
  { intros x Hx. apply (Permutation_in _ Hp), in_seq in Hx. lia. }
  assert (Hall : List.length all = List.length rows).
  { rewrite (Permutation_length Hp). apply length_seq. }
  rewrite (top5_of_ordering pk sk (rows ++ [r]) (all ++ [List.length rows])).
  - rewrite firstn_app.
    replace (5 - List.length all)%nat with 0%nat by lia.
    cbn [firstn]. rewrite app_nil_r, E.
    apply map_ext_in. intros x Hx.
    rewrite app_nth1; [reflexivity|].
    apply Hin. rewrite <- (firstn_skipn 5 all).
    apply in_or_app. left. exact Hx.
  - rewrite forallb_app, Hwf. cbn. rewrite Hr. reflexivity.
  - rewrite length_app. cbn [List.length].
    rewrite Nat.add_1_r, seq_S. apply Permutation_app; [exact Hp|].
    reflexivity.
  - apply StronglySorted_snoc.
    + apply (StronglySorted_impl_in (ranked_before pk sk rows)); [|exact Hs].
      intros x y Hx Hy. unfold ranked_before.
      rewrite !(app_nth1 rows [r]) by (apply Hin; assumption). tauto.
    + intros y Hy. unfold ranked_before.
      rewrite (app_nth1 rows [r]) by (apply Hin; exact Hy).
      rewrite app_nth2, Nat.sub_diag by lia. cbn [nth].
      pose proof (Hin y Hy) as Hy'.
      destruct (Hweak (nth y rows []) (nth_In rows [] Hy')) as [W1 W2].
      destruct (sort_val_valid pk (nth y rows [])) as [V1 N1].
      destruct (sort_val_valid pk r) as [V2 N2].
      destruct (sort_val_valid sk (nth y rows [])) as [V3 N3].
      destruct (sort_val_valid sk r) as [V4 N4].
      rewrite (eqb_ord_key _ _ V1 V2 N1 N2) in W2.
      pose proof (ltb_ord_key _ _ V1 V2 N1 N2) as L1.
      pose proof (ltb_ord_key _ _ V3 V4 N3 N4) as L2.
      unfold lex_gt, row_key. cbn [fst snd].
      set (a := ord_key (sort_val pk (nth y rows []))) in *.
      set (b := ord_key (sort_val pk r)) in *.
      set (c := ord_key (sort_val sk (nth y rows []))) in *.
      set (d := ord_key (sort_val sk r)) in *.
      assert (Hab : b <= a).
      { destruct (Z_lt_le_dec a b) as [L|L]; [|exact L].
        apply L1 in L. congruence. }
      destruct (Z.eq_dec a b) as [Eab|Nab]; [|left; left; lia].
      assert (Hcd : d <= c).
      { destruct (Z_lt_le_dec c d) as [L|L]; [|exact L].
        apply L2 in L. rewrite (W2 Eab) in L. discriminate. }
      destruct (Z.eq_dec c d) as [Ecd|Ncd].
      * right. split; [rewrite Eab, Ecd; reflexivity|exact Hy'].
      * left. right. lia.
Qed.

Lemma rank_unchanged_by_weaker_row_witness :
  let rows := [[(VALUE_KEY, "5")]; [(VALUE_KEY, "4")]; [(VALUE_KEY, "3")];
               [(VALUE_KEY, "2")]; [(VALUE_KEY, "1")]] in
  let r := [(VALUE_KEY, "1"); ("ID", "late")] in
  forallb wf_row rows = true
  /\ wf_row r = true
  /\ rank (QString "value") (rows ++ [r]) = rank (QString "value") rows.
Proof.
  intros rows r. split; [reflexivity|]. split; [reflexivity|].
  apply (rank_unchanged_by_weaker_row (QString "value") rows r);
    [reflexivity|reflexivity|simpl; lia|].
  intros x [<-|[<-|[<-|[<-|[<-|[]]]]]]; split; reflexivity.
Defined.

(** X13: of the errors the parser reports, only the first has a part in
    the error thrown, and neither the rows read nor the status have one;
    the text is the message of this error, or what [JSON.stringify] gives
    for the error when the message is missing or empty. *)
Theorem parse_error_first_only (Papa_parse Papa_parse' : string -> parse_result)
        (status status' : N) (csvText csvText' : string)
        (firstErr : parse_error) (others others' : list parse_error) :
  errors (Papa_parse csvText) = firstErr :: others ->
  errors (Papa_parse' csvText') = firstErr :: others' ->
  fetchSheetRows Papa_parse (Response true status (Text csvText))
  = fetchSheetRows Papa_parse' (Response true status' (Text csvText'))
  /\ (forall c m,
        error_message firstErr = Some (String c m) ->
        fetchSheetRows Papa_parse (Response true status (Text csvText))
        = Thrown (String.append "CSV 解析錯誤：" (String c m)))
  /\ (error_message firstErr = None \/ error_message firstErr = Some "" ->
      fetchSheetRows Papa_parse (Response true status (Text csvText))
      = Thrown (String.append "CSV 解析錯誤：" (error_json firstErr))).
Proof.
  intros E E'. unfold fetchSheetRows. cbn [negb]. rewrite E, E'.
  split; [reflexivity|]. unfold error_text. split.
  - intros c m ->. reflexivity.
  - intros [->| ->]; reflexivity.
Qed.

Lemma parse_error_first_only_witness :
  let e1 := {| error_message := Some "Too few fields";
               error_json := "{}" |} in
  let e2 := {| error_message := None; error_json := "{}" |} in
  let P := fun _ : string =>
             {| data := [[("ID", "a")]]; errors := [e1; e2] |} in
  let P' := fun _ : string => {| data := []; errors := [e1] |} in
  errors (P "x") = [e1; e2]
  /\ fetchSheetRows P (Response true 200 (Text "x"))
     = fetchSheetRows P' (Response true 203 (Text "y")).
Proof.
  intros e1 e2 P P'. split; [reflexivity|].
  apply (parse_error_first_only P P' 200 203 "x" "y" e1 [e2] []);
    reflexivity.
Defined.
